(** * Calculadora neuronal: a shallow embedding of [src/app/page.tsx]

    The component keeps a TensorFlow.js model in React state, swaps it when
    the selected operation changes ([cambiarModelo], with the in-memory
    fallback [crearModeloEnMemoria]) and runs one forward pass per click
    ([calcular]).  The embedding has three layers:

    - the numeric platform the code runs on: JavaScript numbers (binary64),
      [float32] tensors, [parseFloat] and [Number.prototype.toFixed];
    - the TensorFlow.js objects the code touches: tensors with a registry of
      live buffers, a dense layer, [setWeights], [predict], [dispose];
    - the component itself: its state, [crearModeloEnMemoria], the two halves
      of [cambiarModelo] around its [await], [calcular], and the parts of
      the rendered page that depend on the state.

    Numbers are exact rationals (or NaN, or an infinity) that are rounded
    where the platform rounds: to binary64 when a string is parsed, to
    binary32 when a value is stored in a tensor and after every elementary
    operation on tensor values.  Strings are sequences of code units below
    256.  What the surroundings decide (whether the model file loads, what
    a loaded model computes, whether the backend fails) is an argument of
    the handler it affects.  [cambiarModelo] and [calcular] are split at
    their [await], so that other events can fall between the two halves;
    for [calcular] the uninterrupted call is given as well. *)

From Stdlib Require Import ZArith QArith Qround Qabs Qpower Lqa Lia.
From Stdlib Require Import String Ascii List Bool DecimalString.
From Stdlib Require Qcanon.
From stdpp Require Import gmap.
Import ListNotations.

Local Open Scope Z_scope.

(** ** JavaScript numbers *)

Module Num.

(** A number is NaN, an infinity, or a finite rational.  The two zeros are
    identified: the code never divides, and [toFixed] prints both as 0.00. *)
Inductive number : Type :=
  | NaN
  | Inf (neg : bool)
  | Fin (q : Q).

Definition isNaN (x : number) : bool :=
  match x with NaN => true | _ => false end.

Definition isFinite (x : number) : bool :=
  match x with Fin _ => true | _ => false end.

(** A binary floating-point format: precision in bits and the exponent bound
    ([2 ^ emax] is the first magnitude that overflows). *)
Record format : Type := { prec : Z; emax : Z }.

Definition binary32 : format := {| prec := 24; emax := 128 |}.
Definition binary64 : format := {| prec := 53; emax := 1024 |}.

(** Exponent of the smallest subnormal: -149 for binary32, -1074 for binary64. *)
Definition emin (f : format) : Z := 3 - emax f - prec f.

Definition pow2 (k : Z) : Q := (2 ^ k)%Q.

(** [ilog2 q] is the integer [e] with [2^e <= q < 2^(e+1)], for [q > 0]. *)
Definition ilog2 (q : Q) : Z :=
  let k := Z.log2 (Qnum q) - Z.log2 (Zpos (Qden q)) in
  if Qle_bool (pow2 k) q then k else k - 1.

(** Round to the nearest integer, ties to even. *)
Definition rne (q : Q) : Z :=
  let f := Qfloor q in
  match (q - inject_Z f ?= 1 # 2)%Q with
  | Lt => f
  | Gt => f + 1
  | Eq => if Z.even f then f else f + 1
  end.

(** Exponent of the unit in the last place of [q] in format [f]. *)
Definition fexp (f : format) (q : Q) : Z :=
  Z.max (ilog2 (Qabs q) + 1 - prec f) (emin f).

(** IEEE 754 round-to-nearest-even of a rational into format [f]. *)
Definition round (f : format) (q : Q) : number :=
  if Qeq_bool q 0 then Fin 0
  else
    let e := fexp f q in
    let x := (inject_Z (rne (q * pow2 (- e))) * pow2 e)%Q in
    if Qle_bool (pow2 (emax f)) (Qabs x)
    then Inf (negb (Qle_bool 0 q))
    else Fin (Qred x).

Definition sign_neg (x : number) : bool :=
  match x with
  | NaN => false
  | Inf s => s
  | Fin q => negb (Qle_bool 0 q)
  end.

(** Storing a number into a tensor of format [f] ([Float32Array] store). *)
Definition cast (f : format) (x : number) : number :=
  match x with
  | Fin q => round f q
  | _ => x
  end.

Definition fadd (f : format) (x y : number) : number :=
  match x, y with
  | NaN, _ | _, NaN => NaN
  | Inf s, Inf t => if Bool.eqb s t then Inf s else NaN
  | Inf s, Fin _ | Fin _, Inf s => Inf s
  | Fin a, Fin b => round f (a + b)
  end.

Definition fmul (f : format) (x y : number) : number :=
  match x, y with
  | NaN, _ | _, NaN => NaN
  | Inf s, Inf t => Inf (xorb s t)
  | Inf s, Fin b => if Qeq_bool b 0 then NaN else Inf (xorb s (sign_neg y))
  | Fin a, Inf t => if Qeq_bool a 0 then NaN else Inf (xorb (sign_neg x) t)
  | Fin a, Fin b => round f (a * b)
  end.

(** The values of format [f]: an integer of at most [prec f] bits times a
    power of two not below the smallest subnormal, short of overflow. *)
Definition representable (f : format) (x : Q) : Prop :=
  exists n e, (x == inject_Z n * pow2 e)%Q /\ Z.abs n <= 2 ^ prec f /\
              emin f <= e /\ (Qabs x < pow2 (emax f))%Q.

(** Half a unit in the last place of [binary32], relative to the value. *)
Definition eps32 : Q := 1 # 16777216.

End Num.

(** ** Number formatting and parsing (ECMAScript) *)

Module Js.
Import Num.

Local Open Scope string_scope.

(** Decimal digits of a non-negative integer, ["0"] for zero. *)
Definition digits_of (n : Z) : string :=
  NilZero.string_of_uint (N.to_uint (Z.to_N n)).

(** Number of decimal digits of the integer part of [x], for [x >= 1]. *)
Definition int_digits (x : Q) : Z :=
  Z.of_nat (String.length (digits_of (Qfloor x))).

(** [Number::toString] for [x >= 10^21]: the shortest digit string [s] of
    length [k] with [s * 10^(n-k)] rounding to [x], then exponent notation.
    [fuel] bounds [k]; 17 digits always suffice for a binary64 value. *)
Fixpoint shortest (fuel : nat) (k : Z) (x : Q) : option (Z * Z) :=
  match fuel with
  | O => None
  | S fuel' =>
      let n := int_digits x in
      let unit := (10 ^ (n - k)%Z)%Q in
      let lo := Qfloor (x / unit) in
      let hi := (lo + 1)%Z in
      let ok s :=
        match round binary64 (inject_Z s * unit) with
        | Fin y => Qeq_bool y x
        | _ => false
        end in
      let pick s :=
        (if s =? 10 ^ k then (10 ^ (k - 1), n + 1) else (s, n))%Z in
      match ok lo, ok hi with
      | true, true =>
          if Qle_bool (x - inject_Z lo * unit) (inject_Z hi * unit - x)
          then Some (pick lo) else Some (pick hi)
      | true, false => Some (pick lo)
      | false, true => Some (pick hi)
      | false, false => shortest fuel' (k + 1) x
      end
  end.

Definition strip_zeros_right (s : string) : string :=
  let fix go (l : list ascii) : list ascii :=
    match l with
    | c :: r => if Ascii.eqb c "0" then go r else l
    | [] => []
    end in
  string_of_list_ascii (rev (go (rev (list_ascii_of_string s)))).

Definition toString_large (x : Q) : string :=
  match shortest 17 1 x with
  | Some (s, n) =>
      match strip_zeros_right (digits_of s) with
      | String d EmptyString => String d "e+" ++ digits_of (n - 1)%Z
      | String d rest => String d ("." ++ rest) ++ "e+" ++ digits_of (n - 1)%Z
      | EmptyString => "0"
      end
  | None => digits_of (Qfloor x)
  end.

(** The fixed-point branch of [toFixed(2)], for [0 <= x < 10^21]: the
    integer [n] nearest to [100 x] (the larger one on a tie), printed with
    a point before its last two digits. *)
Definition fixed2 (x : Q) : string :=
  let n := Qfloor (x * 100 + (1 # 2)) in
  digits_of (n / 100)%Z ++ "." ++
  digits_of (n mod 100 / 10)%Z ++ digits_of (n mod 10)%Z.

(** [Number.prototype.toFixed(2)]. *)
Definition toFixed2 (x : number) : string :=
  match x with
  | NaN => "NaN"
  | Inf false => "Infinity"
  | Inf true => "-Infinity"
  | Fin q =>
      let s := if Qle_bool 0 q then "" else "-" in
      let a := Qabs q in
      if Qle_bool (inject_Z (10 ^ 21)%Z) a
      then s ++ toString_large a
      else s ++ fixed2 a
  end.

(** White space and line terminators with a code unit below 256. *)
Definition is_space (c : ascii) : bool :=
  let n := N_of_ascii c in
  ((9 <=? n) && (n <=? 13) || (n =? 32) || (n =? 160))%N.

Definition is_digit (c : ascii) : bool :=
  let n := N_of_ascii c in ((48 <=? n) && (n <=? 57))%N.

(** A text that ends in a point and two decimal digits. *)
Definition two_decimals (s : string) : Prop :=
  exists pre c1 c2,
    s = pre ++ "." ++ String c1 (String c2 "") /\
    is_digit c1 = true /\ is_digit c2 = true.

Fixpoint skip_space (s : string) : string :=
  match s with
  | String c r => if is_space c then skip_space r else s
  | EmptyString => s
  end.

(** Reads a run of decimal digits: its value on top of [acc], the number of
    digits read on top of [cnt], and the rest of the string. *)
Fixpoint read_digits (s : string) (acc cnt : Z) : Z * Z * string :=
  match s with
  | String c r =>
      if is_digit c
      then read_digits r (10 * acc + Z.of_N (N_of_ascii c) - 48)%Z (cnt + 1)%Z
      else (acc, cnt, s)
  | EmptyString => (acc, cnt, s)
  end.

Definition read_sign (s : string) : bool * string :=
  match s with
  | String c r =>
      if Ascii.eqb c "-" then (true, r)
      else if Ascii.eqb c "+" then (false, r)
      else (false, s)
  | EmptyString => (false, s)
  end.

(** The [ExponentPart] at the head of [s], or 0 when there is none or it is
    incomplete (the longest valid prefix then stops before it). *)
Definition read_exponent (s : string) : Z :=
  match s with
  | String c r =>
      if (Ascii.eqb c "e" || Ascii.eqb c "E")%bool
      then
        let (neg, r1) := read_sign r in
        let '(e, cnt, _) := read_digits r1 0%Z 0%Z in
        (if cnt =? 0 then 0 else if neg then - e else e)%Z
      else 0%Z
  | EmptyString => 0%Z
  end.

(** [parseFloat]: leading white space is skipped, the longest prefix that
    is a [StrDecimalLiteral] is converted, anything after it is ignored;
    NaN when there is no such prefix. *)
Definition parseFloat (s : string) : number :=
  let (neg, s1) := read_sign (skip_space s) in
  if String.prefix "Infinity" s1 then Inf neg
  else
    let '(i, ci, s2) := read_digits s1 0%Z 0%Z in
    let '(fr, cf, s3) :=
      match s2 with
      | String c r =>
          if Ascii.eqb c "." then read_digits r 0%Z 0%Z else (0%Z, 0%Z, s2)
      | EmptyString => (0%Z, 0%Z, s2)
      end in
    if ((ci =? 0) && (cf =? 0))%Z then NaN
    else
      let q :=
        (inject_Z (i * 10 ^ cf + fr)%Z * 10 ^ (read_exponent s3 - cf)%Z)%Q in
      round binary64 (if neg then - q else q).

(** A non-empty run of decimal digits. *)
Fixpoint all_digits (s : string) : bool :=
  match s with
  | String c EmptyString => is_digit c
  | String c r => is_digit c && all_digits r
  | EmptyString => false
  end.

(** A tail that cannot continue an integer literal: empty, or starting with
    something other than a digit, a point or an exponent indicator. *)
Definition stops (t : string) : bool :=
  match t with
  | String c _ =>
      negb (is_digit c || Ascii.eqb c "." || Ascii.eqb c "e" || Ascii.eqb c "E")
  | EmptyString => true
  end.

End Js.

(** ** TensorFlow.js: tensors, the engine's registry, a dense layer *)

Module Tf.
Import Num.

Inductive Error : Type := ValueError | TypeError | BackendError.

(** Outcome of a call that may throw. *)
Inductive res (A : Type) : Type :=
  | Ok (a : A)
  | Throw (err : Error).
Arguments Ok {A} a.
Arguments Throw {A} err.

(** A [float32] tensor: the id of its data buffer in the engine, its shape
    and its flat, row-major values. *)
Record Tensor : Type := { tid : nat; shape : list nat; vals : list number }.

(** The engine's registry of data buffers (what [tf.memory().numDataBuffers]
    counts): the ids of the buffers that are still allocated, and the next
    id to hand out.  Every tensor the component creates has a buffer of its
    own; the only buffers two handles share are those [setWeights] gives to
    the variables of a layer. *)
Record Engine : Type := { live : gset nat; next : nat }.

Definition engine0 : Engine := {| live := ∅; next := O |}.

Definition alloc (sh : list nat) (vs : list number) (e : Engine)
  : Tensor * Engine :=
  ({| tid := next e; shape := sh; vals := map (cast binary32) vs |},
   {| live := {[ next e ]} ∪ live e; next := S (next e) |}).

(** [t.dispose()]; disposing twice is harmless. *)
Definition dispose (t : Tensor) (e : Engine) : Engine :=
  {| live := live e ∖ {[ tid t ]}; next := next e |}.

Definition dispose_all (ts : list Tensor) (e : Engine) : Engine :=
  fold_left (fun e t => dispose t e) ts e.

Definition is_live (t : Tensor) (e : Engine) : bool :=
  bool_decide (tid t ∈ live e).

(** [tf.tensor2d(rows)] without a shape argument: the shape is inferred
    from the array and its first row, the rows are flattened as they are,
    and an empty array, whose inferred shape has one dimension, is
    refused. *)
Definition tensor2d (rows : list (list number)) (e : Engine)
  : res (Tensor * Engine) :=
  match rows with
  | [] => Throw ValueError
  | r :: _ => Ok (alloc [length rows; length r] (concat rows) e)
  end.

(** [tf.tensor1d(values)]. *)
Definition tensor1d (vs : list number) (e : Engine) : Tensor * Engine :=
  alloc [length vs] vs e.

(** A built dense layer with linear activation and a bias. *)
Record Dense : Type :=
  { units : nat; inputDim : nat; kernel : Tensor; bias : Tensor }.

(** [tf.layers.dense({units, inputShape: [inputDim]})] once the sequential
    model has built it: the kernel starts from the draw [init] of its
    random initializer, the bias from zeros. *)
Definition dense (u d : nat) (init : list number) (e : Engine)
  : Dense * Engine :=
  let (k, e1) := alloc [d; u] (firstn (d * u) (init ++ repeat (Fin 0) (d * u))) e in
  let (b, e2) := alloc [u] (repeat (Fin 0) u) e1 in
  ({| units := u; inputDim := d; kernel := k; bias := b |}, e2).

Fixpoint shape_eqb (a b : list nat) : bool :=
  match a, b with
  | [], [] => true
  | x :: a', y :: b' => Nat.eqb x y && shape_eqb a' b'
  | _, _ => false
  end.

(** [model.setWeights(ws)] on the layers of a sequential model: as many
    tensors as the model has weights, each of the shape of the weight it
    replaces.  The variables of the layer stay; the buffers of their
    replaced values are released and they share the buffers of the given
    tensors from then on, which is what the layer's [kernel] and [bias]
    record. *)
Fixpoint setWeights (ls : list Dense) (ws : list Tensor) (e : Engine)
  : res (list Dense * Engine) :=
  match ls, ws with
  | [], [] => Ok ([], e)
  | l :: ls', k :: b :: ws' =>
      if shape_eqb (shape k) (shape (kernel l))
         && shape_eqb (shape b) (shape (bias l))
      then
        match setWeights ls' ws' (dispose (bias l) (dispose (kernel l) e)) with
        | Ok (ls'', e') =>
            Ok ({| units := units l; inputDim := inputDim l;
                   kernel := k; bias := b |} :: ls'', e')
        | Throw err => Throw err
        end
      else Throw ValueError
  | _, _ => Throw ValueError
  end.

(** What a forward pass computes before the engine stores it: one tensor
    or, for a model with several outputs, an array of them. *)
Inductive Raw : Type :=
  | RawOne (sh : list nat) (vs : list number)
  | RawMany (outs : list (list nat * list number)).

(** A model is either built in process from dense layers or read from a
    file; of the latter only its weights and its input/output behaviour
    are known. *)
Inductive LayersModel : Type :=
  | Sequential (layers : list Dense)
  | Loaded (weights : list Tensor)
           (forward : list nat -> list number -> res Raw).

Definition model_weights (m : LayersModel) : list Tensor :=
  match m with
  | Sequential ls => flat_map (fun l => [kernel l; bias l]) ls
  | Loaded ws _ => ws
  end.

(** The value [predict] hands back: [Tensor | Tensor[]]. *)
Inductive Prediction : Type :=
  | One (t : Tensor)
  | Many (ts : list Tensor).

(** Arithmetic on tensor values: every elementary operation rounds its
    exact result to [float32], to nearest with ties to even. *)
Definition fadd32 := fadd binary32.
Definition fmul32 := fmul binary32.

(** Inner product accumulated from zero. *)
Definition dot (xs ws : list number) : number :=
  fold_left (fun acc p => fadd32 acc (fmul32 (fst p) (snd p)))
            (combine xs ws) (Fin 0).

(** Column [j] of a row-major [d] by [u] matrix. *)
Definition column (d u j : nat) (k : list number) : list number :=
  map (fun i => nth (i * u + j) k NaN) (seq 0 d).

(** Rows of a row-major matrix with [d] columns. *)
Fixpoint rows_of (n d : nat) (v : list number) : list (list number) :=
  match n with
  | O => []
  | S n' => firstn d v :: rows_of n' d (skipn d v)
  end.

(** Forward pass of one dense layer on a batch: [x . kernel + bias]. *)
Definition dense_apply (l : Dense) (sh : list nat) (x : list number)
  : res (list nat * list number) :=
  match sh with
  | [n; d] =>
      if Nat.eqb d (inputDim l)
      then
        Ok ([n; units l],
            flat_map
              (fun row =>
                 map (fun j =>
                        fadd32
                          (dot row (column (inputDim l) (units l) j
                                           (vals (kernel l))))
                          (nth j (vals (bias l)) NaN))
                     (seq 0 (units l)))
              (rows_of n d x))
      else Throw ValueError
  | _ => Throw ValueError
  end.

Fixpoint layers_apply (ls : list Dense) (sh : list nat) (x : list number)
  : res (list nat * list number) :=
  match ls with
  | [] => Ok (sh, x)
  | l :: ls' =>
      match dense_apply l sh x with
      | Ok (sh', x') => layers_apply ls' sh' x'
      | Throw err => Throw err
      end
  end.

Definition forward_of (m : LayersModel) (sh : list nat) (x : list number)
  : res Raw :=
  match m with
  | Sequential [] => Throw ValueError
  | Sequential ls =>
      match layers_apply ls sh x with
      | Ok (sh', x') => Ok (RawOne sh' x')
      | Throw err => Throw err
      end
  | Loaded _ f => f sh x
  end.

Fixpoint alloc_many (outs : list (list nat * list number)) (e : Engine)
  : list Tensor * Engine :=
  match outs with
  | [] => ([], e)
  | (sh, vs) :: outs' =>
      let (t, e1) := alloc sh vs e in
      let (ts, e2) := alloc_many outs' e1 in
      (t :: ts, e2)
  end.

(** [model.predict(x)].  [healthy] is false when the backend fails during
    this call.  A disposed input or a disposed weight makes it throw; the
    outputs are fresh tensors. *)
Definition predict (healthy : bool) (m : LayersModel) (x : Tensor) (e : Engine)
  : res (Prediction * Engine) :=
  if negb healthy then Throw BackendError
  else if negb (is_live x e && forallb (fun w => is_live w e) (model_weights m))
  then Throw ValueError
  else
    match forward_of m (shape x) (vals x) with
    | Ok (RawOne sh vs) => let (t, e') := alloc sh vs e in Ok (One t, e')
    | Ok (RawMany outs) =>
        let (ts, e') := alloc_many outs e in Ok (Many ts, e')
    | Throw err => Throw err
    end.

(** [await t.data()]: the values of a live tensor; rejects when the backend
    fails or the tensor was disposed. *)
Definition data (healthy : bool) (t : Tensor) (e : Engine) : res (list number) :=
  if negb healthy then Throw BackendError
  else if is_live t e then Ok (vals t)
  else Throw ValueError.

End Tf.

(** ** The component *)

Module Calc.
Import Num Js Tf.

Inductive Operacion : Type := suma | resta.

Definition Operacion_eqb (a b : Operacion) : bool :=
  match a, b with
  | suma, suma | resta, resta => true
  | _, _ => false
  end.

(** What [tf.loadLayersModel] resolves with: the weights of the stored
    model and the function it computes. *)
Record Artifact : Type :=
  { art_weights : list (list nat * list number);
    art_forward : list nat -> list number -> res Raw }.

(** What the surroundings decide during one run of [calcular]: whether the
    numeric backend fails in [predict] or in [data]. *)
Record Env : Type := { predict_ok : bool; data_ok : bool }.

Definition healthy : Env := {| predict_ok := true; data_ok := true |}.

(** The two locals of [calcular] that its [finally] inspects. *)
Record Locals : Type :=
  { inputTensor : option Tensor; prediccionTensor : option Prediction }.

(** A call of [calcular] suspended at its [await]: its two locals, and what
    the read it awaits will settle with, the text to show or the failure
    its [catch] will see. *)
Record Suspended : Type := { sus_locals : Locals; sus_text : res string }.

(** The seven [useState] cells, the engine of the TensorFlow.js runtime,
    the calls of [cambiarModelo] suspended at their [await], each with the
    operation its closure captured, and the calls of [calcular] suspended
    at theirs. *)
Record State : Type :=
  { modeloActual : option LayersModel;
    operacion : Operacion;
    valA : string;
    valB : string;
    resultado : option string;
    cargando : bool;
    origenModelo : string;
    engine : Engine;
    pending : list Operacion;
    awaiting : list Suspended }.

Definition inicial : State :=
  {| modeloActual := None; operacion := suma; valA := ""; valB := "";
     resultado := None; cargando := false; origenModelo := "";
     engine := engine0; pending := []; awaiting := [] |}.

(** What a handler does to the outside world. *)
Inductive Effect : Type :=
  | Alert (msg : string)
  | ConsoleLog
  | ConsoleWarn
  | ConsoleError
  | LoadRequested (path : string)
  | PredictCalled (x : list number)
  | Rejected.

(** [crearModeloEnMemoria]: one dense unit over two inputs whose weights
    are then set by hand to [[1], [w2]] and bias [0].  [init] is the draw
    of the layer's random initializer, which [setWeights] overwrites. *)
Definition crearModeloEnMemoria (init : list number) (op : Operacion)
    (e : Engine) : res LayersModel * Engine :=
  let (l, e1) := dense 1 2 init e in
  let w1 := Fin 1 in
  let w2 := match op with suma => Fin 1 | resta => Fin (-1) end in
  match tensor2d [[w1]; [w2]] e1 with
  | Throw err => (Throw err, e1)
  | Ok (k, e2) =>
      let (b, e3) := tensor1d [Fin 0] e2 in
      match setWeights [l] [k; b] e3 with
      | Ok (ls, e4) => (Ok (Sequential ls), e4)
      | Throw err => (Throw err, e3)
      end
  end.

Definition path_of (op : Operacion) : string :=
  match op with
  | suma => "/modelo_suma/model.json"
  | resta => "/modelo_resta/model.json"
  end.

(** [cambiarModelo] up to its [await tf.loadLayersModel(path)]. *)
Definition cambiarModelo_inicio (s : State) : State * list Effect :=
  ({| modeloActual := None; operacion := operacion s;
      valA := valA s; valB := valB s;
      resultado := None; cargando := true; origenModelo := "";
      engine := engine s; pending := pending s ++ [operacion s];
      awaiting := awaiting s |},
   [ConsoleLog; LoadRequested (path_of (operacion s))]).

(** [cambiarModelo] from the point where the load settles: [outcome] is the
    stored model, or [None] when the load failed; [op] is the operation the
    closure captured and [init] the draw handed to [crearModeloEnMemoria]. *)
Definition cambiarModelo_fin (init : list number) (op : Operacion)
    (outcome : option Artifact) (s : State) : State * list Effect :=
  match outcome with
  | Some a =>
      let (ws, e') := alloc_many (art_weights a) (engine s) in
      ({| modeloActual := Some (Loaded ws (art_forward a));
          operacion := operacion s; valA := valA s; valB := valB s;
          resultado := resultado s; cargando := false;
          origenModelo := "Archivo JSON";
          engine := e'; pending := pending s;
          awaiting := awaiting s |},
       [ConsoleLog])
  | None =>
      match crearModeloEnMemoria init op (engine s) with
      | (Ok m, e') =>
          ({| modeloActual := Some m;
              operacion := operacion s; valA := valA s; valB := valB s;
              resultado := resultado s; cargando := false;
              origenModelo := "Generado en Memoria (Demo)";
              engine := e'; pending := pending s;
              awaiting := awaiting s |},
           [ConsoleWarn])
      | (Throw _, e') =>
          ({| modeloActual := modeloActual s;
              operacion := operacion s; valA := valA s; valB := valB s;
              resultado := resultado s; cargando := false;
              origenModelo := origenModelo s;
              engine := e'; pending := pending s;
              awaiting := awaiting s |},
           [ConsoleWarn; Rejected])
      end
  end.

(** The text of the notice [calcular] raises for input that does not
    parse. *)
Definition notice : string := "Por favor ingresa números válidos".

(** The [try] block of [calcular]: the text to display or the exception,
    with the locals as they stand at that point. *)
Definition calcular_try (env : Env) (m : LayersModel) (nA nB : number)
    (e : Engine) : res string * Locals * Engine * list Effect :=
  match tensor2d [[nA; nB]] e with
  | Throw err =>
      (Throw err, {| inputTensor := None; prediccionTensor := None |}, e, [])
  | Ok (x, e1) =>
      match predict (predict_ok env) m x e1 with
      | Throw err =>
          (Throw err, {| inputTensor := Some x; prediccionTensor := None |},
           e1, [PredictCalled (vals x)])
      | Ok (p, e2) =>
          let loc := {| inputTensor := Some x; prediccionTensor := Some p |} in
          let first :=
            match p with
            | One t => Ok t
            | Many (t :: _) => Ok t
            | Many [] => Throw TypeError
            end in
          let shown :=
            match first with
            | Throw err => Throw err
            | Ok t =>
                match data (data_ok env) t e2 with
                | Throw err => Throw err
                | Ok (v :: _) => Ok (toFixed2 v)
                | Ok [] => Throw TypeError
                end
            end in
          (shown, loc, e2, [PredictCalled (vals x)])
      end
  end.

(** The [finally] block of [calcular]. *)
Definition calcular_finally (loc : Locals) (e : Engine) : Engine :=
  let e1 := match inputTensor loc with
            | Some t => dispose t e
            | None => e
            end in
  match prediccionTensor loc with
  | Some (Many ts) => dispose_all ts e1
  | Some (One t) => dispose t e1
  | None => e1
  end.

Definition with_result (s : State) (r : option string) (e : Engine) : State :=
  {| modeloActual := modeloActual s; operacion := operacion s;
     valA := valA s; valB := valB s;
     resultado := r; cargando := cargando s;
     origenModelo := origenModelo s;
     engine := e; pending := pending s; awaiting := awaiting s |}.

(** [calcular] run from the click to its end with nothing in between: the
    continuation of its [await] follows at once.  [calcular_inicio] and
    [calcular_fin] below are the two halves between which other events can
    fall. *)
Definition calcular (env : Env) (s : State) : State * list Effect :=
  match modeloActual s with
  | None => (s, [])
  | Some m =>
      if (String.eqb (valA s) "" || String.eqb (valB s) "")%bool then (s, [])
      else
        let nA := parseFloat (valA s) in
        let nB := parseFloat (valB s) in
        if (isNaN nA || isNaN nB)%bool
        then (s, [Alert notice])
        else
          match calcular_try env m nA nB (engine s) with
          | (Ok txt, loc, e, fx) =>
              (with_result s (Some txt) (calcular_finally loc e), fx)
          | (Throw _, loc, e, fx) =>
              (with_result s (Some "Error"%string) (calcular_finally loc e),
               fx ++ [ConsoleError])
          end
  end.

(** Whether the [try] block got as far as its [await]: it did when
    [predict] returned a tensor, or an array with a first element, whose
    [data()] is then awaited.  Anything thrown before that is caught in
    the same turn. *)
Definition reaches_await (loc : Locals) : bool :=
  match prediccionTensor loc with
  | Some (One _) | Some (Many (_ :: _)) => true
  | Some (Many []) | None => false
  end.

(** [calcular] up to its [await]: the guards, the input tensor and
    [predict].  A call that reaches the [await] is suspended with its
    locals; [env] fixes what the read it awaits will settle with.  A call
    that does not has thrown, and its [catch] and [finally] run in the
    same turn. *)
Definition calcular_inicio (env : Env) (s : State) : State * list Effect :=
  match modeloActual s with
  | None => (s, [])
  | Some m =>
      if (String.eqb (valA s) "" || String.eqb (valB s) "")%bool then (s, [])
      else
        let nA := parseFloat (valA s) in
        let nB := parseFloat (valB s) in
        if (isNaN nA || isNaN nB)%bool
        then (s, [Alert notice])
        else
          match calcular_try env m nA nB (engine s) with
          | (r, loc, e, fx) =>
              if reaches_await loc
              then
                ({| modeloActual := modeloActual s; operacion := operacion s;
                    valA := valA s; valB := valB s;
                    resultado := resultado s; cargando := cargando s;
                    origenModelo := origenModelo s;
                    engine := e; pending := pending s;
                    awaiting := awaiting s
                                ++ [{| sus_locals := loc; sus_text := r |}] |},
                 fx)
              else
                match r with
                | Ok txt =>
                    (with_result s (Some txt) (calcular_finally loc e), fx)
                | Throw _ =>
                    (with_result s (Some "Error"%string)
                                 (calcular_finally loc e),
                     fx ++ [ConsoleError])
                end
          end
  end.

Fixpoint remove_nth {A : Type} (i : nat) (l : list A) : list A :=
  match l, i with
  | [], _ => []
  | _ :: r, O => r
  | x :: r, S i' => x :: remove_nth i' r
  end.

(** [calcular] from the point where the awaited read settles, for the
    [i]-th suspended call: the result cell is written, whatever the
    component shows by then, and the [finally] block disposes the
    locals. *)
Definition calcular_fin (i : nat) (s : State) : State * list Effect :=
  match nth_error (awaiting s) i with
  | None => (s, [])
  | Some c =>
      let e := calcular_finally (sus_locals c) (engine s) in
      let rest := remove_nth i (awaiting s) in
      let put (r : string) :=
        {| modeloActual := modeloActual s; operacion := operacion s;
           valA := valA s; valB := valB s;
           resultado := Some r; cargando := cargando s;
           origenModelo := origenModelo s;
           engine := e; pending := pending s; awaiting := rest |} in
      match sus_text c with
      | Ok txt => (put txt, [])
      | Throw _ => (put "Error"%string, [ConsoleError])
      end
  end.

(** What can happen to the mounted component. *)
Inductive Event : Type :=
  | Montar
  | Seleccionar (op : Operacion)
  | CargaResuelta (i : nat) (init : list number) (outcome : option Artifact)
  | EscribirA (v : string)
  | EscribirB (v : string)
  | Pulsar (env : Env)
  | LecturaResuelta (i : nat).

Definition with_operacion (s : State) (op : Operacion) : State :=
  {| modeloActual := modeloActual s; operacion := op;
     valA := valA s; valB := valB s;
     resultado := resultado s; cargando := cargando s;
     origenModelo := origenModelo s;
     engine := engine s; pending := pending s; awaiting := awaiting s |}.

Definition with_vals (s : State) (a b : string) : State :=
  {| modeloActual := modeloActual s; operacion := operacion s;
     valA := a; valB := b;
     resultado := resultado s; cargando := cargando s;
     origenModelo := origenModelo s;
     engine := engine s; pending := pending s; awaiting := awaiting s |}.

Definition with_pending (s : State) (p : list Operacion) : State :=
  {| modeloActual := modeloActual s; operacion := operacion s;
     valA := valA s; valB := valB s;
     resultado := resultado s; cargando := cargando s;
     origenModelo := origenModelo s;
     engine := engine s; pending := p; awaiting := awaiting s |}.

(** The compute button is rendered with
    [disabled={!modeloActual || cargando}]. *)
Definition disabled (s : State) : bool :=
  match modeloActual s with
  | None => true
  | Some _ => cargando s
  end.

(** One event.  The effect on [operacion] runs [cambiarModelo] at mount and
    after every change of the selected operation; selecting the operation
    already selected changes nothing.  A click runs [calcular] up to its
    [await]; the rest of that call is an event of its own. *)
Definition step (s : State) (ev : Event) : State * list Effect :=
  match ev with
  | Montar => cambiarModelo_inicio s
  | Seleccionar op =>
      if Operacion_eqb op (operacion s) then (s, [])
      else cambiarModelo_inicio (with_operacion s op)
  | CargaResuelta i init outcome =>
      match nth_error (pending s) i with
      | Some op =>
          cambiarModelo_fin init op outcome
            (with_pending s (remove_nth i (pending s)))
      | None => (s, [])
      end
  | EscribirA v => (with_vals s v (valB s), [])
  | EscribirB v => (with_vals s (valA s) v, [])
  | Pulsar env => if disabled s then (s, []) else calcular_inicio env s
  | LecturaResuelta i => calcular_fin i s
  end.

Definition run (evs : list Event) : State :=
  fold_left (fun s ev => fst (step s ev)) evs inicial.

End Calc.

(** ** The lifecycle of the model *)

Module Lifecycle.
Import Num Js Tf Calc.

Inductive Provenance : Type := FromFile | InMemory.

Inductive Phase : Type :=
  | Idle
  | Loading
  | Ready (p : Provenance).

Definition provenance (s : State) : Provenance :=
  if String.eqb (origenModelo s) "Archivo JSON" then FromFile else InMemory.

(** The phase is read off the state the way the page renders it: the
    loading flag first, then the presence of a model. *)
Definition phase (s : State) : Phase :=
  if cargando s then Loading
  else match modeloActual s with
       | None => Idle
       | Some _ => Ready (provenance s)
       end.

(** The transitions of the specification's state machine; events that do
    not concern the model leave the phase where it is. *)
Inductive lifecycle : Phase -> Phase -> Prop :=
  | lc_stay p : lifecycle p p
  | lc_mount : lifecycle Idle Loading
  | lc_settle p : lifecycle Loading (Ready p)
  | lc_change p : lifecycle (Ready p) Loading.

Definition quiet (s : State) : bool :=
  match pending s with [] => true | _ => false end.

(** An event is in sequence when it does not start a resolution while
    another is in flight: the component mounts once, from its initial
    phase, and the operation changes only between resolutions. *)
Definition in_sequence (s : State) (ev : Event) : bool :=
  match ev with
  | Montar =>
      quiet s && match phase s with Idle => true | _ => false end
  | Seleccionar op => quiet s || Operacion_eqb op (operacion s)
  | _ => true
  end.

(** The states reached by events in sequence. *)
Inductive reach : State -> Prop :=
  | reach_inicial : reach inicial
  | reach_step s ev :
      reach s -> in_sequence s ev = true -> reach (fst (step s ev)).

(** At most one resolution is in flight, and while it is the slot is empty
    and the loading flag is on. *)
Definition one_in_flight (s : State) : Prop :=
  (pending s = [] /\ cargando s = false) \/
  (exists op, pending s = [op] /\ cargando s = true /\ modeloActual s = None).

End Lifecycle.

(** ** Predicates and named states used in the statements *)

Module Props.
Import Num Js Tf Calc.

(** Ids are handed out in increasing order, so a live id is below [next]. *)
Definition engine_wf (e : Engine) : Prop :=
  forall i : nat, i ∈ live e -> (i < next e)%nat.

Definition tids (ts : list Tensor) : gset nat :=
  list_to_set (map tid ts).

(** The weights of the model were handed out by this engine. *)
Definition model_in (m : LayersModel) (e : Engine) : Prop :=
  forall w, In w (model_weights m) -> (tid w < next e)%nat.

Definition state_wf (s : State) : Prop :=
  engine_wf (engine s) /\
  forall m, modeloActual s = Some m -> model_in m (engine s).

Definition weights_alive (m : LayersModel) (e : Engine) : bool :=
  forallb (fun w => is_live w e) (model_weights m).

(** The values of the tensor [calcular] reads from a prediction. *)
Definition first_vals (r : Raw) : res (list number) :=
  match r with
  | RawOne _ vs => Ok (map (cast binary32) vs)
  | RawMany ((_, vs) :: _) => Ok (map (cast binary32) vs)
  | RawMany [] => Throw TypeError
  end.

(** The text the [try] block of [calcular] produces, as a function of the
    model, the two parsed inputs and whether the model's weights are still
    allocated. *)
Definition shown (env : Env) (m : LayersModel) (nA nB : number)
    (alive : bool) : res string :=
  if negb (predict_ok env) then Throw BackendError
  else if negb alive then Throw ValueError
  else
    match forward_of m [1%nat; 2%nat] [cast binary32 nA; cast binary32 nB] with
    | Throw err => Throw err
    | Ok raw =>
        match first_vals raw with
        | Throw err => Throw err
        | Ok d =>
            if negb (data_ok env) then Throw BackendError
            else match d with
                 | v :: _ => Ok (toFixed2 v)
                 | [] => Throw TypeError
                 end
        end
    end.

Definition display (r : res string) : string :=
  match r with
  | Ok txt => txt
  | Throw _ => "Error"
  end.

Definition valid_inputs (s : State) : bool :=
  negb (String.eqb (valA s) "" || String.eqb (valB s) "")
  && negb (isNaN (parseFloat (valA s)) || isNaN (parseFloat (valB s))).

Definition w2_of (op : Operacion) : number :=
  match op with suma => Fin 1 | resta => Fin (-1) end.

(** The layer [crearModeloEnMemoria] ends up with. *)
Definition synthetic_layer (op : Operacion) (n : nat) : Dense :=
  {| units := 1; inputDim := 2;
     kernel := {| tid := S (S n); shape := [2%nat; 1%nat];
                  vals := [Fin 1; w2_of op] |};
     bias := {| tid := S (S (S n)); shape := [1%nat]; vals := [Fin 0] |} |}.

(** What the synthetic model computes on exact numbers. *)
Definition exact (op : Operacion) (a b : Q) : Q :=
  match op with suma => (a + b)%Q | resta => (a - b)%Q end.

(** A model is synthetic for [op] when [crearModeloEnMemoria] returned it. *)
Definition is_synthetic (op : Operacion) (m : LayersModel) : Prop :=
  exists init e e', crearModeloEnMemoria init op e = (Ok m, e').

Definition synthetic_suma : LayersModel :=
  Sequential [synthetic_layer suma 0].

(** A backend that fails during [predict]. *)
Definition failing : Env := {| predict_ok := false; data_ok := true |}.

(** The component after mounting and falling back to the in-memory model
    for addition, then with the two inputs typed in. *)
Definition ready_suma : State := run [Montar; CargaResuelta 0 [] None].

Definition ready_with (a b : string) : State := with_vals ready_suma a b.

(** The same after the operation is changed to subtraction and the
    in-memory model for it is in place. *)
Definition ready_resta : State :=
  run [Montar; CargaResuelta 0 [] None;
       Seleccionar resta; CargaResuelta 0 [] None].

Definition ready_resta_with (a b : string) : State := with_vals ready_resta a b.

(** The operation is changed while the resolution started at mount is
    still in flight; that first resolution then settles. *)
Definition overlapped : State :=
  run [Montar; Seleccionar resta; CargaResuelta 0 [] None;
       EscribirA "2"; EscribirB "3"].

(** The model [crearModeloEnMemoria] builds for subtraction, as it sits in
    [ready_resta]. *)
Definition synthetic_resta : LayersModel :=
  Sequential [synthetic_layer resta 4].

End Props.

(** ** Calls of [calcular] in flight *)

Module Flight.
Import Num Js Tf Calc Props.

(** The buffers the [finally] block of a call of [calcular] releases. *)
Definition locals_ids (loc : Locals) : gset nat :=
  match inputTensor loc with
  | Some t => {[ tid t ]}
  | None => ∅
  end
  ∪ match prediccionTensor loc with
    | Some (One t) => {[ tid t ]}
    | Some (Many ts) => tids ts
    | None => ∅
    end.

(** The buffers held by the calls of [calcular] that are suspended. *)
Definition awaited (s : State) : gset nat :=
  ⋃ (map (fun c => locals_ids (sus_locals c)) (awaiting s)).

(** The buffers of the suspended calls were handed out by the engine, and
    none of them is a weight of the model in the slot, whose weights are
    allocated. *)
Definition flight_wf (s : State) : Prop :=
  (forall i, i ∈ awaited s -> (i < next (engine s))%nat) /\
  (forall m, modeloActual s = Some m ->
             weights_alive m (engine s) = true /\
             (tids (model_weights m) ## awaited s)).

(** The suspended calls hold buffers that are allocated, and no two of
    them hold the same buffer. *)
Fixpoint apart (l : list Suspended) : Prop :=
  match l with
  | [] => True
  | c :: r =>
      locals_ids (sus_locals c)
      ## ⋃ (map (fun c => locals_ids (sus_locals c)) r)
      /\ apart r
  end.

Definition holding (s : State) : Prop :=
  awaited s ⊆ live (engine s) /\ apart (awaiting s).

End Flight.

(** ** What the synthetic model computes, and the rendered page *)

Module Float32.
Import Num Js Tf Calc Props.

(** Negation of a number: the sign bit flipped. *)
Definition fneg (x : number) : number :=
  match x with
  | NaN => NaN
  | Inf s => Inf (negb s)
  | Fin q => Fin (- q)
  end.

(** The numbers a [float32] tensor can hold: storing them changes nothing. *)
Definition is_f32 (x : number) : Prop := cast binary32 x = x.

(** The second input as the kernel of the synthetic model weighs it. *)
Definition signed (op : Operacion) (y : number) : number :=
  match op with suma => y | resta => fneg y end.

(** What the synthetic model for [op] returns on two parsed inputs. *)
Definition synthetic_output (op : Operacion) (nA nB : number) : number :=
  fadd32 (cast binary32 nA) (signed op (cast binary32 nB)).

End Float32.

Module SynthDefs.
Import Num Js Tf Calc Props Float32.

(** The state with the two inputs exchanged. *)
Definition swapped (s : State) : State := with_vals s (valB s) (valA s).

(** An integer as [toFixed(2)] prints it. *)
Definition integer_text (n : Z) : string :=
  ((if (n <? 0)%Z then "-" else "") ++ digits_of (Z.abs n) ++ ".00")%string.

Definition exact_Z (op : Operacion) (x y : Z) : Z :=
  match op with suma => x + y | resta => x - y end.

End SynthDefs.

Module PrefixDefs.
Import Num Js.

Definition starts_with_digit (s : string) : bool :=
  match s with
  | String c _ => is_digit c
  | EmptyString => false
  end.

(** After leading white space and an optional sign, the string goes on
    with [Infinity], with a digit, or with a point and a digit. *)
Definition has_numeric_prefix (s : string) : bool :=
  let (_, s1) := read_sign (skip_space s) in
  String.prefix "Infinity" s1
  || starts_with_digit s1
  || match s1 with
     | String c r => Ascii.eqb c "." && starts_with_digit r
     | EmptyString => false
     end.

End PrefixDefs.

Module Page.
Import Num Js Tf Calc Lifecycle Props Float32.
Local Open Scope string_scope.

(** [String.prototype.includes]. *)
Fixpoint includes (needle s : string) : bool :=
  String.prefix needle s
  || match s with
     | String _ r => includes needle r
     | EmptyString => false
     end.

(** The parts of the rendered page that depend on the state. *)
Record View : Type :=
  { badge_class : string;
    badge_text : string;
    suma_class : string;
    resta_class : string;
    input_a : string;
    input_b : string;
    button_disabled : bool;
    button_class : string;
    button_label : string;
    panel : option (string * bool) }.

(** The JSX of the component.  [panel] is the result panel: the text shown
    and whether the note about the synthetic model is under it. *)
Definition render (s : State) : View :=
  {| badge_class :=
       if cargando s then "bg-yellow-100 text-yellow-800"
       else if includes "Memoria" (origenModelo s)
            then "bg-purple-100 text-purple-800"
            else "bg-green-100 text-green-800";
     badge_text :=
       if cargando s then "Cargando..."
       else if String.eqb (origenModelo s) "" then "Listo"
            else origenModelo s;
     suma_class :=
       match operacion s with
       | suma => "bg-blue-600 text-white shadow-md"
       | resta => "bg-gray-100 text-gray-600 hover:bg-gray-200"
       end;
     resta_class :=
       match operacion s with
       | resta => "bg-red-500 text-white shadow-md"
       | suma => "bg-gray-100 text-gray-600 hover:bg-gray-200"
       end;
     input_a := valA s;
     input_b := valB s;
     button_disabled := disabled s;
     button_class :=
       match modeloActual s with
       | Some _ => "bg-gray-900 hover:bg-gray-800 shadow-md hover:shadow-lg"
       | None => "bg-gray-400 cursor-not-allowed"
       end;
     button_label :=
       if cargando s then "Cargando modelo..." else "Calcular con IA";
     panel :=
       match resultado s with
       | Some txt => Some (txt, includes "Memoria" (origenModelo s))
       | None => None
       end |}.

(** What [setOrigenModelo] records for a model. *)
Definition origin_of (m : LayersModel) : string :=
  match m with
  | Loaded _ _ => "Archivo JSON"
  | Sequential _ => "Generado en Memoria (Demo)"
  end.

Definition is_sequential (m : LayersModel) : bool :=
  match m with Sequential _ => true | Loaded _ _ => false end.

(** How the cells of the state hang together: without a model no origin
    is recorded; with one, loading is over and the recorded origin is that
    of the model; and loading means that a resolution is in flight. *)
Definition coherent (s : State) : Prop :=
  match modeloActual s with
  | None => origenModelo s = ""
  | Some m => cargando s = false /\ origenModelo s = origin_of m
  end /\
  (cargando s = true -> pending s <> []).

(** An event is undisturbed when it does not fall between a click and the
    continuation of the call of [calcular] the click started. *)
Definition undisturbed (s : State) (ev : Event) : bool :=
  match ev with
  | LecturaResuelta _ => true
  | _ => match awaiting s with [] => true | _ :: _ => false end
  end.

(** The states reached by undisturbed events. *)
Inductive calm : State -> Prop :=
  | calm_inicial : calm inicial
  | calm_step s ev :
      calm s -> undisturbed s ev = true -> calm (fst (step s ev)).

(** Without a model nothing is shown and no call of [calcular] is
    suspended. *)
Definition tidy (s : State) : Prop :=
  modeloActual s = None -> resultado s = None /\ awaiting s = [].

(** Without overlap, what is in flight and what is in the slot are for the
    selected operation. *)
Definition matched (s : State) : Prop :=
  (forall op, In op (pending s) -> op = operacion s) /\
  (forall ls, modeloActual s = Some (Sequential ls) ->
              is_synthetic (operacion s) (Sequential ls)).

End Page.

(** * Properties *)

(** ** Rounding *)

Module NumFacts.
Import Num.
Local Open Scope Q_scope.

Lemma pow2_pos k : 0 < pow2 k.
Proof. apply Qpower_0_lt. reflexivity. Qed.

Lemma pow2_add a b : pow2 (a + b) == pow2 a * pow2 b.
Proof. apply Qpower_plus. discriminate. Qed.

Lemma pow2_Z k : (0 <= k)%Z -> pow2 k == inject_Z (2 ^ k).
Proof. intros H. unfold pow2. now rewrite (Zpower_Qpower 2 k H). Qed.

Lemma pow2_le a b : (a <= b)%Z -> pow2 a <= pow2 b.
Proof. intros H. apply Qpower_le_compat_l; [exact H | discriminate]. Qed.

Lemma pow2_lt a b : (a < b)%Z -> pow2 a < pow2 b.
Proof. intros H. apply Qpower_lt_compat_l; [exact H | reflexivity]. Qed.

Lemma pow2_lt_inv a b : pow2 a < pow2 b -> (a < b)%Z.
Proof. intros H. apply (Qpower_lt_compat_l_inv 2); [exact H | reflexivity]. Qed.

Lemma pow2_succ a : pow2 (a + 1) == 2 * pow2 a.
Proof. rewrite pow2_add. change (pow2 1) with 2. ring. Qed.

Lemma pow2_cancel a : pow2 a * pow2 (- a) == 1.
Proof. rewrite <- pow2_add. now replace (a + - a)%Z with 0%Z by lia. Qed.

(** Bracketing of a positive rational by powers of two. *)
Lemma ilog2_spec q : 0 < q -> pow2 (ilog2 q) <= q /\ q < pow2 (ilog2 q + 1).
Proof.
  intros Hq. unfold ilog2.
  destruct q as [n d]. cbn [Qnum Qden].
  assert (Hn : (0 < n)%Z).
  { unfold Qlt in Hq. cbn in Hq. lia. }
  set (a := Z.log2 n). set (b := Z.log2 (Z.pos d)).
  assert (Ha : (2 ^ a <= n < 2 ^ (a + 1))%Z).
  { pose proof (Z.log2_spec n Hn). unfold a. now rewrite <- Z.add_1_r in H. }
  assert (Hb : (2 ^ b <= Z.pos d < 2 ^ (b + 1))%Z).
  { pose proof (Z.log2_spec (Z.pos d) eq_refl). unfold b. now rewrite <- Z.add_1_r in H. }
  assert (Ha0 : (0 <= a)%Z) by apply Z.log2_nonneg.
  assert (Hb0 : (0 <= b)%Z) by apply Z.log2_nonneg.
  assert (Hnd : n # d == inject_Z n / inject_Z (Z.pos d)) by apply Qmake_Qdiv.
  assert (Hdpos : 0 < inject_Z (Z.pos d)) by reflexivity.
  (* bounds on n/d *)
  assert (Hlow : pow2 (a - b - 1) < n # d).
  { rewrite Hnd. apply Qlt_shift_div_l; [exact Hdpos |].
    apply Qlt_le_trans with (pow2 (a - b - 1) * pow2 (b + 1)).
    - apply Qmult_lt_l; [apply pow2_pos |].
      rewrite (pow2_Z (b + 1)) by lia. rewrite <- Zlt_Qlt. lia.
    - rewrite <- pow2_add. replace (a - b - 1 + (b + 1))%Z with a by lia.
      rewrite pow2_Z by lia. rewrite <- Zle_Qle. lia. }
  assert (Hhigh : n # d < pow2 (a - b + 1)).
  { rewrite Hnd. apply Qlt_shift_div_r; [exact Hdpos |].
    apply Qlt_le_trans with (pow2 (a + 1)).
    - rewrite pow2_Z by lia. rewrite <- Zlt_Qlt. lia.
    - replace (a + 1)%Z with (a - b + 1 + b)%Z by lia. rewrite pow2_add.
      apply Qmult_le_l; [apply pow2_pos |].
      rewrite pow2_Z by lia. rewrite <- Zle_Qle. lia. }
  destruct (Qle_bool (pow2 (a - b)) (n # d)) eqn:Hc.
  - apply Qle_bool_iff in Hc. split; assumption.
  - assert (Hlt : n # d < pow2 (a - b)).
    { apply Qnot_le_lt. intros H. apply Qle_bool_iff in H. congruence. }
    split; [apply Qlt_le_weak; exact Hlow |].
    now replace (a - b - 1 + 1)%Z with (a - b)%Z by lia.
Qed.

Lemma ilog2_unique q e : pow2 e <= q -> q < pow2 (e + 1) -> ilog2 q = e.
Proof.
  intros H1 H2.
  assert (Hq : 0 < q) by (eapply Qlt_le_trans; [apply (pow2_pos e) | exact H1]).
  destruct (ilog2_spec q Hq) as [H3 H4].
  assert (ilog2 q < e + 1)%Z.
  { apply pow2_lt_inv. eapply Qle_lt_trans; eauto. }
  assert (e < ilog2 q + 1)%Z.
  { apply pow2_lt_inv. eapply Qle_lt_trans; eauto. }
  lia.
Qed.

Lemma inject_Z_succ n : inject_Z (n + 1) == inject_Z n + 1.
Proof. now rewrite inject_Z_plus. Qed.

(** Rounding to the nearest integer is off by at most one half. *)
Lemma rne_error q : Qabs (inject_Z (rne q) - q) <= 1 # 2.
Proof.
  unfold rne. pose proof (Qfloor_le q) as Hlo. pose proof (Qlt_floor q) as Hhi.
  rewrite inject_Z_succ in Hhi.
  apply Qabs_Qle_condition.
  destruct (Qcompare_spec (q - inject_Z (Qfloor q)) (1 # 2)) as [He | Hl | Hg].
  - destruct (Z.even (Qfloor q)); rewrite ?inject_Z_succ; lra.
  - lra.
  - rewrite inject_Z_succ. lra.
Qed.

Lemma rne_proper q q' : q == q' -> rne q = rne q'.
Proof.
  intros H. unfold rne.
  assert (Hf : Qfloor q = Qfloor q') by (now apply Qfloor_comp).
  rewrite Hf.
  assert (Hc : (q - inject_Z (Qfloor q') ?= 1 # 2)
               = (q' - inject_Z (Qfloor q') ?= 1 # 2)).
  { apply Qcompare_comp; [| reflexivity]. now rewrite H. }
  now rewrite Hc.
Qed.

Lemma rne_Z q n : q == inject_Z n -> rne q = n.
Proof.
  intros H. rewrite (rne_proper _ _ H). unfold rne. rewrite Qfloor_Z.
  assert (Hc : (inject_Z n - inject_Z n ?= 1 # 2) = Lt).
  { apply Qlt_alt. setoid_replace (inject_Z n - inject_Z n) with 0 using relation Qeq by ring.
    reflexivity. }
  now rewrite Hc.
Qed.

Lemma Qabs_inject_Z n : Qabs (inject_Z n) == inject_Z (Z.abs n).
Proof. destruct n; reflexivity. Qed.

Lemma rne_abs_le q N : Qabs q <= inject_Z N -> (Z.abs (rne q) <= N)%Z.
Proof.
  intros H. pose proof (rne_error q) as He.
  assert (Hr : Qabs (inject_Z (rne q)) <= inject_Z N + (1 # 2)).
  { apply Qabs_Qle_condition in He. apply Qabs_Qle_condition in H.
    apply Qabs_Qle_condition. lra. }
  rewrite Qabs_inject_Z in Hr.
  assert (Hlt : inject_Z (Z.abs (rne q)) < inject_Z (N + 1)).
  { rewrite inject_Z_succ. lra. }
  rewrite <- Zlt_Qlt in Hlt. lia.
Qed.

Lemma bool_agree (a b : bool) : (a = true <-> b = true) -> a = b.
Proof.
  destruct a, b; intros [H1 H2]; try reflexivity.
  - symmetry. now apply H1.
  - now apply H2.
Qed.

Lemma Qeq_bool_proper q q' r : q == q' -> Qeq_bool q r = Qeq_bool q' r.
Proof.
  intros H. apply bool_agree. rewrite !Qeq_bool_iff. now rewrite H.
Qed.

Lemma Qle_bool_proper a a' b b' :
  a == a' -> b == b' -> Qle_bool a b = Qle_bool a' b'.
Proof.
  intros Ha Hb. apply bool_agree. rewrite !Qle_bool_iff. now rewrite Ha, Hb.
Qed.

Lemma Qabs_pos_iff q : ~ q == 0 -> 0 < Qabs q.
Proof.
  intros H. destruct (Qlt_le_dec 0 (Qabs q)) as [Hp | Hn]; [exact Hp |].
  exfalso. apply H. pose proof (Qabs_nonneg q).
  apply Qabs_Qle_condition in Hn. lra.
Qed.

Lemma ilog2_proper q q' : 0 < q -> q == q' -> ilog2 q = ilog2 q'.
Proof.
  intros Hq H. symmetry. destruct (ilog2_spec q Hq) as [H1 H2].
  apply ilog2_unique; now rewrite <- H.
Qed.

Section Rounding.

Variable f : format.
Hypothesis Hprec : (1 < prec f)%Z.
Hypothesis Hemax : (2 <= emax f)%Z.

Lemma fexp_proper q q' : ~ q == 0 -> q == q' -> fexp f q = fexp f q'.
Proof.
  intros Hq H. unfold fexp.
  rewrite (ilog2_proper (Qabs q) (Qabs q')); [reflexivity | |].
  - now apply Qabs_pos_iff.
  - now rewrite H.
Qed.

(** Rounding depends on the value of the rational, not on the fraction
    that denotes it. *)
Lemma round_proper q q' : q == q' -> round f q = round f q'.
Proof.
  intros H. unfold round. rewrite (Qeq_bool_proper q q' 0 H).
  destruct (Qeq_bool q' 0) eqn:Hz; [reflexivity |].
  assert (Hq : ~ q == 0).
  { intros H0. rewrite H in H0. apply Qeq_bool_iff in H0. congruence. }
  rewrite (fexp_proper q q' Hq H).
  rewrite (rne_proper (q * pow2 (- fexp f q')) (q' * pow2 (- fexp f q')))
    by (now rewrite H).
  now rewrite (Qle_bool_proper 0 0 q q' (Qeq_refl 0) H).
Qed.

(** What [round] computes away from zero. *)
Lemma round_nonzero q :
  ~ q == 0 ->
  round f q =
  let x := inject_Z (rne (q * pow2 (- fexp f q))) * pow2 (fexp f q) in
  if Qle_bool (pow2 (emax f)) (Qabs x)
  then Inf (negb (Qle_bool 0 q)) else Fin (Qred x).
Proof.
  intros H. unfold round.
  destruct (Qeq_bool q 0) eqn:Hz; [| reflexivity].
  apply Qeq_bool_iff in Hz. contradiction.
Qed.

Lemma round_zero q : q == 0 -> round f q = Fin 0.
Proof.
  intros H. unfold round. apply Qeq_bool_iff in H. now rewrite H.
Qed.

(** The rounded value is within half a unit in the last place. *)
Lemma round_ulp q :
  Qabs (inject_Z (rne (q * pow2 (- fexp f q))) * pow2 (fexp f q) - q)
  <= pow2 (fexp f q - 1).
Proof.
  set (e := fexp f q). set (n := rne (q * pow2 (- e))).
  assert (Heq : inject_Z n * pow2 e - q
                == (inject_Z n - q * pow2 (- e)) * pow2 e).
  { pose proof (pow2_cancel e) as Hc.
    setoid_replace ((inject_Z n - q * pow2 (- e)) * pow2 e)
      with (inject_Z n * pow2 e - q * (pow2 e * pow2 (- e)))
      using relation Qeq by ring.
    rewrite Hc. ring. }
  rewrite Heq, Qabs_Qmult.
  rewrite (Qabs_pos (pow2 e)) by (apply Qlt_le_weak, pow2_pos).
  replace (e - 1)%Z with (e + - (1))%Z by lia. rewrite pow2_add.
  change (pow2 (- (1))) with (1 # 2).
  setoid_replace (pow2 e * (1 # 2)) with ((1 # 2) * pow2 e)
    using relation Qeq by ring.
  apply Qmult_le_compat_r; [apply rne_error | apply Qlt_le_weak, pow2_pos].
Qed.

Lemma round_error q x :
  round f q = Fin x ->
  Qabs (x - q) <= Qabs q * pow2 (- prec f) + pow2 (emin f - 1).
Proof.
  intros H.
  assert (Hnn : 0 <= Qabs q * pow2 (- prec f) + pow2 (emin f - 1)).
  { pose proof (Qabs_nonneg q). pose proof (pow2_pos (- prec f)).
    pose proof (pow2_pos (emin f - 1)). nra. }
  destruct (Qeq_dec q 0) as [Hz | Hnz].
  - rewrite (round_zero q Hz) in H. injection H as <-.
    setoid_replace (0 - q) with 0 using relation Qeq by (rewrite Hz; ring).
    exact Hnn.
  - rewrite (round_nonzero q Hnz) in H. cbn zeta in H.
    destruct (Qle_bool _ _); [discriminate |]. injection H as <-.
    rewrite Qred_correct.
    eapply Qle_trans; [apply round_ulp |].
    unfold fexp.
    destruct (Z.max_spec (ilog2 (Qabs q) + 1 - prec f) (emin f))
      as [[_ ->] | [_ ->]].
    + pose proof (Qabs_nonneg q). pose proof (pow2_pos (- prec f)).
      pose proof (pow2_pos (emin f - 1)). nra.
    + replace (ilog2 (Qabs q) + 1 - prec f - 1)%Z
        with (ilog2 (Qabs q) + - prec f)%Z by lia.
      rewrite pow2_add.
      destruct (ilog2_spec (Qabs q) (Qabs_pos_iff q Hnz)) as [Hlo _].
      pose proof (pow2_pos (- prec f)). pose proof (pow2_pos (emin f - 1)).
      nra.
Qed.

Lemma scaled_bound q :
  ~ q == 0 -> Qabs (q * pow2 (- fexp f q)) <= inject_Z (2 ^ prec f).
Proof.
  intros Hq. rewrite Qabs_Qmult.
  rewrite (Qabs_pos (pow2 _)) by (apply Qlt_le_weak, pow2_pos).
  destruct (ilog2_spec (Qabs q) (Qabs_pos_iff q Hq)) as [_ Hhi].
  set (L := ilog2 (Qabs q)) in *.
  assert (He : (L + 1 - prec f <= fexp f q)%Z) by (unfold fexp; fold L; lia).
  assert (Hp : pow2 (- fexp f q) <= pow2 (prec f - (L + 1))).
  { apply pow2_le. lia. }
  rewrite <- pow2_Z by lia.
  setoid_replace (pow2 (prec f)) with (pow2 (L + 1) * pow2 (prec f - (L + 1)))
    using relation Qeq.
  2:{ rewrite <- pow2_add. now replace (L + 1 + (prec f - (L + 1)))%Z
        with (prec f) by lia. }
  pose proof (Qabs_nonneg q). pose proof (pow2_pos (- fexp f q)).
  pose proof (pow2_pos (L + 1)). nra.
Qed.

Lemma round_representable q x : round f q = Fin x -> representable f x.
Proof.
  intros H. destruct (Qeq_dec q 0) as [Hz | Hnz].
  - rewrite (round_zero q Hz) in H. injection H as <-.
    exists 0%Z, (emin f). split; [ring |]. split; [|split; [lia |]].
    + cbn. apply Z.pow_nonneg. lia.
    + apply pow2_pos.
  - rewrite (round_nonzero q Hnz) in H. cbn zeta in H.
    destruct (Qle_bool _ _) eqn:Ho; [discriminate |]. injection H as <-.
    exists (rne (q * pow2 (- fexp f q))), (fexp f q).
    split; [apply Qred_correct |]. split; [| split].
    + apply rne_abs_le, scaled_bound, Hnz.
    + unfold fexp. lia.
    + rewrite Qred_correct. apply Qnot_le_lt. intros Hle.
      apply Qle_bool_iff in Hle. congruence.
Qed.

Lemma representable_scaled x :
  representable f x -> ~ x == 0 ->
  exists k, x * pow2 (- fexp f x) == inject_Z k.
Proof.
  intros (n & e & Hx & Hn & He & _) Hnz.
  destruct (ilog2_spec (Qabs x) (Qabs_pos_iff x Hnz)) as [Hlo _].
  set (L := ilog2 (Qabs x)) in *.
  assert (Habs : Qabs x == inject_Z (Z.abs n) * pow2 e).
  { rewrite Hx, Qabs_Qmult, Qabs_inject_Z.
    now rewrite (Qabs_pos (pow2 e)) by (apply Qlt_le_weak, pow2_pos). }
  assert (Hle : Qabs x <= pow2 (prec f + e)).
  { rewrite Habs, pow2_add, (pow2_Z (prec f)) by lia.
    apply Qmult_le_compat_r; [| apply Qlt_le_weak, pow2_pos].
    now rewrite <- Zle_Qle. }
  assert (HL : (L <= prec f + e)%Z).
  { destruct (Z_le_gt_dec L (prec f + e)) as [Hok | Hgt]; [exact Hok |].
    exfalso. assert (pow2 (prec f + e) < pow2 L) by (apply pow2_lt; lia). lra. }
  assert (Hfe : (fexp f x <= e + 1)%Z) by (unfold fexp; fold L; lia).
  assert (Hfd : fexp f x = Z.max (L + 1 - prec f) (emin f)) by reflexivity.
  set (e' := fexp f x) in *.
  destruct (Z_le_gt_dec e' e) as [Hsmall | Hbig].
  - exists (n * 2 ^ (e - e'))%Z.
    rewrite inject_Z_mult, <- pow2_Z by lia.
    rewrite Hx. setoid_replace (inject_Z n * pow2 e * pow2 (- e'))
      with (inject_Z n * (pow2 e * pow2 (- e'))) using relation Qeq by ring.
    rewrite <- pow2_add. now replace (e + - e')%Z with (e - e')%Z by lia.
  - assert (Hfx : e' = (e + 1)%Z) by lia.
    assert (HLe : L = (prec f + e)%Z) by lia.
    assert (Hn2 : (2 ^ prec f <= Z.abs n)%Z).
    { rewrite HLe, Habs, pow2_add, (pow2_Z (prec f)) in Hlo by lia.
      apply Qmult_le_r in Hlo; [| apply pow2_pos]. now rewrite <- Zle_Qle in Hlo. }
    assert (Hpow : (2 ^ prec f = 2 * 2 ^ (prec f - 1))%Z).
    { rewrite <- Z.pow_succ_r by lia. f_equal. lia. }
    exists (Z.sgn n * 2 ^ (prec f - 1))%Z.
    assert (Hn' : n = (2 * (Z.sgn n * 2 ^ (prec f - 1)))%Z) by lia.
    rewrite Hfx, Hx. rewrite Hn' at 1. rewrite inject_Z_mult.
    replace (- (e + 1))%Z with (- e + - (1))%Z by lia.
    rewrite pow2_add. change (pow2 (- (1))) with (1 # 2).
    pose proof (pow2_cancel e) as Hc.
    setoid_replace (inject_Z 2 * inject_Z (Z.sgn n * 2 ^ (prec f - 1)) * pow2 e
                    * (pow2 (- e) * (1 # 2)))
      with (inject_Z (Z.sgn n * 2 ^ (prec f - 1)) * (pow2 e * pow2 (- e)))
      using relation Qeq by (change (inject_Z 2) with 2; ring).
    rewrite Hc. ring.
Qed.

(** A value of the format rounds to itself. *)
Lemma round_fixed x : representable f x -> round f x = Fin (Qred x).
Proof.
  intros Hr. destruct (Qeq_dec x 0) as [Hz | Hnz].
  - rewrite (round_zero x Hz). now rewrite (Qred_complete x 0 Hz).
  - destruct (representable_scaled x Hr Hnz) as [k Hk].
    rewrite (round_nonzero x Hnz). cbn zeta. rewrite (rne_Z _ _ Hk).
    assert (Hx : inject_Z k * pow2 (fexp f x) == x).
    { rewrite <- Hk. pose proof (pow2_cancel (fexp f x)) as Hc.
      setoid_replace (x * pow2 (- fexp f x) * pow2 (fexp f x))
        with (x * (pow2 (fexp f x) * pow2 (- fexp f x)))
        using relation Qeq by ring.
      rewrite Hc. ring. }
    destruct Hr as (_ & _ & _ & _ & _ & Hlt).
    assert (Ho : Qle_bool (pow2 (emax f)) (Qabs (inject_Z k * pow2 (fexp f x)))
                 = false).
    { destruct (Qle_bool _ _) eqn:Ho; [| reflexivity].
      apply Qle_bool_iff in Ho. rewrite Hx in Ho. lra. }
    rewrite Ho. now rewrite (Qred_complete _ _ Hx).
Qed.

Lemma round_idem q x : round f q = Fin x -> round f x = Fin x.
Proof.
  intros H. pose proof (round_representable q x H) as Hr.
  rewrite (round_fixed x Hr). f_equal.
  destruct (Qeq_dec q 0) as [Hz | Hnz].
  - rewrite (round_zero q Hz) in H. now injection H as <-.
  - rewrite (round_nonzero q Hnz) in H. cbn zeta in H.
    destruct (Qle_bool _ _); [discriminate |]. injection H as <-.
    apply Qred_complete, Qred_correct.
Qed.

Lemma representable_opp x : representable f x -> representable f (- x).
Proof.
  intros (n & e & Hx & Hn & He & Hlt). exists (- n)%Z, e.
  split; [| split; [lia | split; [exact He |]]].
  - rewrite Hx, inject_Z_opp. ring.
  - now rewrite Qabs_opp.
Qed.

(** No overflow below one and a half times the largest power of two. *)
Lemma round_finite q :
  Qabs q <= (3 # 2) * pow2 (emax f - 1) -> exists x, round f q = Fin x.
Proof.
  intros Hq. destruct (Qeq_dec q 0) as [Hz | Hnz].
  - exists 0. now apply round_zero.
  - rewrite (round_nonzero q Hnz). cbn zeta.
    destruct (Qle_bool _ _) eqn:Ho; [| eexists; reflexivity].
    exfalso. apply Qle_bool_iff in Ho.
    pose proof (round_ulp q) as Hu.
    set (x := inject_Z (rne (q * pow2 (- fexp f q))) * pow2 (fexp f q)) in *.
    destruct (ilog2_spec (Qabs q) (Qabs_pos_iff q Hnz)) as [Hlo _].
    set (L := ilog2 (Qabs q)) in *.
    pose proof (pow2_succ (emax f - 1)) as Hs.
    replace (emax f - 1 + 1)%Z with (emax f) in Hs by lia.
    assert (HL : (L <= emax f - 1)%Z).
    { destruct (Z_le_gt_dec L (emax f - 1)) as [Hok | Hgt]; [exact Hok |].
      exfalso. assert (pow2 (emax f) <= pow2 L) by (apply pow2_le; lia).
      pose proof (pow2_pos (emax f - 1)). lra. }
    assert (Hfe : (fexp f q - 1 <= emax f - 1 + - (2))%Z).
    { unfold fexp, emin. fold L. lia. }
    apply pow2_le in Hfe. rewrite pow2_add in Hfe.
    change (pow2 (- (2))) with (1 # 4) in Hfe.
    assert (Hx : Qabs x <= Qabs q + Qabs (x - q)).
    { setoid_replace x with (q + (x - q)) using relation Qeq at 1 by ring.
      apply Qabs_triangle. }
    pose proof (pow2_pos (emax f - 1)). lra.
Qed.

End Rounding.

End NumFacts.

(** ** Formatting *)

Module JsFacts.
Import Num Js.
Local Open Scope Z_scope.

Lemma digit_char d :
  0 <= d <= 9 ->
  exists c, digits_of d = String c "" /\ is_digit c = true.
Proof.
  intros H.
  assert (Hd : d = 0 \/ d = 1 \/ d = 2 \/ d = 3 \/ d = 4 \/ d = 5 \/ d = 6
               \/ d = 7 \/ d = 8 \/ d = 9) by lia.
  repeat (destruct Hd as [-> | Hd]); try subst d;
    (eexists; split; [vm_compute; reflexivity | reflexivity]).
Qed.

Lemma fixed2_shape a : (0 <= a)%Q -> two_decimals (fixed2 a).
Proof.
  intros Ha. unfold fixed2.
  set (n := Qfloor (a * 100 + (1 # 2))).
  assert (Hn : 0 <= n).
  { unfold n. change 0 with (Qfloor 0). apply Qfloor_resp_le. lra. }
  destruct (digit_char (n mod 100 / 10)) as (c1 & -> & H1).
  { pose proof (Z.mod_pos_bound n 100 eq_refl).
    assert (n mod 100 / 10 < 10) by (apply Z.div_lt_upper_bound; lia).
    assert (0 <= n mod 100 / 10) by (apply Z.div_pos; lia). lia. }
  destruct (digit_char (n mod 10)) as (c2 & -> & H2).
  { pose proof (Z.mod_pos_bound n 10 eq_refl). lia. }
  exists (digits_of (n / 100)), c1, c2. repeat split; assumption.
Qed.

Lemma append_assoc (a b c : string) :
  (a ++ (b ++ c) = (a ++ b) ++ c)%string.
Proof.
  induction a as [| x a IH]; [reflexivity |].
  change (String x (a ++ (b ++ c)) = String x ((a ++ b) ++ c))%string.
  now f_equal.
Qed.

(** Below [10^21], [toFixed(2)] prints two decimal places. *)
Lemma toFixed2_shape v :
  (Qabs v < inject_Z (10 ^ 21))%Q -> two_decimals (toFixed2 (Fin v)).
Proof.
  intros Hv. unfold toFixed2.
  assert (Hb : Qle_bool (inject_Z (10 ^ 21)) (Qabs v) = false).
  { destruct (Qle_bool _ _) eqn:Hb; [| reflexivity].
    apply Qle_bool_iff in Hb. lra. }
  rewrite Hb.
  destruct (fixed2_shape (Qabs v) (Qabs_nonneg v)) as (pre & c1 & c2 & -> & H1 & H2).
  exists ((if Qle_bool 0 v then "" else "-") ++ pre)%string, c1, c2.
  split; [apply append_assoc | split; assumption].
Qed.

End JsFacts.

(** ** Parsing *)

Module ParseFacts.
Import Num Js.
Local Open Scope string_scope.

Lemma append_cons c (a b : string) : String c a ++ b = String c (a ++ b).
Proof. reflexivity. Qed.

Lemma digit_not_special c :
  is_digit c = true ->
  is_space c = false /\ Ascii.eqb c "-" = false /\ Ascii.eqb c "+" = false /\
  Ascii.eqb c "I" = false.
Proof.
  intros H.
  destruct c as [[] [] [] [] [] [] [] []]; try discriminate H;
    repeat split; reflexivity.
Qed.

(** Reading digits stops where the digits stop. *)
Lemma read_digits_tail t : stops t = true ->
  forall d acc cnt,
    all_digits d = true ->
    read_digits (d ++ t) acc cnt
    = (fst (fst (read_digits d acc cnt)), snd (fst (read_digits d acc cnt)), t).
Proof.
  intros Ht.
  assert (H0 : forall acc cnt, read_digits t acc cnt = (acc, cnt, t)).
  { intros acc cnt. destruct t as [| c t']; [reflexivity |].
    cbn in Ht. cbn [read_digits].
    destruct (is_digit c); [discriminate Ht | reflexivity]. }
  induction d as [| c d IH]; intros acc cnt Hd; [discriminate Hd |].
  rewrite append_cons. cbn [read_digits all_digits] in *.
  destruct d as [| c' d'].
  - rewrite Hd. change ("" ++ t) with t. rewrite H0. reflexivity.
  - apply andb_true_iff in Hd as [Hc Hd]. rewrite Hc. now apply IH.
Qed.

Lemma read_digits_end d acc cnt :
  all_digits d = true -> snd (read_digits d acc cnt) = "".
Proof.
  revert acc cnt. induction d as [| c d IH]; intros acc cnt Hd;
    [discriminate Hd |].
  cbn [read_digits all_digits] in *. destruct d as [| c' d'].
  - now rewrite Hd.
  - apply andb_true_iff in Hd as [Hc Hd]. rewrite Hc. now apply IH.
Qed.

(** [parseFloat] reads a leading integer literal and ignores a tail that
    cannot continue it. *)
Lemma parseFloat_ignores_tail d t :
  all_digits d = true -> stops t = true ->
  parseFloat (d ++ t) = parseFloat d.
Proof.
  intros Hd Ht. destruct d as [| c d]; [discriminate Hd |].
  assert (Hc : is_digit c = true).
  { cbn in Hd. destruct d; [exact Hd | now apply andb_true_iff in Hd]. }
  destruct (digit_not_special c Hc) as (Hsp & Hm & Hp & HI).
  unfold parseFloat. rewrite append_cons.
  cbn [skip_space read_sign]. rewrite Hsp. cbn [read_sign].
  rewrite Hm, Hp.
  assert (Hpre : forall r, String.prefix "Infinity" (String c r) = false).
  { intros r.
    change (String.prefix "Infinity" (String c r))
      with (if ascii_dec "I" c then String.prefix "nfinity" r else false).
    destruct (ascii_dec "I" c) as [<- | Hne]; [discriminate HI | reflexivity]. }
  rewrite !Hpre, <- append_cons.
  rewrite (read_digits_tail t Ht (String c d) 0%Z 0%Z Hd).
  pose proof (read_digits_end (String c d) 0%Z 0%Z Hd) as Hend.
  destruct (read_digits (String c d) 0 0) as [[i ci] rest]. cbn in Hend.
  subst rest. cbn [fst snd].
  destruct t as [| c' t']; [reflexivity |].
  cbn in Ht. apply negb_true_iff in Ht.
  apply orb_false_iff in Ht as [Ht HE]. apply orb_false_iff in Ht as [Ht He].
  apply orb_false_iff in Ht as [_ Hdot].
  rewrite Hdot. cbn [read_exponent]. rewrite He, HE. reflexivity.
Qed.

End ParseFacts.

(** ** The engine's registry *)

Module EngineFacts.
Import Num Tf Props.

Lemma engine0_wf : engine_wf engine0.
Proof. intros i Hi. cbn in Hi. set_solver. Qed.

Lemma dispose_all_live ts : forall e,
  live (dispose_all ts e) = live e ∖ tids ts /\
  next (dispose_all ts e) = next e.
Proof.
  induction ts as [| t ts IH]; intros e.
  - cbn. split; [set_solver | reflexivity].
  - destruct (IH (dispose t e)) as [Hl Hn].
    change (dispose_all (t :: ts) e) with (dispose_all ts (dispose t e)).
    rewrite Hl, Hn. cbn. split; [| reflexivity].
    unfold tids. cbn. set_solver.
Qed.

Lemma alloc_many_spec outs : forall e ts e',
  alloc_many outs e = (ts, e') ->
  live e' = tids ts ∪ live e /\
  (next e <= next e')%nat /\
  (forall i, i ∈ tids ts -> (next e <= i < next e')%nat).
Proof.
  induction outs as [| [sh vs] outs IH]; intros e ts e'; cbn.
  - intros [= <- <-]. unfold tids. cbn.
    split; [set_solver |]. split; [lia | set_solver].
  - destruct (alloc_many outs _) as [ts1 e1] eqn:Hm. intros [= <- <-].
    destruct (IH _ _ _ Hm) as (Hl & Hn & Hr). cbn in *.
    unfold tids in *. cbn.
    split; [rewrite Hl; set_solver |]. split; [lia |].
    intros i. rewrite elem_of_union, elem_of_singleton.
    intros [-> | Hi]; [lia | specialize (Hr i Hi); lia].
Qed.

End EngineFacts.

(** ** One run of [calcular] *)

Module CalcFacts.
Import Num Js Tf Calc Props EngineFacts.

(** What [predict] leaves behind: on success the fresh outputs, on failure
    nothing. *)
Lemma predict_spec h m x e :
  match predict h m x e with
  | Ok (One t, e') =>
      tid t = next e /\ live e' = {[ next e ]} ∪ live e /\
      next e' = S (next e)
  | Ok (Many ts, e') =>
      live e' = tids ts ∪ live e /\ (next e <= next e')%nat /\
      (forall i, i ∈ tids ts -> (next e <= i < next e')%nat)
  | Throw _ => True
  end.
Proof.
  unfold predict. destruct (negb h); [exact I |].
  destruct (negb _); [exact I |].
  destruct (forward_of m (shape x) (vals x)) as [[sh vs | outs] | err];
    [| | exact I].
  - cbn. repeat split.
  - destruct (alloc_many outs e) as [ts e'] eqn:Hm.
    exact (alloc_many_spec _ _ _ _ Hm).
Qed.

(** Whatever happens in the [try] block, the [finally] block returns the
    registry to what it was. *)
Lemma try_finally_live env m nA nB e :
  engine_wf e ->
  live (calcular_finally (snd (fst (fst (calcular_try env m nA nB e))))
                         (snd (fst (calcular_try env m nA nB e)))) = live e.
Proof.
  intros Hwf. unfold calcular_try. cbn [tensor2d concat length app Nat.eqb Nat.mul Nat.add].
  cbn -[predict].
  set (x := {| tid := next e; shape := [1%nat; 2%nat];
               vals := [cast binary32 nA; cast binary32 nB] |}).
  set (e1 := {| live := {[ next e ]} ∪ live e; next := S (next e) |}).
  assert (Hfresh : next e ∉ live e).
  { intros Hin. specialize (Hwf _ Hin). lia. }
  pose proof (predict_spec (predict_ok env) m x e1) as Hp.
  destruct (predict (predict_ok env) m x e1) as [[[t | ts] e2] | err]; cbn.
  - destruct Hp as (Ht & Hl & Hn). rewrite Hl, Ht. cbn.
    assert (S (next e) ∉ live e) by (intros Hin; specialize (Hwf _ Hin); lia).
    set_solver.
  - destruct Hp as (Hl & Hn & Hr).
    destruct (dispose_all_live ts (dispose x e2)) as [Hd _].
    rewrite Hd. cbn. rewrite Hl. cbn.
    assert (forall i, i ∈ tids ts -> i ∉ live e).
    { intros i Hi Hin. specialize (Hr i Hi). specialize (Hwf _ Hin). cbn in Hr. lia. }
    set_solver.
  - set_solver.
Qed.

Lemma try_next_mono env m nA nB e :
  (next e <= next (snd (fst (calcular_try env m nA nB e))))%nat.
Proof.
  unfold calcular_try. cbn -[predict].
  match goal with |- context [predict ?h ?m ?x ?e1] =>
    pose proof (predict_spec h m x e1) as Hp;
    destruct (predict h m x e1) as [[[t | ts] e2] | err] end; cbn in *.
  - destruct Hp as (_ & _ & ->). lia.
  - destruct Hp as (_ & Hn & _). lia.
  - lia.
Qed.

Lemma finally_next loc e : next (calcular_finally loc e) = next e.
Proof.
  unfold calcular_finally.
  destruct (inputTensor loc) as [x |],
           (prediccionTensor loc) as [[t | ts] |]; cbn; try reflexivity.
  - apply (dispose_all_live ts (dispose x e)).
  - apply (dispose_all_live ts e).
Qed.

Lemma forallb_agree {A : Type} (f g : A -> bool) (l : list A) :
  (forall x, In x l -> f x = g x) -> forallb f l = forallb g l.
Proof.
  induction l as [| a l IH]; intros H; cbn; [reflexivity |].
  rewrite (H a (or_introl eq_refl)), IH; [reflexivity |].
  intros x Hx. apply H. now right.
Qed.

Lemma is_live_alloc w sh vs e :
  (tid w < next e)%nat ->
  is_live w (snd (alloc sh vs e)) = is_live w e.
Proof.
  intros Hlt. unfold is_live. cbn. apply bool_decide_ext.
  rewrite elem_of_union, elem_of_singleton. split; [| tauto].
  intros [Heq | Hin]; [lia | exact Hin].
Qed.

Lemma try_text env m nA nB e :
  model_in m e ->
  fst (fst (fst (calcular_try env m nA nB e)))
  = shown env m nA nB (weights_alive m e).
Proof.
  intros Hin. unfold calcular_try, shown. cbn -[predict forward_of].
  set (x := {| tid := next e; shape := [1%nat; 2%nat];
               vals := [cast binary32 nA; cast binary32 nB] |}).
  set (e1 := {| live := {[ next e ]} ∪ live e; next := S (next e) |}).
  unfold predict. destruct (predict_ok env); cbn -[forward_of]; [| reflexivity].
  assert (Hx : is_live x e1 = true).
  { unfold is_live. apply bool_decide_eq_true_2. cbn. set_solver. }
  assert (Hw : forallb (fun w => is_live w e1) (model_weights m)
               = weights_alive m e).
  { apply forallb_agree. intros w Hw0.
    apply (is_live_alloc w [] [] e). now apply Hin. }
  rewrite Hx, Hw. cbn -[forward_of].
  destruct (weights_alive m e); cbn -[forward_of]; [| reflexivity].
  destruct (forward_of m [1%nat; 2%nat] _) as [[sh vs | outs] | err];
    cbn; [| | reflexivity].
  - unfold data, is_live. cbn.
    rewrite bool_decide_eq_true_2 by set_solver.
    destruct (data_ok env); cbn; [| reflexivity].
    now destruct (map (cast binary32) vs).
  - destruct outs as [| [sh vs] outs]; cbn; [reflexivity |].
    destruct (alloc_many outs _) as [ts e2] eqn:Hm. cbn.
    destruct (alloc_many_spec _ _ _ _ Hm) as (Hl & _ & _).
    unfold data, is_live. cbn in *.
    rewrite bool_decide_eq_true_2 by (rewrite Hl; cbn; set_solver).
    destruct (data_ok env); cbn; [| reflexivity].
    now destruct (map (cast binary32) vs).
Qed.

(** When there is no model or an input is rejected, [calcular] returns at
    once. *)
Lemma calcular_skip env s :
  modeloActual s = None \/ valid_inputs s = false ->
  fst (calcular env s) = s /\
  (forall x, ~ In (PredictCalled x) (snd (calcular env s))).
Proof.
  unfold calcular, valid_inputs. intros [-> | Hv].
  - cbn. split; [reflexivity | intros x []].
  - destruct (modeloActual s) as [m |]; [| cbn; split; [reflexivity | intros x []]].
    destruct (String.eqb (valA s) "" || String.eqb (valB s) "")%bool; cbn in *.
    + split; [reflexivity | intros x []].
    + rewrite negb_false_iff in Hv. rewrite Hv. cbn.
      split; [reflexivity |]. intros x [H | []]. discriminate H.
Qed.

(** Otherwise it runs the [try] block and always ends by showing something. *)
Lemma calcular_run env s m :
  modeloActual s = Some m -> valid_inputs s = true ->
  let nA := parseFloat (valA s) in
  let nB := parseFloat (valB s) in
  let r := calcular_try env m nA nB (engine s) in
  fst (calcular env s)
  = with_result s (Some (display (fst (fst (fst r)))))
      (calcular_finally (snd (fst (fst r))) (snd (fst r))).
Proof.
  intros Hm Hv. unfold calcular, valid_inputs in *. rewrite Hm.
  apply andb_true_iff in Hv as [Ha Hb].
  rewrite negb_true_iff in Ha, Hb. rewrite Ha, Hb. cbn zeta.
  destruct (calcular_try env m _ _ (engine s)) as [[[[txt | err] loc] e] fx];
    reflexivity.
Qed.

(** [calcular] touches nothing but the result cell and the engine, and the
    engine only by handing out ids. *)
Lemma calcular_frame env s :
  let s' := fst (calcular env s) in
  modeloActual s' = modeloActual s /\ operacion s' = operacion s /\
  valA s' = valA s /\ valB s' = valB s /\ cargando s' = cargando s /\
  origenModelo s' = origenModelo s /\ pending s' = pending s /\
  (next (engine s) <= next (engine s'))%nat /\
  (engine_wf (engine s) -> live (engine s') = live (engine s)).
Proof.
  destruct (modeloActual s) as [m |] eqn:Hm.
  2:{ destruct (calcular_skip env s (or_introl Hm)) as [-> _].
      cbn. rewrite Hm. repeat split; auto. }
  destruct (valid_inputs s) eqn:Hv.
  2:{ destruct (calcular_skip env s (or_intror Hv)) as [-> _].
      cbn. rewrite Hm. repeat split; auto. }
  cbn zeta. rewrite (calcular_run env s m Hm Hv). cbn.
  rewrite Hm, finally_next. repeat split; auto.
  - apply try_next_mono.
  - apply try_finally_live.
Qed.

Lemma calcular_wf env s : state_wf s -> state_wf (fst (calcular env s)).
Proof.
  intros [He Hmod].
  destruct (calcular_frame env s) as (Hm & _ & _ & _ & _ & _ & _ & Hn & Hl).
  specialize (Hl He). split.
  - intros i Hi. rewrite Hl in Hi. specialize (He i Hi). lia.
  - intros m Hm'. rewrite Hm in Hm'. intros w Hw.
    specialize (Hmod m Hm' w Hw). lia.
Qed.

Lemma weights_alive_live m e e' :
  live e = live e' -> weights_alive m e = weights_alive m e'.
Proof.
  intros H. unfold weights_alive. apply forallb_agree. intros w _.
  unfold is_live. now rewrite H.
Qed.

(** A run and the run after it, under backends that may differ. *)
Lemma calcular_again env env' s m :
  state_wf s -> modeloActual s = Some m -> valid_inputs s = true ->
  let alive := weights_alive m (engine s) in
  let nA := parseFloat (valA s) in
  let nB := parseFloat (valB s) in
  resultado (fst (calcular env s))
  = Some (display (shown env m nA nB alive)) /\
  resultado (fst (calcular env' (fst (calcular env s))))
  = Some (display (shown env' m nA nB alive)).
Proof.
  intros Hwf Hm Hv. cbn zeta.
  pose proof (calcular_wf env s Hwf) as Hwf'.
  destruct (calcular_frame env s) as (Hm' & _ & Ha & Hb & _ & _ & _ & _ & Hl).
  set (s1 := fst (calcular env s)) in *.
  assert (Hm1 : modeloActual s1 = Some m) by (now rewrite Hm').
  assert (Hv1 : valid_inputs s1 = true).
  { unfold valid_inputs in *. now rewrite Ha, Hb. }
  rewrite (calcular_run env' s1 m Hm1 Hv1). cbn [resultado with_result].
  unfold s1 at 1. rewrite (calcular_run env s m Hm Hv).
  cbn [resultado with_result].
  rewrite !try_text, Ha, Hb.
  - rewrite (weights_alive_live m (engine s1) (engine s)); [now split |].
    apply Hl, Hwf.
  - apply Hwf', Hm1.
  - apply Hwf, Hm.
Qed.

(** The backend changes what is shown only by making the run fail. *)
Lemma shown_cases env m nA nB alive :
  shown env m nA nB alive = shown healthy m nA nB alive \/
  exists err, shown env m nA nB alive = Throw err.
Proof.
  unfold shown. cbn.
  destruct (predict_ok env); cbn; [| right; now eexists].
  destruct alive; cbn; [| now left].
  destruct (forward_of m _ _) as [raw | err]; [| now left].
  destruct (first_vals raw) as [d | err]; [| now left].
  destruct (data_ok env); cbn; [now left | right; now eexists].
Qed.

End CalcFacts.

(** ** The two halves of [calcular] *)

Module AwaitFacts.
Import Num Js Tf Calc Props Flight EngineFacts CalcFacts.

Lemma finally_live loc e :
  live (calcular_finally loc e) = live e ∖ locals_ids loc.
Proof.
  unfold calcular_finally, locals_ids.
  destruct (inputTensor loc) as [x |],
           (prediccionTensor loc) as [[t | ts] |]; cbn;
    try (destruct (dispose_all_live ts (dispose x e)) as [-> _]; cbn);
    try (destruct (dispose_all_live ts e) as [-> _]; cbn);
    set_solver.
Qed.

(** The locals of the [try] block are the buffers it allocated. *)
Lemma try_locals env m nA nB e :
  let loc := snd (fst (fst (calcular_try env m nA nB e))) in
  let e' := snd (fst (calcular_try env m nA nB e)) in
  live e' = locals_ids loc ∪ live e /\
  forall i, i ∈ locals_ids loc -> (next e <= i < next e')%nat.
Proof.
  unfold calcular_try, locals_ids. cbn -[predict].
  match goal with |- context [predict ?h ?m ?x ?e1] =>
    pose proof (predict_spec h m x e1) as Hp;
    destruct (predict h m x e1) as [[[t | ts] e2] | err] end; cbn in *.
  - destruct Hp as (Ht & Hl & Hn). rewrite Hl, Hn, Ht.
    split; [set_solver |]. intros i Hi.
    assert (i = next e \/ i = S (next e)) as [-> | ->] by set_solver; lia.
  - destruct Hp as (Hl & Hn & Hr). rewrite Hl.
    split; [set_solver |]. intros i Hi.
    apply elem_of_union in Hi as [Hi | Hi].
    + apply elem_of_singleton in Hi as ->. lia.
    + specialize (Hr i Hi). lia.
  - split; [set_solver |]. intros i Hi.
    assert (i = next e) as -> by set_solver. lia.
Qed.

(** What the first half of [calcular] does to the state: it either ends
    in the same turn, with the registry as it was, or leaves one more
    suspended call, whose buffers are new. *)
Lemma inicio_frame env s :
  let s' := fst (calcular_inicio env s) in
  modeloActual s' = modeloActual s /\ operacion s' = operacion s /\
  valA s' = valA s /\ valB s' = valB s /\ cargando s' = cargando s /\
  origenModelo s' = origenModelo s /\ pending s' = pending s /\
  (next (engine s) <= next (engine s'))%nat /\
  ((awaiting s' = awaiting s /\
    (engine_wf (engine s) -> live (engine s') = live (engine s))) \/
   (exists c,
      awaiting s' = awaiting s ++ [c] /\
      resultado s' = resultado s /\
      live (engine s') = locals_ids (sus_locals c) ∪ live (engine s) /\
      forall i, i ∈ locals_ids (sus_locals c) ->
                (next (engine s) <= i < next (engine s'))%nat)).
Proof.
  cbn zeta. unfold calcular_inicio.
  destruct (modeloActual s) as [m |] eqn:Hm;
    [| rewrite ?Hm; repeat split; auto].
  destruct (String.eqb (valA s) "" || String.eqb (valB s) "")%bool;
    [rewrite ?Hm; repeat split; auto |].
  destruct (isNaN (parseFloat (valA s)) || isNaN (parseFloat (valB s)))%bool;
    [cbn; rewrite ?Hm; repeat split; auto |].
  pose proof (try_locals env m (parseFloat (valA s)) (parseFloat (valB s))
                (engine s)) as Hloc.
  pose proof (try_finally_live env m (parseFloat (valA s))
                (parseFloat (valB s)) (engine s)) as Hfin.
  pose proof (try_next_mono env m (parseFloat (valA s)) (parseFloat (valB s))
                (engine s)) as Hn.
  destruct (calcular_try env m (parseFloat (valA s)) (parseFloat (valB s))
              (engine s)) as [[[r loc] e] fx].
  cbn in Hloc, Hfin, Hn. destruct Hloc as [Hl Hr].
  destruct (reaches_await loc).
  - cbn. rewrite ?Hm. repeat split; auto. right.
    exists {| sus_locals := loc; sus_text := r |}. cbn.
    split; [reflexivity |]. split; [reflexivity |].
    split; [exact Hl | exact Hr].
  - destruct r as [txt | err]; cbn; rewrite ?Hm, finally_next;
      repeat split; auto.
Qed.

(** What the second half does: it writes the result cell and releases the
    buffers of the call it resumes. *)
Lemma fin_frame i s :
  let s' := fst (calcular_fin i s) in
  modeloActual s' = modeloActual s /\ operacion s' = operacion s /\
  valA s' = valA s /\ valB s' = valB s /\ cargando s' = cargando s /\
  origenModelo s' = origenModelo s /\ pending s' = pending s /\
  next (engine s') = next (engine s) /\
  match nth_error (awaiting s) i with
  | None => s' = s
  | Some c =>
      awaiting s' = remove_nth i (awaiting s) /\
      live (engine s') = live (engine s) ∖ locals_ids (sus_locals c)
  end.
Proof.
  cbn zeta. unfold calcular_fin.
  destruct (nth_error (awaiting s) i) as [c |]; [| now repeat split].
  destruct (sus_text c) as [txt | err]; cbn; rewrite finally_next;
    repeat split; apply finally_live.
Qed.

(** The uninterrupted call is the first half followed at once by the
    second. *)
Lemma calcular_split env s :
  let s1 := fst (calcular_inicio env s) in
  let n := length (awaiting s) in
  calcular env s
  = if Nat.eqb (length (awaiting s1)) n
    then calcular_inicio env s
    else (fst (calcular_fin n s1),
          snd (calcular_inicio env s) ++ snd (calcular_fin n s1)).
Proof.
  cbn zeta. unfold calcular, calcular_inicio.
  destruct (modeloActual s) as [m |] eqn:Hm; [| now rewrite Nat.eqb_refl].
  destruct (String.eqb (valA s) "" || String.eqb (valB s) "")%bool;
    [now rewrite Nat.eqb_refl |].
  destruct (isNaN (parseFloat (valA s)) || isNaN (parseFloat (valB s)))%bool;
    [now rewrite Nat.eqb_refl |].
  destruct (calcular_try env m (parseFloat (valA s)) (parseFloat (valB s))
              (engine s)) as [[[r loc] e] fx].
  destruct (reaches_await loc).
  - cbn [fst snd awaiting]. rewrite length_app, Nat.add_1_r.
    rewrite (proj2 (Nat.eqb_neq _ _)) by lia.
    unfold calcular_fin. cbn [awaiting].
    rewrite nth_error_app2 by lia. rewrite Nat.sub_diag. cbn [nth_error].
    assert (Hrem : forall (A : Type) (l : list A) (x : A),
               remove_nth (length l) (l ++ [x]) = l).
    { intros A l x. induction l as [| a l IH]; cbn; [reflexivity |].
      now rewrite IH. }
    rewrite Hrem. cbn [sus_text sus_locals engine].
    destruct r as [txt | err]; cbn; rewrite ?app_nil_r;
      unfold with_result; rewrite ?Hm; reflexivity.
  - destruct r as [txt | err]; cbn; now rewrite Nat.eqb_refl.
Qed.

Lemma calcular_awaiting env s : awaiting (fst (calcular env s)) = awaiting s.
Proof.
  unfold calcular. destruct (modeloActual s); [| reflexivity].
  destruct (_ || _)%bool; [reflexivity |].
  destruct (_ || _)%bool; [reflexivity |].
  destruct (calcular_try _ _ _ _ _) as [[[[txt | err] loc] e] fx]; reflexivity.
Qed.

Lemma calc_inicio_wf env s :
  state_wf s -> state_wf (fst (calcular_inicio env s)).
Proof.
  intros [He Hmod].
  destruct (inicio_frame env s) as (Hm & _ & _ & _ & _ & _ & _ & Hn & Hc).
  split.
  - intros i Hi. destruct Hc as [[_ Hl] | (c & _ & _ & Hl & Hr)].
    + rewrite (Hl He) in Hi. specialize (He i Hi). lia.
    + rewrite Hl in Hi. apply elem_of_union in Hi as [Hi | Hi].
      * specialize (Hr i Hi). lia.
      * specialize (He i Hi). lia.
  - intros m Hm'. rewrite Hm in Hm'. intros w Hw.
    specialize (Hmod m Hm' w Hw). lia.
Qed.

Lemma calc_fin_wf i s : state_wf s -> state_wf (fst (calcular_fin i s)).
Proof.
  intros [He Hmod].
  destruct (fin_frame i s) as (Hm & _ & _ & _ & _ & _ & _ & Hn & Hc).
  split.
  - intros j Hj. rewrite Hn. apply He.
    destruct (nth_error (awaiting s) i) as [c |]; [| now rewrite Hc in Hj].
    destruct Hc as [_ Hl]. rewrite Hl in Hj. set_solver.
  - intros m Hm'. rewrite Hm in Hm'. intros w Hw. rewrite Hn.
    exact (Hmod m Hm' w Hw).
Qed.

End AwaitFacts.

(** ** Model resolution *)

Module ResolverFacts.
Import Num Js Tf Calc Props Flight EngineFacts CalcFacts AwaitFacts.

Lemma cast_weights :
  cast binary32 (Fin 1) = Fin 1 /\ cast binary32 (Fin (-1)) = Fin (-1) /\
  cast binary32 (Fin 0) = Fin 0.
Proof. repeat split; vm_compute; reflexivity. Qed.

Lemma crear_spec init op e :
  exists e',
    crearModeloEnMemoria init op e
    = (Ok (Sequential [synthetic_layer op (next e)]), e') /\
    next e' = S (S (S (S (next e)))) /\
    live e' = ({[ S (S (S (next e))) ]} ∪ ({[ S (S (next e)) ]} ∪
               ({[ S (next e) ]} ∪ ({[ next e ]} ∪ live e))))
              ∖ {[ next e ]} ∖ {[ S (next e) ]}.
Proof.
  destruct cast_weights as (H1 & Hm1 & H0).
  unfold crearModeloEnMemoria, dense, tensor2d, tensor1d, alloc, synthetic_layer.
  cbn -[cast]. rewrite H1, H0.
  destruct op; cbn -[cast]; rewrite ?H1, ?Hm1;
    (eexists; split; [reflexivity | split; reflexivity]).
Qed.

Lemma alloc_many_wf outs e ts e' :
  alloc_many outs e = (ts, e') -> engine_wf e ->
  engine_wf e' /\ forall t, In t ts -> (tid t < next e')%nat.
Proof.
  intros Hm Hwf. destruct (alloc_many_spec _ _ _ _ Hm) as (Hl & Hn & Hr). split.
  - intros i. rewrite Hl, elem_of_union. intros [Hi | Hi].
    + specialize (Hr i Hi). lia.
    + specialize (Hwf i Hi). lia.
  - intros t Ht. assert (Hi : tid t ∈ tids ts).
    { unfold tids. apply elem_of_list_to_set, list_elem_of_In, in_map, Ht. }
    specialize (Hr _ Hi). lia.
Qed.

Lemma inicio_wf s : state_wf s -> state_wf (fst (cambiarModelo_inicio s)).
Proof. intros [He _]. split; [exact He | intros m [=]]. Qed.

Lemma fin_wf init op outcome s :
  state_wf s -> state_wf (fst (cambiarModelo_fin init op outcome s)).
Proof.
  intros [He _]. unfold cambiarModelo_fin. destruct outcome as [a |].
  - destruct (alloc_many (art_weights a) (engine s)) as [ws e'] eqn:Hm.
    destruct (alloc_many_wf _ _ _ _ Hm He) as [He' Hws]. cbn.
    split; [exact He' |]. intros m [= <-]. exact Hws.
  - destruct (crear_spec init op (engine s)) as (e' & -> & Hn & Hl). cbn.
    split.
    + intros i. cbn. rewrite Hl, Hn. intros Hi.
      assert (Hc : i = S (S (S (next (engine s)))) \/ i = S (S (next (engine s)))
                   \/ i ∈ live (engine s)) by set_solver.
      destruct Hc as [-> | [-> | Hc]]; [lia | lia |].
      specialize (He i Hc). lia.
    + intros m [= <-] w. cbn. rewrite Hn. intros [<- | [<- | []]]; cbn; lia.
Qed.

Lemma step_wf s ev : state_wf s -> state_wf (fst (step s ev)).
Proof.
  intros Hwf. destruct ev as [| op | i init outcome | v | v | env | j]; cbn.
  - now apply inicio_wf.
  - destruct (Operacion_eqb op (operacion s)); [exact Hwf |].
    apply inicio_wf. exact Hwf.
  - destruct (nth_error (pending s) i) as [op |]; [| exact Hwf].
    apply fin_wf. exact Hwf.
  - exact Hwf.
  - exact Hwf.
  - destruct (disabled s); [exact Hwf | now apply calc_inicio_wf].
  - now apply calc_fin_wf.
Qed.

Lemma inicial_wf : state_wf inicial.
Proof. split; [apply engine0_wf | intros m [=]]. Qed.

(** Every state the component can reach is well formed. *)
Lemma run_wf evs : state_wf (run evs).
Proof.
  unfold run. generalize inicial_wf. generalize inicial.
  induction evs as [| ev evs IH]; intros s Hs; cbn; [exact Hs |].
  apply IH, step_wf, Hs.
Qed.

Lemma weights_alive_iff m e :
  weights_alive m e = true <-> tids (model_weights m) ⊆ live e.
Proof.
  unfold weights_alive, tids, is_live. rewrite forallb_forall. split.
  - intros H i Hi. apply elem_of_list_to_set, list_elem_of_In, in_map_iff in Hi.
    destruct Hi as (w & <- & Hw). exact (bool_decide_eq_true_1 _ (H w Hw)).
  - intros H w Hw. apply bool_decide_eq_true_2, H.
    apply elem_of_list_to_set, list_elem_of_In, in_map, Hw.
Qed.

Lemma tids_model_in m e i :
  model_in m e -> i ∈ tids (model_weights m) -> (i < next e)%nat.
Proof.
  intros Hin Hi. unfold tids in Hi.
  apply elem_of_list_to_set, list_elem_of_In, in_map_iff in Hi.
  destruct Hi as (w & <- & Hw). exact (Hin w Hw).
Qed.

Lemma awaited_app (l : list Suspended) c :
  ⋃ (map (fun c => locals_ids (sus_locals c)) (l ++ [c]))
  = ⋃ (map (fun c => locals_ids (sus_locals c)) l) ∪ locals_ids (sus_locals c).
Proof.
  induction l as [| a l IH]; cbn; [set_solver |]. rewrite IH. set_solver.
Qed.

Lemma awaited_nth (l : list Suspended) : forall i c,
  nth_error l i = Some c ->
  locals_ids (sus_locals c)
  ⊆ ⋃ (map (fun c => locals_ids (sus_locals c)) l).
Proof.
  induction l as [| a l IH]; intros [| i] c; cbn; try discriminate.
  - intros [= <-]. set_solver.
  - intros H. specialize (IH i c H). set_solver.
Qed.

Lemma awaited_remove (l : list Suspended) : forall i,
  ⋃ (map (fun c => locals_ids (sus_locals c)) (remove_nth i l))
  ⊆ ⋃ (map (fun c => locals_ids (sus_locals c)) l).
Proof.
  induction l as [| a l IH]; intros [| i]; cbn; set_solver.
Qed.

(** The settling of a load keeps the calls in flight apart from the model
    it installs. *)
Lemma fin_flight init op outcome s :
  state_wf s -> flight_wf s ->
  flight_wf (fst (cambiarModelo_fin init op outcome s)).
Proof.
  intros [He _] [Hlt _]. unfold flight_wf, awaited, cambiarModelo_fin.
  destruct outcome as [a |].
  - destruct (alloc_many (art_weights a) (engine s)) as [ws e'] eqn:Hm.
    destruct (alloc_many_spec _ _ _ _ Hm) as (Hl & Hn & Hr). cbn. split.
    + intros i Hi. specialize (Hlt i Hi). lia.
    + intros m [= <-]. cbn. split.
      * apply (proj2 (weights_alive_iff (Loaded ws (art_forward a)) e')).
        cbn. rewrite Hl. set_solver.
      * intros i Hi Hi'. specialize (Hr i Hi). specialize (Hlt i Hi'). lia.
  - destruct (crear_spec init op (engine s)) as (e' & -> & Hn & Hl). cbn.
    split.
    + intros i Hi. specialize (Hlt i Hi). lia.
    + intros m [= <-]. split.
      * unfold weights_alive, is_live. cbn. rewrite Hl.
        rewrite !bool_decide_eq_true_2; [reflexivity | |];
          repeat (apply elem_of_difference; split);
          try (rewrite elem_of_singleton; lia); set_solver.
      * intros i Hi Hi'. specialize (Hlt i Hi'). unfold tids in Hi. cbn in Hi.
        assert (i = S (S (next (engine s))) \/ i = S (S (S (next (engine s)))))
          as [-> | ->] by set_solver; lia.
Qed.

(** No event disposes a weight of the model in the slot, and the calls in
    flight hold buffers of their own. *)
Lemma step_flight s ev :
  state_wf s -> flight_wf s -> flight_wf (fst (step s ev)).
Proof.
  intros Hwf Hfl.
  destruct ev as [| op | i init outcome | v | v | env | j]; cbn.
  - split; [exact (proj1 Hfl) | intros m [=]].
  - destruct (Operacion_eqb op (operacion s)); [exact Hfl |].
    split; [exact (proj1 Hfl) | intros m [=]].
  - destruct (nth_error (pending s) i) as [op |]; [| exact Hfl].
    apply fin_flight; [exact Hwf | exact Hfl].
  - exact Hfl.
  - exact Hfl.
  - destruct (disabled s); [exact Hfl |].
    destruct Hwf as [He Hmod]. destruct Hfl as [Hlt Hal].
    destruct (inicio_frame env s) as (Hm & _ & _ & _ & _ & _ & _ & Hn & Hc).
    unfold flight_wf, awaited. rewrite Hm.
    destruct Hc as [[Haw Hl] | (c & Haw & _ & Hl & Hr)]; rewrite Haw.
    + split.
      * intros i Hi. specialize (Hlt i Hi). lia.
      * intros m Hm'. destruct (Hal m Hm') as [Ha Hd]. split; [| exact Hd].
        now rewrite (weights_alive_live m _ (engine s)); [| apply Hl].
    + rewrite awaited_app. split.
      * intros i Hi. apply elem_of_union in Hi as [Hi | Hi].
        -- specialize (Hlt i Hi). lia.
        -- specialize (Hr i Hi). lia.
      * intros m Hm'. destruct (Hal m Hm') as [Ha Hd]. split.
        -- apply weights_alive_iff. rewrite Hl.
           apply weights_alive_iff in Ha. set_solver.
        -- intros i Hi Hi'. apply elem_of_union in Hi' as [Hi' | Hi'].
           ++ exact (Hd i Hi Hi').
           ++ specialize (Hr i Hi').
              pose proof (tids_model_in m _ i (Hmod m Hm') Hi). lia.
  - destruct Hfl as [Hlt Hal].
    destruct (fin_frame j s) as (Hm & _ & _ & _ & _ & _ & _ & Hn & Hc).
    destruct (nth_error (awaiting s) j) as [c |] eqn:Hj;
      [| rewrite Hc; now split].
    destruct Hc as [Haw Hl].
    unfold flight_wf, awaited. rewrite Hm, Hn, Haw.
    pose proof (awaited_remove (awaiting s) j) as Hsub.
    pose proof (awaited_nth (awaiting s) j c Hj) as Hin. split.
    + intros i Hi. apply Hlt, Hsub, Hi.
    + intros m Hm'. destruct (Hal m Hm') as [Ha Hd]. split.
      * apply weights_alive_iff. rewrite Hl.
        apply weights_alive_iff in Ha. unfold awaited in Hd. set_solver.
      * unfold awaited in Hd. set_solver.
Qed.

Lemma inicial_flight : flight_wf inicial.
Proof. split; [intros i Hi; cbn in Hi; set_solver | intros m [=]]. Qed.

(** In every state the component can reach, the calls in flight and the
    model in the slot are apart. *)
Lemma run_flight evs : flight_wf (run evs).
Proof.
  unfold run. generalize inicial_flight. generalize inicial_wf.
  generalize inicial.
  induction evs as [| ev evs IH]; intros s Hwf Hfl; cbn; [exact Hfl |].
  apply IH; [now apply step_wf | now apply step_flight].
Qed.

(** In every state the component can reach, the weights of the model in
    the slot are allocated. *)
Lemma run_alive evs m :
  modeloActual (run evs) = Some m ->
  weights_alive m (engine (run evs)) = true.
Proof. intros Hm. exact (proj1 (proj2 (run_flight evs) m Hm)). Qed.

Lemma fin_installs init op outcome s :
  modeloActual (fst (cambiarModelo_fin init op outcome s)) <> None.
Proof.
  unfold cambiarModelo_fin. destruct outcome as [a |].
  - destruct (alloc_many (art_weights a) (engine s)) as [ws e1]. discriminate.
  - destruct (crear_spec init op (engine s)) as (e' & -> & _). discriminate.
Qed.

End ResolverFacts.

(** ** The synthetic model *)

Module SyntheticFacts.
Import Num Js Tf Calc Props NumFacts JsFacts EngineFacts CalcFacts ResolverFacts.
Local Open Scope Q_scope.

Lemma prec32 : (1 < prec binary32)%Z.
Proof. reflexivity. Qed.

Lemma emax32 : (2 <= emax binary32)%Z.
Proof. discriminate. Qed.

Lemma round32_id x : representable binary32 x -> round binary32 x = Fin (Qred x).
Proof. apply round_fixed, prec32. Qed.

Lemma fadd32_zero_r q : fadd32 (round binary32 q) (Fin 0) = round binary32 q.
Proof.
  destruct (round binary32 q) as [| s | y] eqn:Hr; try reflexivity.
  unfold fadd32, fadd.
  rewrite (round_proper binary32 (y + 0) y) by ring.
  exact (round_idem binary32 prec32 q y Hr).
Qed.

Lemma cast32_round q : cast binary32 (round binary32 q) = round binary32 q.
Proof.
  destruct (round binary32 q) as [| s | y] eqn:Hr; try reflexivity.
  exact (round_idem binary32 prec32 q y Hr).
Qed.

(** The forward pass of the synthetic layer on two [float32] values is one
    rounded addition or subtraction. *)
Lemma synthetic_forward op n xa xb :
  representable binary32 xa -> representable binary32 xb ->
  forward_of (Sequential [synthetic_layer op n]) [1%nat; 2%nat]
             [Fin xa; Fin xb]
  = Ok (RawOne [1%nat; 1%nat] [round binary32 (exact op xa xb)]).
Proof.
  intros Ha Hb.
  unfold forward_of, layers_apply, dense_apply, synthetic_layer.
  cbn -[fadd32 fmul32]. unfold dot. cbn -[fadd32 fmul32].
  assert (H1 : fmul32 (Fin xa) (Fin 1) = Fin (Qred xa)).
  { unfold fmul32, fmul. rewrite (round_proper binary32 (xa * 1) xa) by ring.
    now apply round32_id. }
  assert (H2 : fadd32 (Fin 0) (Fin (Qred xa)) = Fin (Qred xa)).
  { unfold fadd32, fadd.
    rewrite (round_proper binary32 (0 + Qred xa) xa)
      by (rewrite Qred_correct; ring).
    now apply round32_id. }
  rewrite H1, H2.
  assert (H3 : fadd32 (Fin (Qred xa)) (fmul32 (Fin xb) (w2_of op))
               = round binary32 (exact op xa xb)).
  { destruct op; unfold fmul32, fmul, w2_of.
    - rewrite (round_proper binary32 (xb * 1) xb) by ring.
      rewrite (round32_id xb Hb). unfold fadd32, fadd.
      apply round_proper. cbn [exact]. now rewrite !Qred_correct.
    - rewrite (round_proper binary32 (xb * -1) (- xb)) by ring.
      rewrite (round32_id (- xb) (representable_opp binary32 prec32 xb Hb)).
      unfold fadd32, fadd. apply round_proper. cbn [exact].
      rewrite !Qred_correct. ring. }
  rewrite H3. now rewrite fadd32_zero_r.
Qed.

(** What the page shows for the synthetic model on two finite inputs that
    do not overflow [float32]. *)
Lemma synthetic_shown op n env a b xa xb :
  predict_ok env = true -> data_ok env = true ->
  round binary32 a = Fin xa -> round binary32 b = Fin xb ->
  shown env (Sequential [synthetic_layer op n]) (Fin a) (Fin b) true
  = Ok (toFixed2 (round binary32 (exact op xa xb))).
Proof.
  intros Hp Hd Ha Hb. unfold shown. rewrite Hp, Hd. cbn [negb cast].
  rewrite Ha, Hb.
  rewrite (synthetic_forward op n xa xb
             (round_representable binary32 prec32 a xa Ha)
             (round_representable binary32 prec32 b xb Hb)).
  cbn [first_vals map]. now rewrite cast32_round.
Qed.

(** Three roundings separate the displayed value from the exact one: one
    for each input and one for the sum. *)
Lemma synthetic_tolerance op a b xa xb v :
  round binary32 a = Fin xa -> round binary32 b = Fin xb ->
  round binary32 (exact op xa xb) = Fin v ->
  Qabs (v - exact op a b)
  <= 3 * eps32 * (Qabs a + Qabs b) + pow2 (-148).
Proof.
  intros Ha Hb Hv.
  apply (round_error binary32) in Ha, Hb, Hv.
  change (pow2 (- prec binary32)) with eps32 in *.
  assert (Heta : pow2 (-148) == 4 * pow2 (emin binary32 - 1)).
  { vm_compute. reflexivity. }
  rewrite Heta.
  pose proof (pow2_pos (emin binary32 - 1)) as Hpos.
  set (eta := pow2 (emin binary32 - 1)) in *.
  pose proof (Qabs_nonneg a) as HA. pose proof (Qabs_nonneg b) as HB.
  assert (Ha' : - Qabs a <= a <= Qabs a).
  { apply Qabs_Qle_condition. apply Qle_refl. }
  assert (Hb' : - Qabs b <= b <= Qabs b).
  { apply Qabs_Qle_condition. apply Qle_refl. }
  set (A := Qabs a) in *. set (B := Qabs b) in *.
  apply Qabs_Qle_condition in Ha, Hb.
  assert (HS : Qabs (exact op xa xb)
               <= (A + B) * (1 + eps32) + 2 * eta).
  { apply Qabs_Qle_condition. unfold eps32 in *. destruct op; cbn [exact]; lra. }
  set (S := Qabs (exact op xa xb)) in *.
  apply Qabs_Qle_condition in Hv. apply Qabs_Qle_condition.
  unfold eps32 in *. destruct op; cbn [exact] in *; lra.
Qed.

Lemma synthetic_finite op a b :
  Qabs a <= pow2 126 -> Qabs b <= pow2 126 ->
  exists xa xb v,
    round binary32 a = Fin xa /\ round binary32 b = Fin xb /\
    round binary32 (exact op xa xb) = Fin v.
Proof.
  intros Ha Hb.
  assert (H127 : pow2 (emax binary32 - 1) == 2 * pow2 126).
  { vm_compute. reflexivity. }
  assert (Heta : pow2 (emin binary32 - 1) <= pow2 126 * (1 # 1024)).
  { vm_compute. discriminate. }
  pose proof (pow2_pos 126) as HP.
  destruct (round_finite binary32 prec32 emax32 a) as [xa Hxa].
  { rewrite H127. lra. }
  destruct (round_finite binary32 prec32 emax32 b) as [xb Hxb].
  { rewrite H127. lra. }
  pose proof (round_error binary32 a xa Hxa) as Ea.
  pose proof (round_error binary32 b xb Hxb) as Eb.
  change (pow2 (- prec binary32)) with eps32 in *.
  pose proof (pow2_pos (emin binary32 - 1)) as Hpos.
  set (eta := pow2 (emin binary32 - 1)) in *.
  set (P := pow2 126) in *.
  destruct (round_finite binary32 prec32 emax32 (exact op xa xb)) as [v Hv].
  { rewrite H127. fold P.
    pose proof (Qabs_nonneg a) as HA. pose proof (Qabs_nonneg b) as HB.
    assert (Ha' : - Qabs a <= a <= Qabs a).
    { apply Qabs_Qle_condition. apply Qle_refl. }
    assert (Hb' : - Qabs b <= b <= Qabs b).
    { apply Qabs_Qle_condition. apply Qle_refl. }
    set (A := Qabs a) in *. set (B := Qabs b) in *.
    apply Qabs_Qle_condition in Ea, Eb. apply Qabs_Qle_condition.
    unfold eps32 in *. destruct op; cbn [exact]; lra. }
  now exists xa, xb, v.
Qed.

Lemma is_synthetic_layer op m :
  is_synthetic op m -> exists n, m = Sequential [synthetic_layer op n].
Proof.
  intros (init & e & e' & H).
  destruct (crear_spec init op e) as (e1 & Hc & _).
  rewrite Hc in H. injection H as <- _. now exists (next e).
Qed.

(** What [calcular] shows for the synthetic model when neither the storing
    of the inputs nor the addition overflows [float32], and how far the
    value is from the exact one. *)
Lemma synthetic_within_tolerance op env s m a b xa xb v :
  modeloActual s = Some m -> is_synthetic op m ->
  state_wf s -> weights_alive m (engine s) = true ->
  predict_ok env = true -> data_ok env = true ->
  valA s <> ""%string -> valB s <> ""%string ->
  parseFloat (valA s) = Fin a -> parseFloat (valB s) = Fin b ->
  round binary32 a = Fin xa -> round binary32 b = Fin xb ->
  round binary32 (exact op xa xb) = Fin v ->
  resultado (fst (calcular env s)) = Some (toFixed2 (Fin v)) /\
  Qabs (v - exact op a b) <= 3 * eps32 * (Qabs a + Qabs b) + pow2 (-148) /\
  (Qabs v < inject_Z (10 ^ 21) -> two_decimals (toFixed2 (Fin v))).
Proof.
  intros Hm Hsyn Hwf Hal Hp Hd HvA HvB Hpa Hpb Hxa Hxb Hv.
  destruct (is_synthetic_layer op m Hsyn) as [n ->].
  split; [| split].
  - assert (Hval : valid_inputs s = true).
    { unfold valid_inputs. rewrite Hpa, Hpb.
      apply String.eqb_neq in HvA, HvB. now rewrite HvA, HvB. }
    rewrite (calcular_run env s _ Hm Hval). cbn [resultado with_result].
    rewrite try_text by (apply Hwf, Hm).
    rewrite Hal, Hpa, Hpb.
    rewrite (synthetic_shown op n env a b xa xb Hp Hd Hxa Hxb), Hv.
    reflexivity.
  - exact (synthetic_tolerance op a b xa xb v Hxa Hxb Hv).
  - apply toFixed2_shape.
Qed.

End SyntheticFacts.

(** ** The lifecycle *)

Module LifecycleFacts.
Import Num Js Tf Calc Lifecycle Props EngineFacts CalcFacts AwaitFacts
  ResolverFacts.

Lemma fin_phase init op outcome s :
  cargando (fst (cambiarModelo_fin init op outcome s)) = false /\
  pending (fst (cambiarModelo_fin init op outcome s)) = pending s /\
  exists p, phase (fst (cambiarModelo_fin init op outcome s)) = Ready p.
Proof.
  unfold cambiarModelo_fin. destruct outcome as [a |].
  - destruct (alloc_many (art_weights a) (engine s)) as [ws e1]. cbn.
    repeat split. now exists FromFile.
  - destruct (crear_spec init op (engine s)) as (e' & -> & _). cbn.
    repeat split. now exists InMemory.
Qed.

Lemma step_one_in_flight s ev :
  one_in_flight s -> in_sequence s ev = true ->
  one_in_flight (fst (step s ev)).
Proof.
  intros Hinv Hseq.
  destruct ev as [| op | i init outcome | v | v | env | j]; cbn in *.
  - apply andb_true_iff in Hseq as [Hq _]. unfold quiet in Hq.
    destruct (pending s) eqn:Hp; [| discriminate].
    right. exists (operacion s). cbn. rewrite ?Hp. now repeat split.
  - destruct (Operacion_eqb op (operacion s)); [exact Hinv |].
    rewrite orb_false_r in Hseq. unfold quiet in Hseq.
    destruct (pending s) eqn:Hp; [| discriminate].
    right. exists op. cbn. rewrite ?Hp. now repeat split.
  - destruct Hinv as [[Hp Hc] | (op & Hp & Hc & Hm)].
    + rewrite Hp. destruct i; cbn; left; now rewrite Hp.
    + rewrite Hp. destruct i as [| i]; cbn.
      * destruct (fin_phase init op outcome
                    (with_pending s [])) as (H1 & H2 & _).
        left. now rewrite H1, H2.
      * destruct i; cbn; right; exists op; now rewrite Hp.
  - exact Hinv.
  - exact Hinv.
  - destruct (disabled s); [exact Hinv |].
    destruct (inicio_frame env s) as (Hm & _ & _ & _ & Hc & _ & Hp & _).
    unfold one_in_flight. rewrite Hm, Hc, Hp. exact Hinv.
  - destruct (fin_frame j s) as (Hm & _ & _ & _ & Hc & _ & Hp & _).
    unfold one_in_flight. rewrite Hm, Hc, Hp. exact Hinv.
Qed.

Lemma reach_one_in_flight s : reach s -> one_in_flight s.
Proof.
  induction 1 as [| s ev _ IH Hseq].
  - left. split; reflexivity.
  - now apply step_one_in_flight.
Qed.

(** Neither half of [calcular] changes the phase. *)
Lemma calcular_halves_phase env j s :
  phase (fst (calcular_inicio env s)) = phase s /\
  phase (fst (calcular_fin j s)) = phase s.
Proof.
  destruct (inicio_frame env s) as (Hm & _ & _ & _ & Hc & Ho & _).
  destruct (fin_frame j s) as (Hm' & _ & _ & _ & Hc' & Ho' & _).
  unfold phase, provenance. now rewrite Hm, Hc, Ho, Hm', Hc', Ho'.
Qed.

Lemma step_lifecycle s ev :
  one_in_flight s -> in_sequence s ev = true ->
  lifecycle (phase s) (phase (fst (step s ev))).
Proof.
  intros Hinv Hseq.
  destruct ev as [| op | i init outcome | v | v | env | j]; cbn in *.
  - apply andb_true_iff in Hseq as [_ Hi].
    destruct (phase s); try discriminate. constructor.
  - destruct (Operacion_eqb op (operacion s)); [constructor |].
    rewrite orb_false_r in Hseq. unfold quiet in Hseq.
    destruct Hinv as [[Hp Hc] | (op' & Hp & _)];
      [| rewrite Hp in Hseq; discriminate].
    unfold phase at 1. rewrite Hc.
    destruct (modeloActual s); constructor.
  - destruct Hinv as [[Hp Hc] | (op & Hp & Hc & Hm)].
    + rewrite Hp. destruct i; constructor.
    + rewrite Hp. destruct i as [| i]; cbn.
      * destruct (fin_phase init op outcome (with_pending s []))
          as (_ & _ & p & ->).
        unfold phase. rewrite Hc. constructor.
      * destruct i; constructor.
  - constructor.
  - constructor.
  - destruct (disabled s); [constructor |].
    rewrite (proj1 (calcular_halves_phase env 0 s)). constructor.
  - rewrite (proj2 (calcular_halves_phase healthy j s)). constructor.
Qed.

End LifecycleFacts.

(** * The specification's claims *)

Import Num Js Tf Calc Lifecycle Props.
Import NumFacts JsFacts ParseFacts EngineFacts CalcFacts ResolverFacts
  SyntheticFacts LifecycleFacts.

(** ** Model resolution *)

(** C3.  Resolution never ends in a failure: whatever the load yields and
    in whatever state it settles, [cambiarModelo] installs a model, leaves
    the loading flag off and its promise is not rejected; the fallback
    [crearModeloEnMemoria] always returns a model, and the fallback path
    does nothing to the outside world but log one warning (no second load,
    no retry). *)
Theorem resolution_never_fails :
  forall (init : list number) (op : Operacion) (outcome : option Artifact)
         (s : State),
    modeloActual (fst (cambiarModelo_fin init op outcome s)) <> None /\
    cargando (fst (cambiarModelo_fin init op outcome s)) = false /\
    ~ In Rejected (snd (cambiarModelo_fin init op outcome s)) /\
    (exists m e', crearModeloEnMemoria init op (engine s) = (Ok m, e')) /\
    snd (cambiarModelo_fin init op None s) = [ConsoleWarn].
Proof.
  intros init op outcome s.
  destruct (crear_spec init op (engine s)) as (e' & Hc & _ & _).
  assert (Hfx : snd (cambiarModelo_fin init op None s) = [ConsoleWarn]).
  { unfold cambiarModelo_fin. now rewrite Hc. }
  unfold cambiarModelo_fin in *. destruct outcome as [a |].
  - destruct (alloc_many (art_weights a) (engine s)) as [ws e1]. cbn.
    repeat split; try discriminate; eauto.
    intros [H | []]. discriminate H.
  - rewrite Hc in *. cbn. repeat split; try discriminate; eauto.
    intros [H | []]. discriminate H.
Qed.




(** ** Inference *)

(** C6.  On every path through [calcular] (early return, success, any
    exception in the [try] block) the tensors it created are disposed
    before it returns: the set of allocated tensors is what it was, and no
    id handed out during the call is still allocated. *)
Theorem calcular_releases_transients :
  forall (env : Env) (s : State),
    engine_wf (engine s) ->
    live (engine (fst (calcular env s))) = live (engine s) /\
    forall i : nat,
      (next (engine s) <= i)%nat -> i ∉ live (engine (fst (calcular env s))).
Proof.
  intros env s He.
  destruct (calcular_frame env s) as (_ & _ & _ & _ & _ & _ & _ & _ & Hl).
  specialize (Hl He). split; [exact Hl |].
  intros i Hi Hin. rewrite Hl in Hin. specialize (He i Hin). lia.
Qed.

Lemma calcular_releases_transients_witness :
  engine_wf (engine (ready_with "2" "3")) /\
  live (engine (fst (calcular healthy (ready_with "2" "3"))))
  = live (engine (ready_with "2" "3")).
Proof.
  assert (H : engine_wf (engine (ready_with "2" "3"))).
  { apply (run_wf [Montar; CargaResuelta 0 [] None]). }
  split; [exact H |].
  exact (proj1 (calcular_releases_transients healthy (ready_with "2" "3") H)).
Defined.

(** C9, as the code has it.  What [calcular] shows is a function of the
    model, the two inputs and the behaviour of the backend: run a second
    time on the state the first run left, under the same backend
    conditions, it shows the same result; and under whatever backend
    conditions the second run is made, the two results differ only when
    one of them is the error marker. *)
Theorem calcular_twice_same_result :
  forall (env : Env) (s : State),
    state_wf s ->
    resultado (fst (calcular env (fst (calcular env s))))
    = resultado (fst (calcular env s)) /\
    forall env' : Env,
      resultado (fst (calcular env' (fst (calcular env s))))
      = resultado (fst (calcular env s)) \/
      resultado (fst (calcular env s)) = Some "Error"%string \/
      resultado (fst (calcular env' (fst (calcular env s))))
      = Some "Error"%string.
Proof.
  intros env s Hwf.
  destruct (modeloActual s) as [m |] eqn:Hm.
  2:{ destruct (calcular_skip env s (or_introl Hm)) as [-> _]. split.
      - now destruct (calcular_skip env s (or_introl Hm)) as [-> _].
      - intros env'. left.
        now destruct (calcular_skip env' s (or_introl Hm)) as [-> _]. }
  destruct (valid_inputs s) eqn:Hv.
  2:{ destruct (calcular_skip env s (or_intror Hv)) as [-> _]. split.
      - now destruct (calcular_skip env s (or_intror Hv)) as [-> _].
      - intros env'. left.
        now destruct (calcular_skip env' s (or_intror Hv)) as [-> _]. }
  split.
  - destruct (calcular_again env env s m Hwf Hm Hv) as [-> ->]. reflexivity.
  - intros env'.
    destruct (calcular_again env env' s m Hwf Hm Hv) as [-> ->].
    destruct (shown_cases env m (parseFloat (valA s)) (parseFloat (valB s))
                (weights_alive m (engine s))) as [H1 | [err1 H1]];
      [| right; left; now rewrite H1].
    destruct (shown_cases env' m (parseFloat (valA s)) (parseFloat (valB s))
                (weights_alive m (engine s))) as [H2 | [err2 H2]];
      [| right; right; now rewrite H2].
    left. now rewrite H1, H2.
Qed.

Lemma calcular_twice_same_result_witness :
  state_wf (ready_with "10" "4") /\
  resultado (fst (calcular healthy (fst (calcular healthy (ready_with "10" "4")))))
  = resultado (fst (calcular healthy (ready_with "10" "4"))).
Proof.
  assert (H : state_wf (ready_with "10" "4")).
  { apply (step_wf (with_vals ready_suma "10" "") (EscribirB "4")).
    apply (step_wf ready_suma (EscribirA "10")).
    apply (run_wf [Montar; CargaResuelta 0 [] None]). }
  split; [exact H |].
  exact (proj1 (calcular_twice_same_result healthy (ready_with "10" "4") H)).
Defined.

(** C9, as stated, fails: the same model and the same two inputs show the
    error marker in a run during which the backend fails and [5.00] in the
    run after it, and the other way round. *)
Lemma backend_failure_changes_result :
  modeloActual (ready_with "2" "3") = Some synthetic_suma /\
  modeloActual (fst (calcular failing (ready_with "2" "3")))
  = Some synthetic_suma /\
  valA (fst (calcular failing (ready_with "2" "3"))) = "2"%string /\
  valB (fst (calcular failing (ready_with "2" "3"))) = "3"%string /\
  resultado (fst (calcular failing (ready_with "2" "3")))
  = Some "Error"%string /\
  resultado (fst (calcular healthy
                    (fst (calcular failing (ready_with "2" "3")))))
  = Some "5.00"%string /\
  resultado (fst (calcular healthy (ready_with "2" "3")))
  = Some "5.00"%string /\
  resultado (fst (calcular failing
                    (fst (calcular healthy (ready_with "2" "3")))))
  = Some "Error"%string.
Proof. repeat split; vm_compute; reflexivity. Qed.

(** C7.  When the [try] block of [calcular] throws, the error marker is
    shown in place of a number, [predict] has been called once and not
    again, the promise of [calcular] is not rejected, model and loading
    flag are as before, the registry of tensors is as before, and any later
    run shows what it would have shown had the failed run not happened. *)
Theorem inference_error_is_contained :
  forall (env : Env) (s : State) (m : LayersModel) (err : Error),
    state_wf s ->
    modeloActual s = Some m ->
    valid_inputs s = true ->
    fst (fst (fst (calcular_try env m (parseFloat (valA s))
                                (parseFloat (valB s)) (engine s))))
    = Throw err ->
    resultado (fst (calcular env s)) = Some "Error"%string /\
    snd (calcular env s)
    = [PredictCalled [cast binary32 (parseFloat (valA s));
                      cast binary32 (parseFloat (valB s))];
       ConsoleError] /\
    modeloActual (fst (calcular env s)) = Some m /\
    cargando (fst (calcular env s)) = cargando s /\
    live (engine (fst (calcular env s))) = live (engine s) /\
    forall env' : Env,
      resultado (fst (calcular env' (fst (calcular env s))))
      = resultado (fst (calcular env' s)).
Proof.
  intros env s m err Hwf Hm Hv Hthrow.
  pose proof (calcular_wf env s Hwf) as Hwf'.
  destruct (calcular_frame env s) as (Hm' & _ & Ha & Hb & Hc & _ & _ & _ & Hl).
  specialize (Hl (proj1 Hwf)).
  split.
  { rewrite (calcular_run env s m Hm Hv). cbn [resultado with_result].
    now rewrite Hthrow. }
  split.
  { unfold calcular, valid_inputs in *. rewrite Hm.
    apply andb_true_iff in Hv as [Hv1 Hv2].
    rewrite negb_true_iff in Hv1, Hv2. rewrite Hv1, Hv2. cbn zeta.
    revert Hthrow. unfold calcular_try. cbn -[predict].
    destruct (predict _ _ _ _) as [[p e2] | err']; cbn.
    - intros ->. reflexivity.
    - intros _. reflexivity. }
  split; [now rewrite Hm' |]. split; [exact Hc |]. split; [exact Hl |].
  intros env'.
  set (s1 := fst (calcular env s)) in *.
  assert (Hm1 : modeloActual s1 = Some m) by (now rewrite Hm').
  assert (Hv1 : valid_inputs s1 = true).
  { unfold valid_inputs in *. now rewrite Ha, Hb. }
  rewrite (calcular_run env' s1 m Hm1 Hv1), (calcular_run env' s m Hm Hv).
  cbn [resultado with_result].
  rewrite !try_text, Ha, Hb.
  - now rewrite (weights_alive_live m (engine s1) (engine s)).
  - apply Hwf, Hm.
  - apply Hwf', Hm1.
Qed.

Lemma inference_error_is_contained_witness :
  state_wf (ready_with "2" "3") /\
  modeloActual (ready_with "2" "3") = Some synthetic_suma /\
  valid_inputs (ready_with "2" "3") = true /\
  resultado (fst (calcular failing (ready_with "2" "3"))) = Some "Error"%string /\
  resultado (fst (calcular healthy (fst (calcular failing (ready_with "2" "3")))))
  = resultado (fst (calcular healthy (ready_with "2" "3"))).
Proof.
  assert (H : state_wf (ready_with "2" "3")).
  { apply (step_wf (with_vals ready_suma "2" "") (EscribirB "3")).
    apply (step_wf ready_suma (EscribirA "2")).
    apply (run_wf [Montar; CargaResuelta 0 [] None]). }
  assert (Hm : modeloActual (ready_with "2" "3") = Some synthetic_suma).
  { vm_compute. reflexivity. }
  assert (Hv : valid_inputs (ready_with "2" "3") = true).
  { vm_compute. reflexivity. }
  destruct (inference_error_is_contained failing (ready_with "2" "3")
              synthetic_suma BackendError H Hm Hv eq_refl)
    as (H1 & _ & _ & _ & _ & H6).
  split; [exact H |]. split; [exact Hm |]. split; [exact Hv |].
  split; [exact H1 | exact (H6 healthy)].
Defined.

(** C4, as the code has it.  When an input is empty or parses to NaN,
    [calcular] computes nothing: the state, the engine included, is
    exactly what it was and [predict] is not called.  The notice is raised
    only when a model is present and both inputs are non-empty; with an
    empty input, or without a model, [calcular] returns silently. *)
Theorem invalid_input_computes_nothing :
  forall (env : Env) (s : State),
    valid_inputs s = false ->
    fst (calcular env s) = s /\
    (forall x, ~ In (PredictCalled x) (snd (calcular env s))) /\
    snd (calcular env s)
    = match modeloActual s with
      | Some _ =>
          if (String.eqb (valA s) "" || String.eqb (valB s) "")%bool
          then []
          else [Alert notice]
      | None => []
      end.
Proof.
  intros env s Hv.
  destruct (calcular_skip env s (or_intror Hv)) as [H1 H2].
  split; [exact H1 |]. split; [exact H2 |].
  unfold calcular, valid_inputs in *.
  destruct (modeloActual s); [| reflexivity].
  destruct (String.eqb (valA s) "" || String.eqb (valB s) "")%bool;
    [reflexivity |].
  cbn in Hv. rewrite negb_false_iff in Hv. now rewrite Hv.
Qed.

Lemma invalid_input_computes_nothing_witness :
  valid_inputs (ready_with "abc" "5") = false /\
  fst (calcular healthy (ready_with "abc" "5")) = ready_with "abc" "5" /\
  snd (calcular healthy (ready_with "abc" "5")) = [Alert notice].
Proof.
  assert (Hv : valid_inputs (ready_with "abc" "5") = false).
  { vm_compute. reflexivity. }
  destruct (invalid_input_computes_nothing healthy (ready_with "abc" "5") Hv)
    as (H1 & _ & H3).
  split; [exact Hv |]. split; [exact H1 | exact H3].
Defined.

(** C4, as stated, fails: with a model in place and the first input
    empty, [calcular] raises no notice at all. *)
Lemma empty_input_raises_no_notice :
  modeloActual (ready_with "" "5") <> None /\
  disabled (ready_with "" "5") = false /\
  valA (ready_with "" "5") = ""%string /\
  snd (calcular healthy (ready_with "" "5")) = [].
Proof.
  split; [vm_compute; discriminate |].
  repeat split; vm_compute; reflexivity.
Qed.

(** C10.  Two non-empty inputs that [parseFloat] reads as finite numbers
    are accepted whatever follows their numeric prefix: no notice is
    raised, and with a model in place [predict] is called on the two
    parsed numbers stored as [float32] and a result is shown. *)
Theorem numeric_prefix_is_accepted :
  forall (env : Env) (s : State) (a b : Q),
    valA s <> ""%string ->
    valB s <> ""%string ->
    parseFloat (valA s) = Fin a ->
    parseFloat (valB s) = Fin b ->
    (forall msg, ~ In (Alert msg) (snd (calcular env s))) /\
    forall m : LayersModel,
      modeloActual s = Some m ->
      In (PredictCalled [round binary32 a; round binary32 b])
         (snd (calcular env s)) /\
      resultado (fst (calcular env s)) <> None.
Proof.
  intros env s a b Ha Hb Hpa Hpb.
  assert (Hv : valid_inputs s = true).
  { unfold valid_inputs. rewrite Hpa, Hpb.
    apply String.eqb_neq in Ha, Hb. now rewrite Ha, Hb. }
  apply String.eqb_neq in Ha, Hb.
  destruct (modeloActual s) as [m |] eqn:Hm.
  2:{ split; [| intros m [=]]. unfold calcular. rewrite Hm. intros msg []. }
  assert (Hfx : exists tl,
             snd (calcular env s)
             = PredictCalled [round binary32 a; round binary32 b] :: tl /\
             (tl = [] \/ tl = [ConsoleError])).
  { unfold calcular. rewrite Hm, Hpa, Hpb, Ha, Hb. cbn -[calcular_try].
    unfold calcular_try. cbn -[predict].
    destruct (predict _ _ _ _) as [[p e2] | err']; cbn.
    - match goal with |- context [match ?x with Ok _ => _ | Throw _ => _ end] =>
        destruct x end; cbn; eexists; (split; [reflexivity | auto]).
    - eexists. split; [reflexivity | auto]. }
  destruct Hfx as (tl & Hfx & Htl). rewrite Hfx. split.
  - intros msg [H | H]; [discriminate H |].
    destruct Htl as [-> | ->]; [destruct H |].
    destruct H as [H | []]. discriminate H.
  - intros m0 [= <-]. split; [now left |].
    rewrite (calcular_run env s m Hm Hv). discriminate.
Qed.

Lemma numeric_prefix_is_accepted_witness :
  modeloActual (ready_with "3abc" "4") = Some synthetic_suma /\
  parseFloat "3abc" = Fin 3 /\
  parseFloat "4" = Fin 4 /\
  In (PredictCalled [round binary32 3; round binary32 4])
     (snd (calcular healthy (ready_with "3abc" "4"))) /\
  resultado (fst (calcular healthy (ready_with "3abc" "4")))
  = Some "7.00"%string.
Proof.
  assert (Hm : modeloActual (ready_with "3abc" "4") = Some synthetic_suma).
  { vm_compute. reflexivity. }
  assert (Hpa : parseFloat "3abc" = Fin 3).
  { change (parseFloat ("3" ++ "abc") = Fin 3).
    rewrite (parseFloat_ignores_tail "3" "abc" eq_refl eq_refl).
    vm_compute. reflexivity. }
  assert (Hpb : parseFloat "4" = Fin 4) by (vm_compute; reflexivity).
  assert (Hna : valA (ready_with "3abc" "4") <> ""%string) by discriminate.
  assert (Hnb : valB (ready_with "3abc" "4") <> ""%string) by discriminate.
  destruct (numeric_prefix_is_accepted healthy (ready_with "3abc" "4")
              3 4 Hna Hnb Hpa Hpb) as (_ & H2).
  destruct (H2 synthetic_suma Hm) as (H3 & _).
  split; [exact Hm |]. split; [exact Hpa |]. split; [exact Hpb |].
  split; [exact H3 | vm_compute; reflexivity].
Defined.

(** ** The lifecycle of the model *)

(** C8, as the code has it.  As long as no resolution is started while
    another is in flight, the model goes through Idle, Loading and Ready
    (from file or in memory) by the transitions of the state machine,
    entering Loading again whenever the operation changes; a resolution is
    in flight exactly in Loading; and outside Ready the slot is empty and
    [calcular] computes nothing. *)
Theorem lifecycle_without_overlap :
  forall s : State,
    reach s ->
    (pending s <> [] <-> phase s = Loading) /\
    ((forall p, phase s <> Ready p) ->
     modeloActual s = None /\ forall env, calcular env s = (s, [])) /\
    (forall op, Operacion_eqb op (operacion s) = false ->
                in_sequence s (Seleccionar op) = true ->
                phase (fst (step s (Seleccionar op))) = Loading) /\
    (forall ev, in_sequence s ev = true ->
                lifecycle (phase s) (phase (fst (step s ev)))).
Proof.
  intros s Hr. pose proof (reach_one_in_flight s Hr) as Hinv.
  split; [| split; [| split]].
  - unfold phase.
    destruct Hinv as [[Hp Hc] | (op & Hp & Hc & Hm)]; rewrite Hp, Hc.
    + split; [congruence |]. destruct (modeloActual s); discriminate.
    + split; [reflexivity | discriminate].
  - intros Hnot.
    assert (Hm : modeloActual s = None).
    { destruct Hinv as [[Hp Hc] | (op & Hp & Hc & Hm)]; [| exact Hm].
      unfold phase in Hnot. rewrite Hc in Hnot.
      destruct (modeloActual s); [| reflexivity].
      now destruct (Hnot (provenance s)). }
    split; [exact Hm |]. intros env. unfold calcular. now rewrite Hm.
  - intros op Hop _. cbn. rewrite Hop. reflexivity.
  - intros ev Hseq. now apply step_lifecycle.
Qed.

Lemma lifecycle_without_overlap_witness :
  reach (fst (step inicial Montar)) /\
  phase (fst (step inicial Montar)) = Loading /\
  modeloActual (fst (step inicial Montar)) = None /\
  calcular healthy (fst (step inicial Montar))
  = (fst (step inicial Montar), []).
Proof.
  assert (Hr : reach (fst (step inicial Montar))).
  { apply (reach_step inicial Montar reach_inicial). reflexivity. }
  destruct (lifecycle_without_overlap _ Hr) as (H1 & H2 & _ & _).
  assert (Hn : forall p, phase (fst (step inicial Montar)) <> Ready p).
  { intros p. discriminate. }
  destruct (H2 Hn) as [Hm Hc].
  split; [exact Hr |]. split; [reflexivity |].
  split; [exact Hm | exact (Hc healthy)].
Defined.

(** C8, as stated, fails: with the resolution for subtraction still in
    flight, the slot holds the model for addition, the button is enabled,
    and [calcular] computes with it. *)
Lemma stale_model_while_loading :
  pending overlapped = [resta] /\
  operacion overlapped = resta /\
  modeloActual overlapped = Some synthetic_suma /\
  disabled overlapped = false /\
  resultado (fst (calcular healthy overlapped)) = Some "5.00"%string /\
  resultado (fst (step (fst (step overlapped (Pulsar healthy)))
                       (LecturaResuelta 0))) = Some "5.00"%string.
Proof. repeat split; vm_compute; reflexivity. Qed.

(** ** Addition and subtraction by the synthetic model *)

(** C1, as the code has it.  With the synthetic model for addition in
    place and a backend that does not fail, take two finite inputs [a] and
    [b].  When storing them as [float32] and adding them does not
    overflow, the prediction is a finite [v] that differs from [a + b] by
    at most three [float32] roundings, and the page shows [toFixed(2)] of
    [v], which is a two-decimal text whenever [|v| < 10^21].  Nothing
    overflows when both inputs are at most [2^126] in magnitude. *)
Theorem add_within_tolerance :
  forall (env : Env) (s : State) (m : LayersModel) (a b : Q),
    modeloActual s = Some m ->
    is_synthetic suma m ->
    state_wf s ->
    weights_alive m (engine s) = true ->
    predict_ok env = true ->
    data_ok env = true ->
    valA s <> ""%string ->
    valB s <> ""%string ->
    parseFloat (valA s) = Fin a ->
    parseFloat (valB s) = Fin b ->
    (forall xa xb v : Q,
       round binary32 a = Fin xa ->
       round binary32 b = Fin xb ->
       round binary32 (xa + xb) = Fin v ->
       resultado (fst (calcular env s)) = Some (toFixed2 (Fin v)) /\
       (Qabs (v - (a + b))
        <= 3 * eps32 * (Qabs a + Qabs b) + pow2 (-148))%Q /\
       ((Qabs v < inject_Z (10 ^ 21))%Q ->
        two_decimals (toFixed2 (Fin v)))) /\
    ((Qabs a <= pow2 126)%Q -> (Qabs b <= pow2 126)%Q ->
     exists xa xb v : Q,
       round binary32 a = Fin xa /\ round binary32 b = Fin xb /\
       round binary32 (xa + xb) = Fin v).
Proof.
  intros env s m a b Hm Hsyn Hwf Hal Hp Hd HvA HvB Hpa Hpb. split.
  - intros xa xb v Hxa Hxb Hv.
    exact (synthetic_within_tolerance suma env s m a b xa xb v
             Hm Hsyn Hwf Hal Hp Hd HvA HvB Hpa Hpb Hxa Hxb Hv).
  - intros Ha Hb. exact (synthetic_finite suma a b Ha Hb).
Qed.

Lemma ready_with_wf a b : state_wf (ready_with a b).
Proof.
  apply (step_wf (with_vals ready_suma a "") (EscribirB b)).
  apply (step_wf ready_suma (EscribirA a)).
  apply (run_wf [Montar; CargaResuelta 0 [] None]).
Qed.

Lemma ready_resta_with_wf a b : state_wf (ready_resta_with a b).
Proof.
  apply (step_wf (with_vals ready_resta a "") (EscribirB b)).
  apply (step_wf ready_resta (EscribirA a)).
  apply (run_wf [Montar; CargaResuelta 0 [] None;
                 Seleccionar resta; CargaResuelta 0 [] None]).
Qed.

Lemma add_within_tolerance_witness :
  modeloActual (ready_with "2" "3") = Some synthetic_suma /\
  is_synthetic suma synthetic_suma /\
  parseFloat "2" = Fin 2 /\
  parseFloat "3" = Fin 3 /\
  round binary32 2 = Fin 2 /\
  round binary32 3 = Fin 3 /\
  round binary32 (2 + 3) = Fin 5 /\
  resultado (fst (calcular healthy (ready_with "2" "3")))
  = Some (toFixed2 (Fin 5)) /\
  toFixed2 (Fin 5) = "5.00"%string /\
  (Qabs (5 - (2 + 3)) <= 3 * eps32 * (Qabs 2 + Qabs 3) + pow2 (-148))%Q.
Proof.
  assert (Hm : modeloActual (ready_with "2" "3") = Some synthetic_suma).
  { vm_compute. reflexivity. }
  assert (Hsyn : is_synthetic suma synthetic_suma).
  { exists [], engine0. eexists. vm_compute. reflexivity. }
  assert (Hpa : parseFloat "2" = Fin 2) by (vm_compute; reflexivity).
  assert (Hpb : parseFloat "3" = Fin 3) by (vm_compute; reflexivity).
  assert (Hal : weights_alive synthetic_suma (engine (ready_with "2" "3")) = true).
  { vm_compute. reflexivity. }
  assert (Hxa : round binary32 2 = Fin 2) by (vm_compute; reflexivity).
  assert (Hxb : round binary32 3 = Fin 3) by (vm_compute; reflexivity).
  assert (Hv : round binary32 (2 + 3) = Fin 5) by (vm_compute; reflexivity).
  assert (Hna : valA (ready_with "2" "3") <> ""%string) by discriminate.
  assert (Hnb : valB (ready_with "2" "3") <> ""%string) by discriminate.
  destruct (add_within_tolerance healthy (ready_with "2" "3") synthetic_suma
              2 3 Hm Hsyn (ready_with_wf "2" "3") Hal eq_refl eq_refl
              Hna Hnb Hpa Hpb) as (Hres & _).
  destruct (Hres 2%Q 3%Q 5%Q Hxa Hxb Hv) as (Hshow & Htol & _).
  split; [exact Hm |]. split; [exact Hsyn |].
  split; [exact Hpa |]. split; [exact Hpb |].
  split; [exact Hxa |]. split; [exact Hxb |]. split; [exact Hv |].
  split; [exact Hshow |]. split; [vm_compute; reflexivity | exact Htol].
Defined.

(** C1, as stated, fails: 1e39 and 0 are finite numbers, but 1e39 does
    not fit a [float32] tensor, and the page shows Infinity for their sum. *)
Lemma add_overflows_float32 :
  modeloActual (ready_with "1e39" "0") = Some synthetic_suma /\
  isFinite (parseFloat "1e39") = true /\
  isFinite (parseFloat "0") = true /\
  resultado (fst (calcular healthy (ready_with "1e39" "0")))
  = Some "Infinity"%string.
Proof. repeat split; vm_compute; reflexivity. Qed.

(** C2, as the code has it.  The synthetic model has one dense unit with
    kernel [1, 1] for addition and [1, -1] for subtraction and bias 0.
    With the one for subtraction in place and a backend that does not
    fail, take two finite inputs [a] and [b].  When storing them as
    [float32] and subtracting them does not overflow, the prediction is a
    finite [v] that differs from [a - b] by at most three [float32]
    roundings, and the page shows [toFixed(2)] of [v], which is a
    two-decimal text whenever [|v| < 10^21].  Nothing overflows when both
    inputs are at most [2^126] in magnitude. *)
Theorem subtract_within_tolerance :
  (forall (op : Operacion) (m : LayersModel),
     is_synthetic op m ->
     exists l : Dense,
       m = Sequential [l] /\
       vals (kernel l)
       = [Fin 1; match op with suma => Fin 1 | resta => Fin (-1) end] /\
       vals (bias l) = [Fin 0]) /\
  forall (env : Env) (s : State) (m : LayersModel) (a b : Q),
    modeloActual s = Some m ->
    is_synthetic resta m ->
    state_wf s ->
    weights_alive m (engine s) = true ->
    predict_ok env = true ->
    data_ok env = true ->
    valA s <> ""%string ->
    valB s <> ""%string ->
    parseFloat (valA s) = Fin a ->
    parseFloat (valB s) = Fin b ->
    (forall xa xb v : Q,
       round binary32 a = Fin xa ->
       round binary32 b = Fin xb ->
       round binary32 (xa - xb) = Fin v ->
       resultado (fst (calcular env s)) = Some (toFixed2 (Fin v)) /\
       (Qabs (v - (a - b))
        <= 3 * eps32 * (Qabs a + Qabs b) + pow2 (-148))%Q /\
       ((Qabs v < inject_Z (10 ^ 21))%Q ->
        two_decimals (toFixed2 (Fin v)))) /\
    ((Qabs a <= pow2 126)%Q -> (Qabs b <= pow2 126)%Q ->
     exists xa xb v : Q,
       round binary32 a = Fin xa /\ round binary32 b = Fin xb /\
       round binary32 (xa - xb) = Fin v).
Proof.
  split.
  - intros op m Hsyn. destruct (is_synthetic_layer op m Hsyn) as [n ->].
    exists (synthetic_layer op n). now destruct op.
  - intros env s m a b Hm Hsyn Hwf Hal Hp Hd HvA HvB Hpa Hpb. split.
    + intros xa xb v Hxa Hxb Hv.
      exact (synthetic_within_tolerance resta env s m a b xa xb v
               Hm Hsyn Hwf Hal Hp Hd HvA HvB Hpa Hpb Hxa Hxb Hv).
    + intros Ha Hb. exact (synthetic_finite resta a b Ha Hb).
Qed.

Lemma subtract_within_tolerance_witness :
  modeloActual (ready_resta_with "10" "4") = Some synthetic_resta /\
  is_synthetic resta synthetic_resta /\
  parseFloat "10" = Fin 10 /\
  parseFloat "4" = Fin 4 /\
  round binary32 10 = Fin 10 /\
  round binary32 4 = Fin 4 /\
  round binary32 (10 - 4) = Fin 6 /\
  resultado (fst (calcular healthy (ready_resta_with "10" "4")))
  = Some (toFixed2 (Fin 6)) /\
  toFixed2 (Fin 6) = "6.00"%string /\
  (Qabs (6 - (10 - 4)) <= 3 * eps32 * (Qabs 10 + Qabs 4) + pow2 (-148))%Q.
Proof.
  assert (Hm : modeloActual (ready_resta_with "10" "4") = Some synthetic_resta).
  { vm_compute. reflexivity. }
  assert (Hsyn : is_synthetic resta synthetic_resta).
  { exists [], (engine ready_suma). eexists. vm_compute. reflexivity. }
  assert (Hpa : parseFloat "10" = Fin 10) by (vm_compute; reflexivity).
  assert (Hpb : parseFloat "4" = Fin 4) by (vm_compute; reflexivity).
  assert (Hal : weights_alive synthetic_resta
                  (engine (ready_resta_with "10" "4")) = true).
  { vm_compute. reflexivity. }
  assert (Hxa : round binary32 10 = Fin 10) by (vm_compute; reflexivity).
  assert (Hxb : round binary32 4 = Fin 4) by (vm_compute; reflexivity).
  assert (Hv : round binary32 (10 - 4) = Fin 6) by (vm_compute; reflexivity).
  assert (Hna : valA (ready_resta_with "10" "4") <> ""%string) by discriminate.
  assert (Hnb : valB (ready_resta_with "10" "4") <> ""%string) by discriminate.
  destruct (proj2 subtract_within_tolerance healthy
              (ready_resta_with "10" "4") synthetic_resta
              10%Q 4%Q Hm Hsyn (ready_resta_with_wf "10" "4") Hal
              eq_refl eq_refl Hna Hnb Hpa Hpb) as (Hres & _).
  destruct (Hres 10%Q 4%Q 6%Q Hxa Hxb Hv) as (Hshow & Htol & _).
  split; [exact Hm |]. split; [exact Hsyn |].
  split; [exact Hpa |]. split; [exact Hpb |].
  split; [exact Hxa |]. split; [exact Hxb |]. split; [exact Hv |].
  split; [exact Hshow |]. split; [vm_compute; reflexivity | exact Htol].
Defined.

(** C2, as stated, fails: 1e39 is a finite number and 1e39 - 1e39 is 0,
    but both inputs become Infinity in the [float32] tensor and the page
    shows NaN. *)
Lemma subtract_overflows_float32 :
  modeloActual (ready_resta_with "1e39" "1e39") = Some synthetic_resta /\
  isFinite (parseFloat "1e39") = true /\
  resultado (fst (calcular healthy (ready_resta_with "1e39" "1e39")))
  = Some "NaN"%string.
Proof. repeat split; vm_compute; reflexivity. Qed.

(** * Further properties of the code *)

(** ** Arithmetic of the synthetic model *)

Module Float32Facts.
Import Num Js Tf Calc Props Float32.
Import NumFacts JsFacts EngineFacts CalcFacts ResolverFacts SyntheticFacts.
Local Open Scope Q_scope.

Lemma cast32_is_f32 x : is_f32 (cast binary32 x).
Proof.
  unfold is_f32. destruct x as [| s | q]; try reflexivity.
  apply cast32_round.
Qed.

Lemma fadd32_is_f32 x y : is_f32 (fadd32 x y).
Proof.
  unfold is_f32, fadd32, fadd.
  destruct x as [| s | a], y as [| t | b]; try reflexivity.
  - now destruct (Bool.eqb s t).
  - apply cast32_round.
Qed.

Lemma f32_representable q : is_f32 (Fin q) -> representable binary32 q.
Proof. intros H. exact (round_representable binary32 prec32 q q H). Qed.

Lemma f32_reduced q : is_f32 (Fin q) -> Qred q = q.
Proof.
  intros H. pose proof (round32_id q (f32_representable q H)) as H'.
  unfold is_f32 in H. cbn [cast] in H. rewrite H in H'. now injection H'.
Qed.

Lemma fneg_is_f32 x : is_f32 x -> is_f32 (fneg x).
Proof.
  destruct x as [| s | q]; try reflexivity. intros H.
  unfold is_f32. cbn [fneg cast].
  rewrite (round32_id _ (representable_opp binary32 prec32 q (f32_representable q H))).
  now rewrite Qred_opp, (f32_reduced q H).
Qed.

Lemma fmul32_one x : is_f32 x -> fmul32 x (Fin 1) = x.
Proof.
  destruct x as [| s | q]; intros H; try reflexivity.
  - now destruct s.
  - unfold fmul32, fmul.
    rewrite (round_proper binary32 (q * 1) q) by ring. exact H.
Qed.

Lemma fmul32_minus_one x : is_f32 x -> fmul32 x (Fin (-1)) = fneg x.
Proof.
  destruct x as [| s | q]; intros H; try reflexivity.
  unfold fmul32, fmul.
  rewrite (round_proper binary32 (q * -1) (- q)) by ring.
  exact (fneg_is_f32 (Fin q) H).
Qed.

Lemma fadd32_zero_l x : is_f32 x -> fadd32 (Fin 0) x = x.
Proof.
  destruct x as [| s | q]; intros H; try reflexivity.
  unfold fadd32, fadd. rewrite (round_proper binary32 (0 + q) q) by ring.
  exact H.
Qed.

Lemma fadd32_zero_r' x : is_f32 x -> fadd32 x (Fin 0) = x.
Proof.
  destruct x as [| s | q]; intros H; try reflexivity.
  unfold fadd32, fadd. rewrite (round_proper binary32 (q + 0) q) by ring.
  exact H.
Qed.

(** On any two [float32] values the forward pass of the synthetic layer is
    one addition of the first and the weighted second. *)
Lemma synthetic_forward_any op n x y :
  is_f32 x -> is_f32 y ->
  forward_of (Sequential [synthetic_layer op n]) [1%nat; 2%nat] [x; y]
  = Ok (RawOne [1%nat; 1%nat] [fadd32 x (signed op y)]).
Proof.
  intros Hx Hy.
  unfold forward_of, layers_apply, dense_apply, synthetic_layer.
  cbn -[fadd32 fmul32]. unfold dot. cbn -[fadd32 fmul32].
  rewrite (fmul32_one x Hx), (fadd32_zero_l x Hx).
  assert (Hw : fmul32 y (w2_of op) = signed op y).
  { destruct op; [apply fmul32_one | apply fmul32_minus_one]; exact Hy. }
  rewrite Hw. now rewrite (fadd32_zero_r' _ (fadd32_is_f32 x (signed op y))).
Qed.

Lemma synthetic_shown_any op n env nA nB :
  predict_ok env = true -> data_ok env = true ->
  shown env (Sequential [synthetic_layer op n]) nA nB true
  = Ok (toFixed2 (synthetic_output op nA nB)).
Proof.
  intros Hp Hd. unfold shown. rewrite Hp, Hd. cbn [negb].
  rewrite (synthetic_forward_any op n _ _
             (cast32_is_f32 nA) (cast32_is_f32 nB)).
  cbn [first_vals map].
  now rewrite (fadd32_is_f32 (cast binary32 nA) (signed op (cast binary32 nB))).
Qed.

Lemma fadd32_comm x y : fadd32 x y = fadd32 y x.
Proof.
  unfold fadd32, fadd. destruct x as [| s | a], y as [| t | b]; try reflexivity.
  - destruct s, t; reflexivity.
  - apply round_proper. ring.
Qed.

(** *** Symmetry of rounding *)

Lemma Qfloor_unique x k :
  inject_Z k <= x -> x < inject_Z (k + 1) -> Qfloor x = k.
Proof.
  intros H1 H2. pose proof (Qfloor_le x) as H3. pose proof (Qlt_floor x) as H4.
  assert (Ha : inject_Z (Qfloor x) < inject_Z (k + 1)) by lra.
  assert (Hb : inject_Z k < inject_Z (Qfloor x + 1)) by lra.
  rewrite <- Zlt_Qlt in Ha, Hb. lia.
Qed.

Lemma rne_opp q : rne (- q) = (- rne q)%Z.
Proof.
  pose proof (Qfloor_le q) as Hlo. pose proof (Qlt_floor q) as Hhi.
  rewrite inject_Z_succ in Hhi.
  destruct (Qeq_dec q (inject_Z (Qfloor q))) as [Hint | Hfrac].
  - rewrite (rne_Z q (Qfloor q) Hint).
    apply rne_Z. rewrite inject_Z_opp. now rewrite <- Hint.
  - assert (Hlt : inject_Z (Qfloor q) < q).
    { apply Qle_lteq in Hlo as [Hlt | Heq]; [exact Hlt |].
      exfalso. apply Hfrac. now symmetry. }
    assert (Hf : Qfloor (- q) = (- Qfloor q - 1)%Z).
    { apply Qfloor_unique.
      - unfold Z.sub. rewrite inject_Z_plus, inject_Z_opp.
        change (inject_Z (- (1))) with (- (1)). lra.
      - replace (- Qfloor q - 1 + 1)%Z with (- Qfloor q)%Z by lia.
        rewrite inject_Z_opp. lra. }
    unfold rne. rewrite Hf.
    assert (Hi : inject_Z (- Qfloor q - 1) == - inject_Z (Qfloor q) - 1).
    { unfold Z.sub. rewrite inject_Z_plus, inject_Z_opp. reflexivity. }
    set (fl := Qfloor q) in *.
    destruct (Qcompare_spec (q - inject_Z fl) (1 # 2)) as [He | Hl | Hg];
    destruct (Qcompare_spec (- q - inject_Z (- fl - 1)) (1 # 2))
      as [He' | Hl' | Hg']; rewrite Hi in *; try lra; try lia.
    rewrite Z.even_sub, Z.even_opp. destruct (Z.even fl); cbn; lia.
Qed.

Lemma fexp_opp f q : ~ q == 0 -> fexp f (- q) = fexp f q.
Proof.
  intros Hq. unfold fexp.
  rewrite (ilog2_proper (Qabs (- q)) (Qabs q)); [reflexivity | |].
  - apply Qabs_pos_iff. intros H. apply Hq. lra.
  - apply Qabs_opp.
Qed.

(** Rounding to nearest even is symmetric about zero. *)
Lemma round_opp f q : round f (- q) = fneg (round f q).
Proof.
  destruct (Qeq_dec q 0) as [Hz | Hnz].
  - rewrite (round_zero f q Hz), (round_zero f (- q)); [reflexivity |].
    rewrite Hz. reflexivity.
  - assert (Hnz' : ~ - q == 0) by (intros H; apply Hnz; lra).
    rewrite (round_nonzero f q Hnz), (round_nonzero f (- q) Hnz'). cbn zeta.
    rewrite (fexp_opp f q Hnz).
    set (e := fexp f q).
    rewrite (rne_proper (- q * pow2 (- e)) (- (q * pow2 (- e)))) by ring.
    rewrite rne_opp.
    set (n := rne (q * pow2 (- e))).
    assert (Hx : inject_Z (- n) * pow2 e == - (inject_Z n * pow2 e)).
    { rewrite inject_Z_opp. ring. }
    rewrite (Qle_bool_proper (pow2 (emax f)) (pow2 (emax f))
               (Qabs (inject_Z (- n) * pow2 e)) (Qabs (inject_Z n * pow2 e)))
      by (try reflexivity; rewrite Hx; apply Qabs_opp).
    destruct (Qle_bool (pow2 (emax f)) _).
    + cbn [fneg]. f_equal.
      destruct (Qle_bool 0 q) eqn:H1, (Qle_bool 0 (- q)) eqn:H2;
        try reflexivity; exfalso.
      * apply Qle_bool_iff in H1, H2. apply Hnz. lra.
      * assert (0 <= q \/ 0 <= - q) as [H | H]
          by (destruct (Qlt_le_dec q 0); [right | left]; lra);
          apply Qle_bool_iff in H; congruence.
    + cbn [fneg]. f_equal. rewrite (Qred_complete _ _ Hx). apply Qred_opp.
Qed.

(** Swapping the operands of a subtraction negates the result. *)
Lemma fadd32_fneg_swap x y :
  is_f32 x -> is_f32 y ->
  fadd32 y (fneg x) = fneg (fadd32 x (fneg y)).
Proof.
  intros Hx Hy.
  destruct x as [| s | a], y as [| t | b]; try reflexivity;
    try (cbn; repeat match goal with c : bool |- _ => destruct c end;
         reflexivity).
  change (round binary32 (b + - a) = fneg (round binary32 (a + - b))).
  rewrite <- round_opp. apply round_proper. ring.
Qed.

End Float32Facts.

(** ** Runs of [calcular] with the synthetic model *)

Module SynthFacts.
Import Num Js Tf Calc Props Float32 SynthDefs.
Import NumFacts JsFacts EngineFacts CalcFacts ResolverFacts SyntheticFacts
  Float32Facts.

(** What a run of [calcular] that reaches the [try] block does to the
    outside world. *)
Lemma calcular_effects env s m :
  modeloActual s = Some m -> valid_inputs s = true ->
  snd (calcular env s)
  = PredictCalled [cast binary32 (parseFloat (valA s));
                   cast binary32 (parseFloat (valB s))]
    :: match fst (fst (fst (calcular_try env m (parseFloat (valA s))
                                         (parseFloat (valB s)) (engine s)))) with
       | Ok _ => []
       | Throw _ => [ConsoleError]
       end.
Proof.
  intros Hm Hv. unfold calcular, valid_inputs in *. rewrite Hm.
  apply andb_true_iff in Hv as [Hv1 Hv2].
  rewrite negb_true_iff in Hv1, Hv2. rewrite Hv1, Hv2. cbn zeta.
  unfold calcular_try. cbn -[predict].
  destruct (predict _ _ _ _) as [[p e2] | err']; cbn; [| reflexivity].
  match goal with |- context [match ?x with Ok _ => _ | Throw _ => _ end] =>
    destruct x end; reflexivity.
Qed.

Lemma synthetic_calcular op env s m :
  modeloActual s = Some m -> is_synthetic op m ->
  state_wf s -> weights_alive m (engine s) = true ->
  predict_ok env = true -> data_ok env = true ->
  valid_inputs s = true ->
  resultado (fst (calcular env s))
  = Some (toFixed2 (synthetic_output op (parseFloat (valA s))
                                     (parseFloat (valB s)))) /\
  snd (calcular env s)
  = [PredictCalled [cast binary32 (parseFloat (valA s));
                    cast binary32 (parseFloat (valB s))]].
Proof.
  intros Hm Hsyn Hwf Hal Hp Hd Hv.
  destruct (is_synthetic_layer op m Hsyn) as [n ->].
  assert (Ht : fst (fst (fst (calcular_try env
                 (Sequential [synthetic_layer op n]) (parseFloat (valA s))
                 (parseFloat (valB s)) (engine s))))
               = Ok (toFixed2 (synthetic_output op (parseFloat (valA s))
                                                (parseFloat (valB s))))).
  { rewrite try_text by (apply Hwf, Hm). rewrite Hal.
    now apply synthetic_shown_any. }
  split.
  - rewrite (calcular_run env s _ Hm Hv). cbn [resultado with_result].
    now rewrite Ht.
  - rewrite (calcular_effects env s _ Hm Hv). now rewrite Ht.
Qed.

Lemma swapped_valid s : valid_inputs (swapped s) = valid_inputs s.
Proof.
  unfold valid_inputs, swapped. cbn.
  now rewrite (orb_comm (String.eqb (valB s) "")),
              (orb_comm (isNaN (parseFloat (valB s)))).
Qed.

Lemma shown_suma_comm env n nA nB alive :
  shown env (Sequential [synthetic_layer suma n]) nB nA alive
  = shown env (Sequential [synthetic_layer suma n]) nA nB alive.
Proof.
  unfold shown. destruct (negb (predict_ok env)); [reflexivity |].
  destruct (negb alive); [reflexivity |].
  rewrite !(synthetic_forward_any suma n _ _ (cast32_is_f32 _) (cast32_is_f32 _)).
  cbn [signed]. now rewrite fadd32_comm.
Qed.

End SynthFacts.

Module SynthFacts2.
Import Num Js Tf Calc Props Float32 SynthDefs.
Import NumFacts JsFacts EngineFacts CalcFacts ResolverFacts SyntheticFacts
  Float32Facts SynthFacts.
Local Open Scope Q_scope.

Lemma Qabs_opp_eq q : Qabs (- q) = Qabs q.
Proof. destruct q as [a b]. unfold Qabs, Qopp. cbn. now rewrite Z.abs_opp. Qed.

(** A negative number prints as the minus sign before its magnitude. *)
Lemma toFixed2_negative q :
  0 < q -> toFixed2 (Fin (- q)) = String "-" (toFixed2 (Fin q)).
Proof.
  intros Hq. unfold toFixed2. rewrite Qabs_opp_eq.
  assert (H1 : Qle_bool 0 q = true) by (apply Qle_bool_iff; lra).
  assert (H2 : Qle_bool 0 (- q) = false).
  { destruct (Qle_bool 0 (- q)) eqn:H; [| reflexivity].
    apply Qle_bool_iff in H. lra. }
  rewrite H1, H2. now destruct (Qle_bool _ (Qabs q)).
Qed.

Lemma self_difference x :
  is_f32 x ->
  fadd32 x (fneg x) = match x with Fin _ => Fin 0 | _ => NaN end.
Proof.
  destruct x as [| s | q]; intros _; try reflexivity.
  - cbn. now destruct s.
  - unfold fadd32, fadd, fneg. apply round_zero. ring.
Qed.

Lemma round32_integer n :
  (Z.abs n <= 2 ^ 24)%Z -> round binary32 (inject_Z n) = Fin (inject_Z n).
Proof.
  intros Hn.
  assert (Hr : representable binary32 (inject_Z n)).
  { exists n, 0%Z. split; [| split; [exact Hn | split; [discriminate |]]].
    - change (pow2 0) with 1. ring.
    - rewrite Qabs_inject_Z.
      apply Qle_lt_trans with (inject_Z (2 ^ 24)); [now rewrite <- Zle_Qle |].
      vm_compute. reflexivity. }
  rewrite (round32_id _ Hr). f_equal. apply Qcanon.Qred_identity. cbn. apply Z.gcd_1_r.
Qed.

Lemma fixed2_integer k :
  (0 <= k)%Z -> fixed2 (inject_Z k) = (digits_of k ++ ".00")%string.
Proof.
  intros Hk. unfold fixed2.
  assert (Hf : Qfloor (inject_Z k * 100 + (1 # 2)) = (k * 100)%Z).
  { apply Qfloor_unique.
    - rewrite inject_Z_mult. change (inject_Z 100) with 100. lra.
    - rewrite inject_Z_succ, inject_Z_mult. change (inject_Z 100) with 100. lra. }
  rewrite Hf, Z.div_mul by discriminate.
  rewrite Z.mod_mul by discriminate.
  replace (k * 100)%Z with (k * 10 * 10)%Z by lia.
  rewrite Z.mod_mul by discriminate. reflexivity.
Qed.

Lemma toFixed2_integer n :
  (Z.abs n <= 2 ^ 24)%Z -> toFixed2 (Fin (inject_Z n)) = integer_text n.
Proof.
  intros Hn. unfold toFixed2, integer_text.
  assert (Ha : Qabs (inject_Z n) = inject_Z (Z.abs n)) by reflexivity.
  rewrite Ha.
  assert (Hb : Qle_bool (inject_Z (10 ^ 21)) (inject_Z (Z.abs n)) = false).
  { destruct (Qle_bool _ _) eqn:H; [| reflexivity].
    apply Qle_bool_iff in H. rewrite <- Zle_Qle in H.
    assert (2 ^ 24 < 10 ^ 21)%Z by reflexivity. lia. }
  rewrite Hb, fixed2_integer by lia.
  assert (Hs : Qle_bool 0 (inject_Z n) = negb (n <? 0)%Z).
  { apply bool_agree. rewrite Qle_bool_iff, negb_true_iff, Z.ltb_ge.
    change 0 with (inject_Z 0). now rewrite <- Zle_Qle. }
  rewrite Hs. now destruct (n <? 0)%Z.
Qed.

End SynthFacts2.

(** ** The input check *)

Module PrefixFacts.
Import Num Js Tf Calc Props PrefixDefs.
Import NumFacts CalcFacts.

Lemma round_not_nan f q : isNaN (round f q) = false.
Proof.
  unfold round. destruct (Qeq_bool q 0); [reflexivity |].
  now destruct (Qle_bool _ _).
Qed.

Lemma read_digits_none s acc cnt :
  starts_with_digit s = false -> read_digits s acc cnt = (acc, cnt, s).
Proof.
  destruct s as [| c r]; cbn; [reflexivity |]. now intros ->.
Qed.

Lemma read_digits_count s : forall acc cnt,
  cnt <= snd (fst (read_digits s acc cnt)).
Proof.
  induction s as [| c r IH]; intros acc cnt; cbn; [lia |].
  destruct (is_digit c); cbn; [| lia].
  specialize (IH (10 * acc + Z.of_N (N_of_ascii c) - 48) (cnt + 1)). lia.
Qed.

Lemma read_digits_some s acc cnt :
  starts_with_digit s = true -> cnt < snd (fst (read_digits s acc cnt)).
Proof.
  destruct s as [| c r]; cbn; [discriminate |]. intros ->.
  pose proof (read_digits_count r (10 * acc + Z.of_N (N_of_ascii c) - 48)
                (cnt + 1)). lia.
Qed.

(** [parseFloat] yields NaN exactly on the strings without a numeric
    prefix. *)
Lemma parseFloat_nan s : isNaN (parseFloat s) = negb (has_numeric_prefix s).
Proof.
  unfold parseFloat, has_numeric_prefix.
  destruct (read_sign (skip_space s)) as [neg s1].
  destruct (String.prefix "Infinity" s1); [reflexivity |]. cbn [orb].
  destruct (starts_with_digit s1) eqn:Hd.
  - pose proof (read_digits_some s1 0 0 Hd) as Hc.
    destruct (read_digits s1 0 0) as [[i ci] s2]. cbn in Hc.
    match goal with |- context [match ?x with (_, _) => _ end] =>
      destruct x as [[fr cf] s3] end.
    assert (Hz : (ci =? 0) = false) by (apply Z.eqb_neq; lia).
    rewrite Hz. cbn. apply round_not_nan.
  - rewrite (read_digits_none s1 0 0 Hd). cbn [orb].
    destruct s1 as [| c r]; [reflexivity |].
    destruct (Ascii.eqb c "."); [| reflexivity]. cbn [andb].
    destruct (starts_with_digit r) eqn:Hr.
    + pose proof (read_digits_some r 0 0 Hr) as Hc.
      destruct (read_digits r 0 0) as [[fr cf] s3]. cbn in Hc.
      assert (Hz : (cf =? 0) = false) by (apply Z.eqb_neq; lia).
      rewrite Hz. cbn. apply round_not_nan.
    + rewrite (read_digits_none r 0 0 Hr). reflexivity.
Qed.

End PrefixFacts.

(** ** Invariants of the component *)

Module PageFacts.
Import Num Js Tf Calc Lifecycle Props Flight Float32 Page.
Import EngineFacts CalcFacts AwaitFacts ResolverFacts SyntheticFacts
  LifecycleFacts.

Lemma fin_coherent init op outcome s :
  coherent (fst (cambiarModelo_fin init op outcome s)).
Proof.
  unfold cambiarModelo_fin. destruct outcome as [a |].
  - destruct (alloc_many (art_weights a) (engine s)) as [ws e1]. cbn.
    split; [split; reflexivity | discriminate].
  - destruct (crear_spec init op (engine s)) as (e' & -> & _). cbn.
    split; [split; reflexivity | discriminate].
Qed.

Lemma inicio_coherent s : coherent (fst (cambiarModelo_inicio s)).
Proof.
  split; [reflexivity |]. intros _. cbn.
  now destruct (pending s).
Qed.

Lemma step_coherent s ev : coherent s -> coherent (fst (step s ev)).
Proof.
  intros Hc. destruct ev as [| op | i init outcome | v | v | env | j]; cbn.
  - apply inicio_coherent.
  - destruct (Operacion_eqb op (operacion s)); [exact Hc |].
    apply (inicio_coherent (with_operacion s op)).
  - destruct (nth_error (pending s) i) as [op |]; [| exact Hc].
    apply fin_coherent.
  - exact Hc.
  - exact Hc.
  - destruct (disabled s) eqn:Hd; [exact Hc |].
    destruct (inicio_frame env s) as (Hm & _ & _ & _ & Hcg & Ho & Hp & _).
    unfold coherent. rewrite Hm, Hcg, Ho, Hp. exact Hc.
  - destruct (fin_frame j s) as (Hm & _ & _ & _ & Hcg & Ho & Hp & _).
    unfold coherent. rewrite Hm, Hcg, Ho, Hp. exact Hc.
Qed.

(** Every state the component can reach is coherent. *)
Lemma run_coherent evs : coherent (run evs).
Proof.
  unfold run.
  assert (H0 : coherent inicial).
  { split; [reflexivity | discriminate]. }
  revert H0. generalize inicial.
  induction evs as [| ev evs IH]; intros s Hs; cbn; [exact Hs |].
  apply IH, step_coherent, Hs.
Qed.

Lemma includes_origin m :
  includes "Memoria" (origin_of m) = is_sequential m.
Proof. destruct m; vm_compute; reflexivity. Qed.

Lemma reach_wf s : reach s -> state_wf s.
Proof.
  induction 1 as [| s ev _ IH _]; [apply inicial_wf | now apply step_wf].
Qed.

Lemma reach_alive s :
  reach s -> forall m, modeloActual s = Some m ->
                       weights_alive m (engine s) = true.
Proof.
  intros Hr. enough (Hfl : flight_wf s) by (intros m Hm; apply Hfl, Hm).
  induction Hr as [| s ev Hr IH _]; [apply inicial_flight |].
  apply step_flight; [now apply reach_wf | exact IH].
Qed.

Lemma step_matched s ev :
  one_in_flight s -> in_sequence s ev = true -> matched s ->
  matched (fst (step s ev)).
Proof.
  intros Hone Hseq [Hp Hm].
  destruct ev as [| op | i init outcome | v | v | env | j]; cbn in *.
  - apply andb_true_iff in Hseq as [Hq _]. unfold quiet in Hq.
    destruct (pending s) eqn:Hpe; [| discriminate]. split.
    + cbn. intros op [<- | []]. reflexivity.
    + intros ls [=].
  - destruct (Operacion_eqb op (operacion s)) eqn:Hop; [now split |].
    rewrite orb_false_r in Hseq. unfold quiet in Hseq.
    destruct (pending s) eqn:Hpe; [| discriminate]. split.
    + cbn. rewrite Hpe. intros op' [<- | []]. reflexivity.
    + intros ls [=].
  - destruct (nth_error (pending s) i) as [op |] eqn:Hn; [| now split].
    assert (Hop : op = operacion s) by (apply Hp; eapply nth_error_In; eauto).
    assert (Hrest : forall o, In o (remove_nth i (pending s)) -> o = operacion s).
    { destruct Hone as [[Hpe _] | (o & Hpe & _)]; rewrite Hpe in *.
      - destruct i; discriminate Hn.
      - destruct i as [| i]; [intros o' [] |]. destruct i; discriminate Hn. }
    unfold cambiarModelo_fin. cbn [engine with_pending]. destruct outcome as [a |].
    + destruct (alloc_many (art_weights a) (engine s)) as [ws e1]. cbn.
      split; [exact Hrest | intros ls [=]].
    + destruct (crearModeloEnMemoria init op (engine s)) as [[m | err] e'] eqn:Hc.
      * cbn. split; [exact Hrest |]. intros ls [= ->]. subst op.
        now exists init, (engine s), e'.
      * destruct (crear_spec init op (engine s)) as (e1 & Hc' & _).
        rewrite Hc' in Hc. discriminate Hc.
  - now split.
  - now split.
  - destruct (disabled s); [now split |].
    destruct (inicio_frame env s) as (Hmo & Hop & _ & _ & _ & _ & Hpe & _).
    unfold matched. rewrite Hmo, Hop, Hpe. now split.
  - destruct (fin_frame j s) as (Hmo & Hop & _ & _ & _ & _ & Hpe & _).
    unfold matched. rewrite Hmo, Hop, Hpe. now split.
Qed.

Lemma reach_matched s : reach s -> matched s.
Proof.
  induction 1 as [| s ev Hr IH Hseq].
  - split; [intros op [] | intros ls [=]].
  - apply step_matched; [now apply reach_one_in_flight | exact Hseq | exact IH].
Qed.

Lemma inicio_without_model env s :
  modeloActual s = None -> calcular_inicio env s = (s, []).
Proof. intros Hm. unfold calcular_inicio. now rewrite Hm. Qed.

Lemma step_tidy s ev :
  undisturbed s ev = true -> tidy s -> tidy (fst (step s ev)).
Proof.
  intros Hu Ht.
  destruct ev as [| op | i init outcome | v | v | env | j]; cbn in *.
  - destruct (awaiting s); [| discriminate]. intros _. now split.
  - destruct (awaiting s) eqn:Ha; [| discriminate].
    destruct (Operacion_eqb op (operacion s)); [exact Ht |].
    intros _. cbn. now rewrite Ha.
  - destruct (nth_error (pending s) i) as [op |]; [| exact Ht].
    intros Hm. now destruct (fin_installs init op outcome
                               (with_pending s (remove_nth i (pending s)))).
  - exact Ht.
  - exact Ht.
  - destruct (disabled s) eqn:Hd; [exact Ht |].
    unfold disabled in Hd. destruct (modeloActual s) as [m |] eqn:Hm;
      [| discriminate].
    destruct (inicio_frame env s) as (Hmo & _). intros Hn.
    rewrite Hmo, Hm in Hn. discriminate Hn.
  - destruct (fin_frame j s) as (Hmo & _ & _ & _ & _ & _ & _ & _ & Hc).
    destruct (nth_error (awaiting s) j) as [c |] eqn:Hj;
      [| rewrite Hc; exact Ht].
    intros Hn. rewrite Hmo in Hn. destruct (Ht Hn) as [_ Ha].
    rewrite Ha in Hj. destruct j; discriminate Hj.
Qed.

Lemma calm_tidy s : calm s -> tidy s.
Proof.
  induction 1 as [| s ev _ IH Hu]; [intros _; now split |].
  now apply step_tidy.
Qed.

End PageFacts.

Module RegistryFacts.
Import Num Js Tf Calc Lifecycle Props Flight Float32 Page.
Import EngineFacts CalcFacts AwaitFacts ResolverFacts SyntheticFacts
  LifecycleFacts PageFacts.

Lemma fin_live_mono init op outcome s :
  engine_wf (engine s) ->
  live (engine s) ⊆ live (engine (fst (cambiarModelo_fin init op outcome s))).
Proof.
  intros He. unfold cambiarModelo_fin. destruct outcome as [a |].
  - destruct (alloc_many (art_weights a) (engine s)) as [ws e1] eqn:Hm.
    destruct (alloc_many_spec _ _ _ _ Hm) as (Hl & _ & _). cbn. rewrite Hl.
    set_solver.
  - destruct (crear_spec init op (engine s)) as (e' & -> & _ & Hl). cbn.
    rewrite Hl. intros i Hi.
    assert (i <> next (engine s) /\ i <> S (next (engine s))).
    { specialize (He i Hi). lia. }
    set_solver.
Qed.

(** A set of allocated buffers that holds none of a suspended call stays
    allocated, and apart from the suspended calls, through every event. *)
Lemma step_keeps (W : gset nat) s ev :
  state_wf s -> W ⊆ live (engine s) -> W ## awaited s ->
  W ⊆ live (engine (fst (step s ev))) /\ W ## awaited (fst (step s ev)).
Proof.
  intros Hwf Hsub Hdis.
  destruct ev as [| op | i init outcome | v | v | env | j]; cbn.
  - now split.
  - destruct (Operacion_eqb op (operacion s)); now split.
  - destruct (nth_error (pending s) i) as [op |]; [| now split]. split.
    + etransitivity; [exact Hsub |].
      apply (fin_live_mono init op outcome (with_pending s _)), Hwf.
    + unfold cambiarModelo_fin. destruct outcome as [a |].
      * now destruct (alloc_many (art_weights a) _).
      * now destruct (crearModeloEnMemoria init op _) as [[m | err] e'].
  - now split.
  - now split.
  - destruct (disabled s); [now split |].
    destruct (inicio_frame env s) as (_ & _ & _ & _ & _ & _ & _ & _ & Hc).
    unfold awaited in *.
    destruct Hc as [[Haw Hl] | (c & Haw & _ & Hl & Hr)]; rewrite Haw.
    + rewrite (Hl (proj1 Hwf)). now split.
    + rewrite Hl, awaited_app. split; [set_solver |].
      intros i Hi Hi'. apply elem_of_union in Hi' as [Hi' | Hi'].
      * exact (Hdis i Hi Hi').
      * specialize (Hr i Hi'). pose proof (proj1 Hwf i (Hsub i Hi)). lia.
  - destruct (fin_frame j s) as (_ & _ & _ & _ & _ & _ & _ & _ & Hc).
    destruct (nth_error (awaiting s) j) as [c |] eqn:Hj;
      [| rewrite Hc; now split].
    destruct Hc as [Haw Hl]. unfold awaited in *. rewrite Haw, Hl.
    pose proof (awaited_remove (awaiting s) j) as Hrem.
    pose proof (awaited_nth (awaiting s) j c Hj) as Hin.
    split; set_solver.
Qed.

Lemma run_app evs evs' :
  run (evs ++ evs') = fold_left (fun s ev => fst (step s ev)) evs' (run evs).
Proof. unfold run. apply fold_left_app. Qed.

Lemma apart_app (l : list Suspended) c :
  apart l ->
  ⋃ (map (fun c => locals_ids (sus_locals c)) l) ## locals_ids (sus_locals c) ->
  apart (l ++ [c]).
Proof.
  induction l as [| a l IH]; cbn; [intros _ _; split; [set_solver | exact I] |].
  intros [Ha Hl] Hd. split.
  - rewrite awaited_app. set_solver.
  - apply IH; [exact Hl | set_solver].
Qed.

(** What is left when the [i]-th suspended call is taken out. *)
Lemma apart_remove (l : list Suspended) : forall i c,
  nth_error l i = Some c -> apart l ->
  apart (remove_nth i l) /\
  ⋃ (map (fun c => locals_ids (sus_locals c)) (remove_nth i l))
  = ⋃ (map (fun c => locals_ids (sus_locals c)) l)
    ∖ locals_ids (sus_locals c).
Proof.
  induction l as [| a l IH]; intros [| i] c; cbn; try discriminate.
  - intros [= <-] [Ha Hl]. split; [exact Hl | set_solver].
  - intros Hn [Ha Hl]. destruct (IH i c Hn Hl) as [Hr Heq].
    pose proof (awaited_nth l i c Hn) as Hin.
    pose proof (awaited_remove l i) as Hsub.
    split; [split; [set_solver | exact Hr] |].
    rewrite Heq. set_solver.
Qed.

Lemma step_holding s ev :
  state_wf s -> flight_wf s -> holding s -> holding (fst (step s ev)).
Proof.
  intros Hwf [Hlt _] [Hsub Hap].
  destruct ev as [| op | i init outcome | v | v | env | j]; cbn.
  - now split.
  - destruct (Operacion_eqb op (operacion s)); now split.
  - destruct (nth_error (pending s) i) as [op |]; [| now split].
    pose proof (fin_live_mono init op outcome
                  (with_pending s (remove_nth i (pending s))) (proj1 Hwf))
      as Hmono.
    unfold holding, awaited in *. unfold cambiarModelo_fin in *.
    destruct outcome as [a |].
    + destruct (alloc_many (art_weights a) _) as [ws e']. cbn in *.
      split; [set_solver | exact Hap].
    + destruct (crearModeloEnMemoria init op _) as [[m | err] e']; cbn in *;
        (split; [set_solver | exact Hap]).
  - now split.
  - now split.
  - destruct (disabled s); [now split |].
    destruct (inicio_frame env s) as (_ & _ & _ & _ & _ & _ & _ & _ & Hc).
    unfold holding, awaited in *.
    destruct Hc as [[Haw Hl] | (c & Haw & _ & Hl & Hr)]; rewrite Haw.
    + rewrite (Hl (proj1 Hwf)). now split.
    + rewrite Hl, awaited_app. split; [set_solver |].
      apply apart_app; [exact Hap |].
      intros i Hi Hi'. specialize (Hr i Hi'). specialize (Hlt i Hi). lia.
  - destruct (fin_frame j s) as (_ & _ & _ & _ & _ & _ & _ & _ & Hc).
    destruct (nth_error (awaiting s) j) as [c |] eqn:Hj;
      [| rewrite Hc; now split].
    destruct Hc as [Haw Hl]. unfold holding, awaited in *. rewrite Haw, Hl.
    destruct (apart_remove (awaiting s) j c Hj Hap) as [Hr Heq].
    split; [rewrite Heq; set_solver | exact Hr].
Qed.

(** In every state the component can reach, the suspended calls hold
    allocated buffers, each its own. *)
Lemma run_holding evs : holding (run evs).
Proof.
  unfold run.
  assert (H0 : holding inicial) by (split; [set_solver | exact I]).
  revert H0. generalize inicial_flight. generalize inicial_wf.
  generalize inicial.
  induction evs as [| ev evs IH]; intros s Hwf Hfl Hh; cbn; [exact Hh |].
  apply IH; [now apply step_wf | now apply step_flight | now apply step_holding].
Qed.

Lemma steps_keep (W : gset nat) evs' : forall s,
  state_wf s -> W ⊆ live (engine s) -> W ## awaited s ->
  W ⊆ live (engine (fold_left (fun s ev => fst (step s ev)) evs' s)).
Proof.
  induction evs' as [| ev evs' IH]; intros s Hwf Hsub Hdis; cbn;
    [exact Hsub |].
  destruct (step_keeps W s ev Hwf Hsub Hdis) as [Hsub' Hdis'].
  apply IH; [now apply step_wf | exact Hsub' | exact Hdis'].
Qed.

Lemma fallback_live init op s :
  engine_wf (engine s) ->
  live (engine (fst (cambiarModelo_fin init op None s)))
  = {[ S (S (S (next (engine s)))) ]}
    ∪ ({[ S (S (next (engine s))) ]} ∪ live (engine s)).
Proof.
  intros He. unfold cambiarModelo_fin.
  destruct (crear_spec init op (engine s)) as (e' & -> & _ & Hl). cbn.
  rewrite Hl. apply set_eq. intros i.
  assert (Hfresh : forall k, (next (engine s) <= k)%nat -> k ∉ live (engine s)).
  { intros k Hk Hin. specialize (He k Hin). lia. }
  pose proof (Hfresh (next (engine s)) (Nat.le_refl _)).
  pose proof (Hfresh (S (next (engine s))) (Nat.le_succ_diag_r _)).
  set_unfold. split.
  - intros [[Hi Hn0] Hn1]. destruct Hi as [? | [? | [? | [? | ?]]]]; tauto.
  - intros [? | [? | Hi]]; repeat split; auto; try lia; intros ->; tauto.
Qed.

End RegistryFacts.

(** ** The properties *)

Import Flight Float32 SynthDefs PrefixDefs Page.
Import AwaitFacts Float32Facts SynthFacts SynthFacts2 PrefixFacts PageFacts
  RegistryFacts.

Lemma synthetic_suma_built : is_synthetic suma synthetic_suma.
Proof. exists [], engine0. eexists. vm_compute. reflexivity. Qed.

Lemma synthetic_resta_built : is_synthetic resta synthetic_resta.
Proof.
  exists [], (engine ready_suma). eexists. vm_compute. reflexivity.
Qed.

Lemma ready_with_alive a b :
  weights_alive synthetic_suma (engine (ready_with a b)) = true.
Proof. vm_compute. reflexivity. Qed.

Lemma ready_resta_with_alive a b :
  weights_alive synthetic_resta (engine (ready_resta_with a b)) = true.
Proof. vm_compute. reflexivity. Qed.

Lemma ready_resta_with_reach a b : reach (ready_resta_with a b).
Proof.
  apply (reach_step (with_vals ready_resta a "") (EscribirB b));
    [| reflexivity].
  apply (reach_step ready_resta (EscribirA a)); [| reflexivity].
  apply (reach_step (run [Montar; CargaResuelta 0 [] None; Seleccionar resta])
           (CargaResuelta 0 [] None)); [| reflexivity].
  apply (reach_step ready_suma (Seleccionar resta)); [| reflexivity].
  apply (reach_step (run [Montar]) (CargaResuelta 0 [] None)); [| reflexivity].
  apply (reach_step inicial Montar reach_inicial). reflexivity.
Qed.

(** X1.  The values the dense layer is created with never matter: whatever
    its initializer draws, [crearModeloEnMemoria] returns the same model
    and leaves the engine in the same state, because [setWeights] replaces
    kernel and bias. *)
Theorem initializer_is_overwritten :
  forall (init init' : list number) (op : Operacion) (e : Engine),
    crearModeloEnMemoria init op e = crearModeloEnMemoria init' op e.
Proof.
  intros init init' op e.
  unfold crearModeloEnMemoria, dense, tensor2d, tensor1d, alloc.
  destruct op; reflexivity.
Qed.

(** X2.  With a synthetic model in the slot, its weights allocated, a
    backend that does not fail and two inputs that pass the checks,
    [calcular] shows [toFixed(2)] of exactly one [float32] addition of the
    two stored inputs (the second negated for subtraction): the products
    by the kernel and the addition of the bias round nothing.  This holds
    for every pair of inputs, overflowing and infinite ones included.
    [predict] is called once, on the two inputs as stored. *)
Theorem synthetic_result_closed_form :
  forall (op : Operacion) (env : Env) (s : State) (m : LayersModel),
    modeloActual s = Some m ->
    is_synthetic op m ->
    state_wf s ->
    weights_alive m (engine s) = true ->
    predict_ok env = true ->
    data_ok env = true ->
    valid_inputs s = true ->
    resultado (fst (calcular env s))
    = Some (toFixed2 (synthetic_output op (parseFloat (valA s))
                                       (parseFloat (valB s)))) /\
    snd (calcular env s)
    = [PredictCalled [cast binary32 (parseFloat (valA s));
                      cast binary32 (parseFloat (valB s))]].
Proof.
  intros op env s m. apply synthetic_calcular.
Qed.

Lemma synthetic_result_closed_form_witness :
  modeloActual (ready_with "0.1" "0.2") = Some synthetic_suma /\
  valid_inputs (ready_with "0.1" "0.2") = true /\
  resultado (fst (calcular healthy (ready_with "0.1" "0.2")))
  = Some (toFixed2 (synthetic_output suma (parseFloat "0.1") (parseFloat "0.2"))) /\
  toFixed2 (synthetic_output suma (parseFloat "0.1") (parseFloat "0.2"))
  = "0.30"%string.
Proof.
  split; [reflexivity |]. split; [vm_compute; reflexivity |].
  split; [| vm_compute; reflexivity].
  exact (proj1 (synthetic_result_closed_form suma healthy
                  (ready_with "0.1" "0.2") synthetic_suma eq_refl
                  synthetic_suma_built (ready_with_wf "0.1" "0.2")
                  (ready_with_alive "0.1" "0.2") eq_refl eq_refl
                  ltac:(vm_compute; reflexivity))).
Defined.

(** X3.  With the synthetic model for addition in the slot, exchanging the
    two inputs does not change what [calcular] shows, whatever the inputs
    and the backend. *)
Theorem addition_commutes :
  forall (env : Env) (s : State) (m : LayersModel),
    modeloActual s = Some m ->
    is_synthetic suma m ->
    state_wf s ->
    resultado (fst (calcular env (swapped s)))
    = resultado (fst (calcular env s)).
Proof.
  intros env s m Hm Hsyn Hwf.
  destruct (is_synthetic_layer suma m Hsyn) as [n ->].
  destruct (valid_inputs s) eqn:Hv.
  - assert (Hv' : valid_inputs (swapped s) = true)
      by (now rewrite swapped_valid).
    rewrite (calcular_run env (swapped s) _ Hm Hv'),
            (calcular_run env s _ Hm Hv).
    cbn [resultado with_result].
    rewrite !try_text by (apply Hwf, Hm).
    cbn [swapped with_vals valA valB engine]. now rewrite shown_suma_comm.
  - assert (Hv' : valid_inputs (swapped s) = false)
      by (now rewrite swapped_valid).
    destruct (calcular_skip env s (or_intror Hv)) as [-> _].
    now destruct (calcular_skip env (swapped s) (or_intror Hv')) as [-> _].
Qed.

Lemma addition_commutes_witness :
  modeloActual (ready_with "2.5" "4") = Some synthetic_suma /\
  resultado (fst (calcular healthy (ready_with "4" "2.5")))
  = resultado (fst (calcular healthy (ready_with "2.5" "4"))).
Proof.
  split; [reflexivity |].
  exact (addition_commutes healthy (ready_with "2.5" "4") synthetic_suma
           eq_refl synthetic_suma_built (ready_with_wf "2.5" "4")).
Defined.

(** X4.  With the synthetic model for subtraction in the slot, exchanging
    the two inputs negates the prediction [v]; when [v] is positive the
    text shown for the exchanged inputs is the text for [v] with a minus
    sign in front. *)
Theorem subtraction_swap_negates :
  forall (env : Env) (s : State) (m : LayersModel),
    modeloActual s = Some m ->
    is_synthetic resta m ->
    state_wf s ->
    weights_alive m (engine s) = true ->
    predict_ok env = true ->
    data_ok env = true ->
    valid_inputs s = true ->
    exists v : number,
      resultado (fst (calcular env s)) = Some (toFixed2 v) /\
      resultado (fst (calcular env (swapped s))) = Some (toFixed2 (fneg v)) /\
      (forall q : Q, v = Fin q -> (0 < q)%Q ->
                     toFixed2 (fneg v) = String "-" (toFixed2 v)).
Proof.
  intros env s m Hm Hsyn Hwf Hal Hp Hd Hv.
  exists (synthetic_output resta (parseFloat (valA s)) (parseFloat (valB s))).
  split; [| split].
  - exact (proj1 (synthetic_calcular resta env s m Hm Hsyn Hwf Hal Hp Hd Hv)).
  - assert (Hv' : valid_inputs (swapped s) = true) by (now rewrite swapped_valid).
    rewrite (proj1 (synthetic_calcular resta env (swapped s) m
                      Hm Hsyn Hwf Hal Hp Hd Hv')).
    cbn [swapped with_vals valA valB]. unfold synthetic_output. cbn [signed].
    now rewrite (fadd32_fneg_swap _ _ (cast32_is_f32 (parseFloat (valA s)))
                   (cast32_is_f32 (parseFloat (valB s)))).
  - intros q -> Hq. cbn [fneg]. now apply toFixed2_negative.
Qed.

Lemma subtraction_swap_negates_witness :
  modeloActual (ready_resta_with "10" "4") = Some synthetic_resta /\
  valid_inputs (ready_resta_with "10" "4") = true /\
  exists v : number,
    resultado (fst (calcular healthy (ready_resta_with "10" "4")))
    = Some (toFixed2 v) /\
    resultado (fst (calcular healthy (ready_resta_with "4" "10")))
    = Some (toFixed2 (fneg v)) /\
    (forall q : Q, v = Fin q -> (0 < q)%Q ->
                   toFixed2 (fneg v) = String "-" (toFixed2 v)).
Proof.
  split; [reflexivity |]. split; [vm_compute; reflexivity |].
  exact (subtraction_swap_negates healthy (ready_resta_with "10" "4")
           synthetic_resta eq_refl synthetic_resta_built
           (ready_resta_with_wf "10" "4") (ready_resta_with_alive "10" "4")
           eq_refl eq_refl ltac:(vm_compute; reflexivity)).
Defined.

(** X5.  With the synthetic model for subtraction, the same text in both
    fields gives [0.00] when the input is finite as a [float32], and [NaN]
    when it is infinite or overflows. *)
Theorem self_subtraction :
  forall (env : Env) (s : State) (m : LayersModel),
    modeloActual s = Some m ->
    is_synthetic resta m ->
    state_wf s ->
    weights_alive m (engine s) = true ->
    predict_ok env = true ->
    data_ok env = true ->
    valid_inputs s = true ->
    valB s = valA s ->
    resultado (fst (calcular env s))
    = Some (match cast binary32 (parseFloat (valA s)) with
            | Fin _ => "0.00"
            | _ => "NaN"
            end)%string.
Proof.
  intros env s m Hm Hsyn Hwf Hal Hp Hd Hv Hsame.
  rewrite (proj1 (synthetic_calcular resta env s m Hm Hsyn Hwf Hal Hp Hd Hv)).
  unfold synthetic_output. cbn [signed]. rewrite Hsame.
  rewrite (self_difference _ (cast32_is_f32 (parseFloat (valA s)))).
  now destruct (cast binary32 (parseFloat (valA s))).
Qed.

Lemma self_subtraction_witness :
  modeloActual (ready_resta_with "7.3" "7.3") = Some synthetic_resta /\
  valid_inputs (ready_resta_with "7.3" "7.3") = true /\
  resultado (fst (calcular healthy (ready_resta_with "7.3" "7.3")))
  = Some "0.00"%string.
Proof.
  split; [reflexivity |]. split; [vm_compute; reflexivity |].
  exact (self_subtraction healthy (ready_resta_with "7.3" "7.3")
           synthetic_resta eq_refl synthetic_resta_built
           (ready_resta_with_wf "7.3" "7.3")
           (ready_resta_with_alive "7.3" "7.3")
           eq_refl eq_refl ltac:(vm_compute; reflexivity) eq_refl).
Defined.

(** X6.  With a synthetic model, when both inputs parse to integers and
    they and their sum (or difference) are at most [2^24] in magnitude,
    the page shows the exact sum (or difference) followed by [.00]. *)
Theorem small_integers_are_exact :
  forall (op : Operacion) (env : Env) (s : State) (m : LayersModel) (x y : Z),
    modeloActual s = Some m ->
    is_synthetic op m ->
    state_wf s ->
    weights_alive m (engine s) = true ->
    predict_ok env = true ->
    data_ok env = true ->
    valA s <> ""%string ->
    valB s <> ""%string ->
    parseFloat (valA s) = Fin (inject_Z x) ->
    parseFloat (valB s) = Fin (inject_Z y) ->
    Z.abs x <= 2 ^ 24 ->
    Z.abs y <= 2 ^ 24 ->
    Z.abs (exact_Z op x y) <= 2 ^ 24 ->
    resultado (fst (calcular env s)) = Some (integer_text (exact_Z op x y)).
Proof.
  intros op env s m x y Hm Hsyn Hwf Hal Hp Hd Ha Hb Hpa Hpb Hx Hy Hxy.
  assert (Hv : valid_inputs s = true).
  { unfold valid_inputs. rewrite Hpa, Hpb.
    apply String.eqb_neq in Ha, Hb. now rewrite Ha, Hb. }
  rewrite (proj1 (synthetic_calcular op env s m Hm Hsyn Hwf Hal Hp Hd Hv)).
  rewrite Hpa, Hpb. unfold synthetic_output. cbn [cast].
  rewrite (round32_integer x Hx), (round32_integer y Hy).
  assert (Hsum : fadd32 (Fin (inject_Z x)) (signed op (Fin (inject_Z y)))
                 = Fin (inject_Z (exact_Z op x y))).
  { rewrite <- (round32_integer _ Hxy). unfold fadd32, fadd.
    destruct op; cbn [signed fneg exact_Z]; apply round_proper.
    - now rewrite inject_Z_plus.
    - unfold Z.sub. now rewrite inject_Z_plus, inject_Z_opp. }
  rewrite Hsum. f_equal. now apply toFixed2_integer.
Qed.

Lemma small_integers_are_exact_witness :
  modeloActual (ready_resta_with "16777216" "1") = Some synthetic_resta /\
  parseFloat "16777216" = Fin (inject_Z 16777216) /\
  parseFloat "1" = Fin (inject_Z 1) /\
  resultado (fst (calcular healthy (ready_resta_with "16777216" "1")))
  = Some "16777215.00"%string.
Proof.
  split; [reflexivity |]. split; [vm_compute; reflexivity |].
  split; [vm_compute; reflexivity |].
  exact (small_integers_are_exact resta healthy
           (ready_resta_with "16777216" "1") synthetic_resta 16777216 1
           eq_refl synthetic_resta_built
           (ready_resta_with_wf "16777216" "1")
           (ready_resta_with_alive "16777216" "1") eq_refl eq_refl
           ltac:(discriminate) ltac:(discriminate)
           ltac:(vm_compute; reflexivity) ltac:(vm_compute; reflexivity)
           ltac:(vm_compute; discriminate) ltac:(vm_compute; discriminate)
           ltac:(vm_compute; discriminate)).
Defined.

(** X7.  The check of [calcular] lets infinite inputs through: when the
    first input parses to an infinity and the second to a number, no
    notice is raised and the page shows [Infinity], [-Infinity] or
    [NaN]. *)
Theorem infinite_input_is_accepted :
  forall (op : Operacion) (env : Env) (s : State) (m : LayersModel)
         (sg : bool),
    modeloActual s = Some m ->
    is_synthetic op m ->
    state_wf s ->
    weights_alive m (engine s) = true ->
    predict_ok env = true ->
    data_ok env = true ->
    valA s <> ""%string ->
    valB s <> ""%string ->
    parseFloat (valA s) = Inf sg ->
    isNaN (parseFloat (valB s)) = false ->
    (forall msg, ~ In (Alert msg) (snd (calcular env s))) /\
    (resultado (fst (calcular env s)) = Some "Infinity"%string \/
     resultado (fst (calcular env s)) = Some "-Infinity"%string \/
     resultado (fst (calcular env s)) = Some "NaN"%string).
Proof.
  intros op env s m sg Hm Hsyn Hwf Hal Hp Hd Ha Hb Hpa Hnb.
  assert (Hv : valid_inputs s = true).
  { unfold valid_inputs. rewrite Hpa, Hnb.
    apply String.eqb_neq in Ha, Hb. now rewrite Ha, Hb. }
  destruct (synthetic_calcular op env s m Hm Hsyn Hwf Hal Hp Hd Hv) as [Hr Hfx].
  split.
  - rewrite Hfx. intros msg [H | []]. discriminate H.
  - rewrite Hr, Hpa. unfold synthetic_output. cbn [cast].
    destruct (signed op (cast binary32 (parseFloat (valB s)))) as [| t | q];
      cbn.
    + now right; right.
    + destruct sg, t; cbn; auto.
    + destruct sg; auto.
Qed.

Lemma infinite_input_is_accepted_witness :
  modeloActual (ready_with "Infinity" "5") = Some synthetic_suma /\
  parseFloat "Infinity" = Inf false /\
  isNaN (parseFloat "5") = false /\
  (forall msg, ~ In (Alert msg) (snd (calcular healthy (ready_with "Infinity" "5")))) /\
  resultado (fst (calcular healthy (ready_with "Infinity" "5")))
  = Some "Infinity"%string.
Proof.
  split; [reflexivity |]. split; [vm_compute; reflexivity |].
  split; [vm_compute; reflexivity |].
  split; [| vm_compute; reflexivity].
  exact (proj1 (infinite_input_is_accepted suma healthy
                  (ready_with "Infinity" "5") synthetic_suma false eq_refl
                  synthetic_suma_built (ready_with_wf "Infinity" "5")
                  (ready_with_alive "Infinity" "5") eq_refl eq_refl
                  ltac:(discriminate) ltac:(discriminate)
                  ltac:(vm_compute; reflexivity)
                  ltac:(vm_compute; reflexivity))).
Defined.

(** X8.  [calcular] raises its notice, and does nothing else to the
    outside world, exactly when a model is in the slot, neither field is
    empty, and one of the fields does not begin (after white space and an
    optional sign) with [Infinity], a digit, or a point and a digit. *)
Theorem notice_iff_no_numeric_prefix :
  forall (env : Env) (s : State),
    snd (calcular env s) = [Alert notice] <->
    modeloActual s <> None /\
    valA s <> ""%string /\ valB s <> ""%string /\
    (has_numeric_prefix (valA s) = false \/
     has_numeric_prefix (valB s) = false).
Proof.
  intros env s.
  destruct (modeloActual s) as [m |] eqn:Hm.
  2:{ unfold calcular. rewrite Hm. cbn. split; [discriminate |].
      intros (H & _). now destruct H. }
  destruct (String.eqb (valA s) "") eqn:Ha.
  { unfold calcular. rewrite Hm, Ha. cbn. split; [discriminate |].
    apply String.eqb_eq in Ha. intros (_ & H & _). now destruct H. }
  destruct (String.eqb (valB s) "") eqn:Hb.
  { unfold calcular. rewrite Hm, Ha, Hb. cbn. split; [discriminate |].
    apply String.eqb_eq in Hb. intros (_ & _ & H & _). now destruct H. }
  apply String.eqb_neq in Ha as Ha', Hb as Hb'.
  destruct (isNaN (parseFloat (valA s)) || isNaN (parseFloat (valB s)))%bool
    eqn:Hn.
  - unfold calcular. rewrite Hm, Ha, Hb, Hn. cbn. split; [| reflexivity].
    intros _. split; [discriminate |]. split; [exact Ha' |].
    split; [exact Hb' |].
    rewrite !parseFloat_nan in Hn. apply orb_true_iff in Hn.
    destruct Hn as [H | H]; apply negb_true_iff in H; auto.
  - assert (Hv : valid_inputs s = true).
    { unfold valid_inputs. now rewrite Ha, Hb, Hn. }
    rewrite (calcular_effects env s m Hm Hv). split; [discriminate |].
    intros (_ & _ & _ & H). exfalso. rewrite !parseFloat_nan in Hn.
    apply orb_false_iff in Hn as [H1 H2].
    apply negb_false_iff in H1, H2. destruct H; congruence.
Qed.

(** X9.  A failed load is answered with the synthetic model for the
    operation the call of [cambiarModelo] captured when it started, not
    for the operation selected when it settles: the settling leaves the
    selected operation as it is, installs that model and enables the
    button. *)
Theorem settle_uses_captured_operation :
  forall (s : State) (i : nat) (op : Operacion) (init : list number),
    nth_error (pending s) i = Some op ->
    exists m : LayersModel,
      modeloActual (fst (step s (CargaResuelta i init None))) = Some m /\
      is_synthetic op m /\
      operacion (fst (step s (CargaResuelta i init None))) = operacion s /\
      disabled (fst (step s (CargaResuelta i init None))) = false /\
      pending (fst (step s (CargaResuelta i init None)))
      = remove_nth i (pending s).
Proof.
  intros s i op init Hn. cbn [step]. rewrite Hn.
  unfold cambiarModelo_fin. cbn [engine with_pending].
  destruct (crearModeloEnMemoria init op (engine s)) as [[m | err] e'] eqn:Hc.
  - exists m. cbn. repeat split. now exists init, (engine s), e'.
  - destruct (crear_spec init op (engine s)) as (e1 & Hc' & _).
    rewrite Hc' in Hc. discriminate Hc.
Qed.

Lemma settle_uses_captured_operation_witness :
  nth_error (pending (run [Montar; Seleccionar resta])) 0 = Some suma /\
  operacion (run [Montar; Seleccionar resta]) = resta /\
  exists m : LayersModel,
    modeloActual (fst (step (run [Montar; Seleccionar resta])
                            (CargaResuelta 0 [] None))) = Some m /\
    is_synthetic suma m /\
    operacion (fst (step (run [Montar; Seleccionar resta])
                         (CargaResuelta 0 [] None))) = resta /\
    disabled (fst (step (run [Montar; Seleccionar resta])
                        (CargaResuelta 0 [] None))) = false.
Proof.
  split; [reflexivity |]. split; [reflexivity |].
  destruct (settle_uses_captured_operation (run [Montar; Seleccionar resta])
              0%nat suma [] eq_refl) as (m & H1 & H2 & H3 & H4 & _).
  exists m. split; [exact H1 |]. split; [exact H2 |].
  split; [exact H3 | exact H4].
Defined.

(** X10.  When no resolution is started while another is in flight, a
    synthetic model in the slot is the one for the selected operation, and
    [calcular] shows the [float32] sum for addition and the [float32]
    difference for subtraction. *)
Theorem selected_operation_is_computed :
  forall (s : State) (env : Env) (ls : list Dense),
    reach s ->
    modeloActual s = Some (Sequential ls) ->
    predict_ok env = true ->
    data_ok env = true ->
    valid_inputs s = true ->
    is_synthetic (operacion s) (Sequential ls) /\
    resultado (fst (calcular env s))
    = Some (toFixed2 (synthetic_output (operacion s)
                        (parseFloat (valA s)) (parseFloat (valB s)))).
Proof.
  intros s env ls Hr Hm Hp Hd Hv.
  destruct (reach_matched s Hr) as [_ Hsyn]. specialize (Hsyn ls Hm).
  split; [exact Hsyn |].
  exact (proj1 (synthetic_calcular (operacion s) env s _ Hm Hsyn
                  (reach_wf s Hr) (reach_alive s Hr _ Hm) Hp Hd Hv)).
Qed.

Lemma selected_operation_is_computed_witness :
  reach (ready_resta_with "10" "4") /\
  modeloActual (ready_resta_with "10" "4") = Some synthetic_resta /\
  operacion (ready_resta_with "10" "4") = resta /\
  valid_inputs (ready_resta_with "10" "4") = true /\
  resultado (fst (calcular healthy (ready_resta_with "10" "4")))
  = Some (toFixed2 (synthetic_output resta (parseFloat "10") (parseFloat "4"))) /\
  toFixed2 (synthetic_output resta (parseFloat "10") (parseFloat "4"))
  = "6.00"%string.
Proof.
  split; [apply ready_resta_with_reach |]. split; [reflexivity |].
  split; [reflexivity |]. split; [vm_compute; reflexivity |].
  split; [| vm_compute; reflexivity].
  exact (proj2 (selected_operation_is_computed (ready_resta_with "10" "4")
                  healthy [synthetic_layer resta 4]
                  (ready_resta_with_reach "10" "4") eq_refl eq_refl eq_refl
                  ltac:(vm_compute; reflexivity))).
Defined.

(** X11.  The only buffers an event ever releases are those of a call of
    [calcular] in flight and the first values of a dense layer being
    built: along every run, a buffer that is allocated and is not held by
    a suspended call of [calcular] stays allocated for good.  In
    particular the weights of every model that was ever in the slot stay
    allocated, whatever comes after. *)
Theorem only_awaited_buffers_are_released :
  forall evs evs' : list Event,
    live (engine (run evs)) ∖ awaited (run evs)
    ⊆ live (engine (run (evs ++ evs'))) /\
    (forall m : LayersModel,
       modeloActual (run evs) = Some m ->
       weights_alive m (engine (run (evs ++ evs'))) = true).
Proof.
  intros evs evs'. rewrite run_app. split.
  - apply steps_keep; [apply run_wf | set_solver | set_solver].
  - intros m Hm. destruct (proj2 (run_flight evs) m Hm) as [Hal Hdis].
    apply weights_alive_iff.
    apply steps_keep; [apply run_wf | now apply weights_alive_iff | exact Hdis].
Qed.

(** X11 at work: a model is replaced while a call of [calcular] is in
    flight, and the weights of the replaced model and all but the two
    buffers of that call are still allocated at the end. *)
Lemma only_awaited_buffers_are_released_witness :
  modeloActual (run [Montar; CargaResuelta 0 [] None;
                     EscribirA "2"; EscribirB "3"; Pulsar healthy])
  = Some synthetic_suma /\
  awaited (run [Montar; CargaResuelta 0 [] None;
                EscribirA "2"; EscribirB "3"; Pulsar healthy])
  = {[ 4%nat; 5%nat ]} /\
  live (engine (run [Montar; CargaResuelta 0 [] None;
                     EscribirA "2"; EscribirB "3"; Pulsar healthy]))
  ∖ awaited (run [Montar; CargaResuelta 0 [] None;
                  EscribirA "2"; EscribirB "3"; Pulsar healthy])
  ⊆ live (engine (run ([Montar; CargaResuelta 0 [] None;
                        EscribirA "2"; EscribirB "3"; Pulsar healthy]
                       ++ [Seleccionar resta; LecturaResuelta 0;
                           CargaResuelta 0 [] None]))) /\
  weights_alive synthetic_suma
    (engine (run ([Montar; CargaResuelta 0 [] None;
                   EscribirA "2"; EscribirB "3"; Pulsar healthy]
                  ++ [Seleccionar resta; LecturaResuelta 0;
                      CargaResuelta 0 [] None]))) = true.
Proof.
  split; [reflexivity |]. split; [vm_compute; reflexivity |].
  destruct (only_awaited_buffers_are_released
              [Montar; CargaResuelta 0 [] None;
               EscribirA "2"; EscribirB "3"; Pulsar healthy]
              [Seleccionar resta; LecturaResuelta 0; CargaResuelta 0 [] None])
    as [H1 H2].
  split; [exact H1 | exact (H2 synthetic_suma eq_refl)].
Defined.

(** X12.  Each resolution that falls back to the synthetic model leaves
    exactly two more data buffers allocated than before, whatever was in
    the slot: those of the kernel and the bias given to [setWeights],
    which the variables of the layer share from then on.  The buffers the
    layer was created with are released. *)
Theorem fallback_leaks_two_buffers :
  forall (s : State) (i : nat) (op : Operacion) (init : list number),
    engine_wf (engine s) ->
    nth_error (pending s) i = Some op ->
    size (live (engine (fst (step s (CargaResuelta i init None)))))
    = (size (live (engine s)) + 2)%nat.
Proof.
  intros s i op init He Hn. cbn [step]. rewrite Hn.
  rewrite (fallback_live init op (with_pending s _) He). cbn [engine with_pending].
  assert (Hfresh : forall k, (next (engine s) <= k)%nat -> k ∉ live (engine s)).
  { intros k Hk Hin. specialize (He k Hin). lia. }
  rewrite size_union, size_singleton.
  - rewrite size_union, size_singleton; [lia |].
    apply disjoint_singleton_l, Hfresh. lia.
  - apply disjoint_singleton_l. rewrite elem_of_union, elem_of_singleton.
    intros [H | H]; [lia | revert H; apply Hfresh; lia].
Qed.

Lemma fallback_leaks_two_buffers_witness :
  engine_wf (engine (fst (step ready_suma (Seleccionar resta)))) /\
  nth_error (pending (fst (step ready_suma (Seleccionar resta)))) 0 = Some resta /\
  size (live (engine (fst (step (fst (step ready_suma (Seleccionar resta)))
                                (CargaResuelta 0 [] None)))))
  = (size (live (engine (fst (step ready_suma (Seleccionar resta))))) + 2)%nat.
Proof.
  assert (H : engine_wf (engine (fst (step ready_suma (Seleccionar resta))))).
  { apply (run_wf [Montar; CargaResuelta 0 [] None; Seleccionar resta]). }
  split; [exact H |]. split; [reflexivity |].
  exact (fallback_leaks_two_buffers (fst (step ready_suma (Seleccionar resta)))
           0%nat resta [] H eq_refl).
Defined.

(** X13.  In every state the component reaches: while loading, the slot
    is empty, a resolution is in flight, and badge and button say so; and
    whenever the slot is empty the button is disabled and grey, with the
    badge saying [Listo] when nothing is loading.  As long as no event
    falls between a click and the continuation of the call of [calcular]
    it started, an empty slot also means that no result panel is shown. *)
Theorem view_without_model :
  (forall evs : list Event,
     (cargando (run evs) = true ->
      modeloActual (run evs) = None /\ pending (run evs) <> [] /\
      badge_text (render (run evs)) = "Cargando..."%string /\
      badge_class (render (run evs))
      = "bg-yellow-100 text-yellow-800"%string /\
      button_label (render (run evs)) = "Cargando modelo..."%string) /\
     (modeloActual (run evs) = None ->
      button_disabled (render (run evs)) = true /\
      button_class (render (run evs))
      = "bg-gray-400 cursor-not-allowed"%string /\
      (cargando (run evs) = false ->
       badge_text (render (run evs)) = "Listo"%string /\
       badge_class (render (run evs))
       = "bg-green-100 text-green-800"%string))) /\
  (forall s : State,
     calm s -> modeloActual s = None -> panel (render s) = None).
Proof.
  split.
  - intros evs. destruct (run_coherent evs) as [Hc Hp].
    set (s := run evs) in *. split.
    + intros Hcg. specialize (Hp Hcg).
      assert (Hm : modeloActual s = None).
      { destruct (modeloActual s); [| reflexivity]. destruct Hc. congruence. }
      unfold render. cbn. rewrite Hcg. now repeat split.
    + intros Hm. rewrite Hm in Hc.
      unfold render, disabled. cbn. rewrite Hm, Hc.
      repeat split;
        match goal with H : cargando _ = false |- _ => rewrite H end;
        reflexivity.
  - intros s Hcalm Hm. destruct (calm_tidy s Hcalm Hm) as [Hr _].
    unfold render. cbn. now rewrite Hr.
Qed.

(** X13 at work after the mount, and why its last part needs its
    condition: when the operation is changed between a click and the
    continuation of the call, the prediction is shown over an empty
    slot. *)
Lemma view_without_model_witness :
  calm (run [Montar]) /\
  cargando (run [Montar]) = true /\
  modeloActual (run [Montar]) = None /\
  button_disabled (render (run [Montar])) = true /\
  badge_text (render (run [Montar])) = "Cargando..."%string /\
  panel (render (run [Montar])) = None /\
  modeloActual (run [Montar; CargaResuelta 0 [] None;
                     EscribirA "2"; EscribirB "3"; Pulsar healthy;
                     Seleccionar resta; LecturaResuelta 0]) = None /\
  panel (render (run [Montar; CargaResuelta 0 [] None;
                      EscribirA "2"; EscribirB "3"; Pulsar healthy;
                      Seleccionar resta; LecturaResuelta 0]))
  = Some ("5.00"%string, false).
Proof.
  assert (Hc : calm (run [Montar])).
  { apply (calm_step inicial Montar calm_inicial). reflexivity. }
  destruct view_without_model as [Hall Hcalm].
  destruct (Hall [Montar]) as [Hload Hempty].
  destruct (Hload eq_refl) as (Hm & _ & Hb & _).
  destruct (Hempty Hm) as (Hd & _).
  split; [exact Hc |]. split; [reflexivity |]. split; [exact Hm |].
  split; [exact Hd |]. split; [exact Hb |].
  split; [exact (Hcalm _ Hc Hm) |].
  split; vm_compute; reflexivity.
Defined.

(** X14.  In every state the component reaches with a model in the slot,
    the button is enabled, dark and labelled [Calcular con IA]; the badge
    shows the origin of that very model, purple for a synthetic one and
    green for a loaded one; and the note under a result is there exactly
    when the model is synthetic. *)
Theorem view_with_model :
  forall (evs : list Event) (m : LayersModel),
    modeloActual (run evs) = Some m ->
    button_disabled (render (run evs)) = false /\
    button_label (render (run evs)) = "Calcular con IA"%string /\
    button_class (render (run evs))
    = "bg-gray-900 hover:bg-gray-800 shadow-md hover:shadow-lg"%string /\
    badge_text (render (run evs)) = origin_of m /\
    badge_class (render (run evs))
    = (if is_sequential m then "bg-purple-100 text-purple-800"
       else "bg-green-100 text-green-800")%string /\
    forall (txt : string) (note : bool),
      panel (render (run evs)) = Some (txt, note) -> note = is_sequential m.
Proof.
  intros evs m Hm. destruct (run_coherent evs) as [Hc _].
  set (s := run evs) in *. rewrite Hm in Hc. destruct Hc as [Hcg Ho].
  unfold render, disabled. cbn. rewrite Hm, Hcg, Ho, includes_origin.
  repeat split.
  - now destruct m.
  - intros txt note. destruct (resultado s); [| discriminate].
    now intros [= _ <-].
Qed.

Lemma view_with_model_witness :
  modeloActual (run [Montar; CargaResuelta 0 [] None]) = Some synthetic_suma /\
  button_disabled (render (run [Montar; CargaResuelta 0 [] None])) = false /\
  badge_text (render (run [Montar; CargaResuelta 0 [] None]))
  = "Generado en Memoria (Demo)"%string /\
  badge_class (render (run [Montar; CargaResuelta 0 [] None]))
  = "bg-purple-100 text-purple-800"%string.
Proof.
  split; [reflexivity |].
  destruct (view_with_model [Montar; CargaResuelta 0 [] None] synthetic_suma
              eq_refl) as (H1 & _ & _ & H4 & H5 & _).
  split; [exact H1 |]. split; [exact H4 | exact H5].
Defined.

(** X15.  A click whose continuation follows before any other event is
    one run of [calcular]: when the call ends in the turn of the click
    (a guard returns, or something is thrown before the [await]) the click
    alone is that run; otherwise the click and the settling of the call it
    suspended give, together, the state and the effects of that run.  The
    run itself leaves no call suspended. *)
Theorem uninterrupted_click_is_calcular :
  forall (env : Env) (s : State),
    disabled s = false ->
    (length (awaiting (fst (step s (Pulsar env)))) = length (awaiting s) ->
     step s (Pulsar env) = calcular env s) /\
    (length (awaiting (fst (step s (Pulsar env)))) <> length (awaiting s) ->
     fst (step (fst (step s (Pulsar env)))
               (LecturaResuelta (length (awaiting s))))
     = fst (calcular env s) /\
     snd (step s (Pulsar env))
     ++ snd (step (fst (step s (Pulsar env)))
                  (LecturaResuelta (length (awaiting s))))
     = snd (calcular env s)) /\
    awaiting (fst (calcular env s)) = awaiting s.
Proof.
  intros env s Hd. cbn [step]. rewrite Hd.
  pose proof (calcular_split env s) as Hs. cbn zeta in Hs.
  split; [| split].
  - intros Hlen. apply Nat.eqb_eq in Hlen. now rewrite Hs, Hlen.
  - intros Hlen. apply Nat.eqb_neq in Hlen. rewrite Hs, Hlen. now split.
  - apply calcular_awaiting.
Qed.

Lemma uninterrupted_click_is_calcular_witness :
  disabled (ready_with "2" "3") = false /\
  awaiting (ready_with "2" "3") = [] /\
  length (awaiting (fst (step (ready_with "2" "3") (Pulsar healthy)))) = 1%nat /\
  resultado (fst (step (ready_with "2" "3") (Pulsar healthy))) = None /\
  fst (step (fst (step (ready_with "2" "3") (Pulsar healthy)))
            (LecturaResuelta 0))
  = fst (calcular healthy (ready_with "2" "3")) /\
  resultado (fst (calcular healthy (ready_with "2" "3")))
  = Some "5.00"%string.
Proof.
  destruct (uninterrupted_click_is_calcular healthy (ready_with "2" "3")
              eq_refl) as (_ & H2 & _).
  split; [reflexivity |]. split; [reflexivity |].
  split; [reflexivity |]. split; [reflexivity |].
  split; [| vm_compute; reflexivity].
  exact (proj1 (H2 ltac:(discriminate))).
Defined.

(** X16.  Whatever fell between a click and the continuation of the call
    it suspended, the continuation shows the text of that call (the error
    marker when its read failed) and releases exactly the buffers of that
    call, which were still allocated and are held by no other suspended
    call; model, operation, inputs, loading flag, origin and the
    resolutions in flight are as they were. *)
Theorem continuation_releases_its_buffers :
  forall (evs : list Event) (j : nat) (c : Suspended),
    nth_error (awaiting (run evs)) j = Some c ->
    locals_ids (sus_locals c) ⊆ live (engine (run evs)) /\
    live (engine (fst (step (run evs) (LecturaResuelta j))))
    = live (engine (run evs)) ∖ locals_ids (sus_locals c) /\
    awaited (fst (step (run evs) (LecturaResuelta j)))
    = awaited (run evs) ∖ locals_ids (sus_locals c) /\
    resultado (fst (step (run evs) (LecturaResuelta j)))
    = Some (display (sus_text c)) /\
    modeloActual (fst (step (run evs) (LecturaResuelta j)))
    = modeloActual (run evs) /\
    operacion (fst (step (run evs) (LecturaResuelta j)))
    = operacion (run evs) /\
    valA (fst (step (run evs) (LecturaResuelta j))) = valA (run evs) /\
    valB (fst (step (run evs) (LecturaResuelta j))) = valB (run evs) /\
    cargando (fst (step (run evs) (LecturaResuelta j)))
    = cargando (run evs) /\
    origenModelo (fst (step (run evs) (LecturaResuelta j)))
    = origenModelo (run evs) /\
    pending (fst (step (run evs) (LecturaResuelta j))) = pending (run evs).
Proof.
  intros evs j c Hj. destruct (run_holding evs) as [Hsub Hap].
  set (s := run evs) in *.
  pose proof (awaited_nth (awaiting s) j c Hj) as Hin.
  destruct (apart_remove (awaiting s) j c Hj Hap) as [_ Heq].
  destruct (fin_frame j s) as (Hm & Ho & Ha & Hb & Hc & Hor & Hp & _ & Hfr).
  rewrite Hj in Hfr. destruct Hfr as [Haw Hl]. cbn [step].
  split; [unfold awaited in Hsub; set_solver |].
  split; [exact Hl |].
  split; [unfold awaited; now rewrite Haw |].
  split; [| now repeat split].
  unfold calcular_fin. rewrite Hj. now destruct (sus_text c).
Qed.

Lemma continuation_releases_its_buffers_witness :
  (exists c : Suspended,
     nth_error (awaiting (run [Montar; CargaResuelta 0 [] None;
                               EscribirA "2"; EscribirB "3"; Pulsar healthy;
                               Seleccionar resta])) 0 = Some c /\
     locals_ids (sus_locals c) = {[ 4%nat; 5%nat ]} /\
     sus_text c = Ok "5.00"%string) /\
  modeloActual (run [Montar; CargaResuelta 0 [] None;
                     EscribirA "2"; EscribirB "3"; Pulsar healthy;
                     Seleccionar resta]) = None /\
  live (engine (run [Montar; CargaResuelta 0 [] None;
                     EscribirA "2"; EscribirB "3"; Pulsar healthy;
                     Seleccionar resta]))
  = {[ 2%nat; 3%nat; 4%nat; 5%nat ]} /\
  live (engine (run [Montar; CargaResuelta 0 [] None;
                     EscribirA "2"; EscribirB "3"; Pulsar healthy;
                     Seleccionar resta; LecturaResuelta 0]))
  = {[ 2%nat; 3%nat ]} /\
  resultado (run [Montar; CargaResuelta 0 [] None;
                  EscribirA "2"; EscribirB "3"; Pulsar healthy;
                  Seleccionar resta; LecturaResuelta 0])
  = Some "5.00"%string.
Proof.
  pose proof (continuation_releases_its_buffers
                [Montar; CargaResuelta 0 [] None;
                 EscribirA "2"; EscribirB "3"; Pulsar healthy;
                 Seleccionar resta] 0%nat _ eq_refl) as (_ & _ & _ & Hr & _).
  split; [eexists; split; [reflexivity |];
          split; vm_compute; reflexivity |].
  split; [reflexivity |]. split; [vm_compute; reflexivity |].
  split; [vm_compute; reflexivity |]. exact Hr.
Defined.
